(** * Skingo: component compiler and composition runtime

    A shallow embedding of [skingo.go] (single-file components for Go's
    [html/template]): block extraction, root-structure analysis, selector
    scoping, layout compilation, and the nested-component runtime
    ([comp], [param], [paramOr], [Execute], [ExecuteIsolated]).

    Go strings are byte sequences and are modelled by [string]; Go [int]
    indices are modelled by [Z] where the code compares them with [-1] or
    with a length, and by [nat] where they only slice. *)

From Stdlib Require Import ZArith Lia List Ascii String Bool.
From stdpp Require Import base option gmap strings pretty.

Local Open Scope string_scope.
Local Open Scope Z_scope.

#[local] Set Warnings "-register-all".

(** ** The [strings] package, as far as the program uses it *)

Module Strings.

Fixpoint HasPrefix (s prefix : string) {struct prefix} : bool :=
  match prefix, s with
  | EmptyString, _ => true
  | String p prefix', String a s' => if Ascii.eqb a p then HasPrefix s' prefix' else false
  | String _ _, EmptyString => false
  end.

Fixpoint drop (n : nat) (s : string) : string :=
  match n, s with
  | O, _ => s
  | S n', String _ s' => drop n' s'
  | S _, EmptyString => EmptyString
  end.

Fixpoint take (n : nat) (s : string) : string :=
  match n, s with
  | O, _ => EmptyString
  | S n', String a s' => String a (take n' s')
  | S _, EmptyString => EmptyString
  end.

Definition len (s : string) : nat := String.length s.

(** [s[i:j]] *)
Definition slice (s : string) (i j : nat) : string := take (j - i) (drop i s).

(** Position of the first occurrence of [sub] in [s], if any. *)
Fixpoint find (s sub : string) : option nat :=
  if HasPrefix s sub then Some O
  else match s with
       | EmptyString => None
       | String _ s' => match find s' sub with
                        | Some n => Some (S n)
                        | None => None
                        end
       end.

(** [strings.Index]: [-1] when [sub] does not occur. *)
Definition Index (s sub : string) : Z :=
  match find s sub with
  | Some n => Z.of_nat n
  | None => -1
  end.

Definition Contains (s sub : string) : bool := 0 <=? Index s sub.

Definition HasSuffix (s suffix : string) : bool :=
  (len suffix <=? len s)%nat && String.eqb (drop (len s - len suffix) s) suffix.

Definition TrimSuffix (s suffix : string) : string :=
  if HasSuffix s suffix then take (len s - len suffix) s else s.

(** [strings.Split] for a non-empty separator (every call site passes a
    one-character literal): [skip] counts the bytes of a separator that
    is being stepped over, [cur] is the piece read so far. *)
Fixpoint split_go (sep : string) (s : string) (skip : nat) (cur : string) : list string :=
  match s with
  | EmptyString => [cur]
  | String a s' =>
      match skip with
      | S k => split_go sep s' k cur
      | O => if HasPrefix s sep
             then cur :: split_go sep s' (len sep - 1) EmptyString
             else split_go sep s' O (cur +:+ String a EmptyString)
      end
  end.

Definition Split (s sep : string) : list string := split_go sep s O EmptyString.

(** [strings.SplitN(s, sep, 2)]: cut at the first separator only. *)
Definition SplitN2 (s sep : string) : list string :=
  match find s sep with
  | Some n => [take n s; drop (n + len sep) s]
  | None => [s]
  end.

Fixpoint Join (l : list string) (sep : string) : string :=
  match l with
  | [] => EmptyString
  | [x] => x
  | x :: rest => x +:+ sep +:+ Join rest sep
  end.

(** [strings.Replace(s, old, new, 1)] for a non-empty [old]. *)
Definition Replace1 (s old new : string) : string :=
  match find s old with
  | Some n => take n s +:+ new +:+ drop (n + len old) s
  | None => s
  end.

(** [strings.ReplaceAll] for a non-empty [old]. *)
Fixpoint replace_go (old new : string) (s : string) (skip : nat) : string :=
  match s with
  | EmptyString => EmptyString
  | String a s' =>
      match skip with
      | S k => replace_go old new s' k
      | O => if HasPrefix s old
             then new +:+ replace_go old new s' (len old - 1)
             else String a (replace_go old new s' O)
      end
  end.

Definition ReplaceAll (s old new : string) : string := replace_go old new s O.

(** White space as [unicode.IsSpace] sees it, on UTF-8 bytes: the six
    ASCII characters and the encodings of U+0085, U+00A0, U+1680,
    U+2000..U+200A, U+2028, U+2029, U+202F, U+205F and U+3000.  None of
    the lead bytes below is a continuation byte, so scanning byte by byte
    never finds one of them inside another character. *)
Definition asciiSpace (a : ascii) : bool :=
  let n := N_of_ascii a in
  ((9 <=? n) && (n <=? 13) || (n =? 32))%N.

Definition byte (n : Z) : ascii := ascii_of_N (Z.to_N n).
Definition bytes (l : list Z) : string :=
  fold_right (fun n s => String (byte n) s) EmptyString l.

Definition unicodeSpaces : list string :=
  [bytes [194; 133]; bytes [194; 160]; bytes [225; 154; 128]] ++
  map (fun k => bytes [226; 128; 128 + k]) [0; 1; 2; 3; 4; 5; 6; 7; 8; 9; 10] ++
  [bytes [226; 128; 168]; bytes [226; 128; 169]; bytes [226; 128; 175];
   bytes [226; 129; 159]; bytes [227; 128; 128]].

(** Width in bytes of the white-space character [s] starts with, [0] if
    it starts with none. *)
Definition spaceWidth (s : string) : nat :=
  match s with
  | EmptyString => O
  | String a _ =>
      if asciiSpace a then 1%nat
      else match List.find (HasPrefix s) unicodeSpaces with
           | Some w => len w
           | None => O
           end
  end.

Fixpoint trimLeft_go (fuel : nat) (s : string) : string :=
  match fuel with
  | O => s
  | S f => match spaceWidth s with
           | O => s
           | w => trimLeft_go f (drop w s)
           end
  end.

Definition TrimLeftSpace (s : string) : string := trimLeft_go (len s) s.

(** Width of the white-space character [s] ends with. *)
Definition spaceWidthEnd (s : string) : nat :=
  match drop (len s - 1) s with
  | String a EmptyString =>
      if asciiSpace a then 1%nat
      else match List.find (HasSuffix s) unicodeSpaces with
           | Some w => len w
           | None => O
           end
  | _ => O
  end.

Fixpoint trimRight_go (fuel : nat) (s : string) : string :=
  match fuel with
  | O => s
  | S f => match spaceWidthEnd s with
           | O => s
           | w => trimRight_go f (take (len s - w) s)
           end
  end.

Definition TrimRightSpace (s : string) : string := trimRight_go (len s) s.

Definition TrimSpace (s : string) : string := TrimRightSpace (TrimLeftSpace s).

(** [strings.Fields]: the maximal runs of non-space characters. *)
Fixpoint fields_go (s : string) (skip : nat) (cur : string) : list string :=
  let flush (rest : list string) :=
    match cur with EmptyString => rest | _ => cur :: rest end in
  match s with
  | EmptyString => flush []
  | String a s' =>
      match skip with
      | S k => fields_go s' k cur
      | O => match spaceWidth s with
             | O => fields_go s' O (cur +:+ String a EmptyString)
             | S w => flush (fields_go s' w EmptyString)
             end
      end
  end.

Definition Fields (s : string) : list string := fields_go s O EmptyString.

End Strings.

(** ** The [regexp] package: a backtracking matcher

    Go's [regexp] returns the leftmost match and, among the matches that
    start there, the one a backtracking search finds first (greedy [*]
    tries one more repetition before stopping, lazy [*?] the reverse).
    The patterns of the program only contain ASCII literals and classes
    that are closed under "any byte but these ASCII ones", so matching
    bytes and matching characters agree. *)

Module Regexp.
Import Strings.

Inductive regex : Type :=
| Eps
| Chr (c : ascii)                 (* a literal byte *)
| Class (p : ascii -> bool)       (* a character class *)
| Seq (r1 r2 : regex)
| Star (r : regex)                (* r*   *)
| LazyStar (r : regex)            (* r*?  *)
| Opt (r : regex)                 (* r?   *)
| Group (n : nat) (r : regex)     (* the n-th capturing group *)
| Bol                             (* ^ without the m flag *)
| Eol.                            (* $ without the m flag *)

Definition Plus (r : regex) : regex := Seq r (Star r).

Fixpoint Lit (s : string) : regex :=
  match s with
  | EmptyString => Eps
  | String a EmptyString => Chr a
  | String a s' => Seq (Chr a) (Lit s')
  end.

(** Captures: group number, start and end offsets in the subject. *)
Definition caps := list (nat * (nat * nat)).

Definition cont := string -> nat -> caps -> option (nat * caps).

(** The loop of a repetition: [body] matches one more repetition, [k]
    continues after the last one.  A greedy repetition tries one more
    before it stops, a lazy one stops before it tries one more; a
    repetition that consumed nothing is given up.  [fuel] bounds the
    number of repetitions by the length of the subject. *)
Fixpoint starLoop (greedy : bool)
  (body : string -> nat -> caps -> cont -> option (nat * caps)) (k : cont)
  (fuel : nat) (s : string) (i : nat) (c : caps) : option (nat * caps) :=
  match fuel with
  | O => k s i c
  | S f =>
      if greedy then
        match body s i c (fun s' i' c' =>
                            if (i <? i')%nat then starLoop greedy body k f s' i' c'
                            else None) with
        | Some m => Some m
        | None => k s i c
        end
      else
        match k s i c with
        | Some m => Some m
        | None => body s i c (fun s' i' c' =>
                                if (i <? i')%nat then starLoop greedy body k f s' i' c'
                                else None)
        end
  end.

(** [run r s i c k]: match [r] against the suffix [s] that starts at
    offset [i], then continue with [k]. *)
Fixpoint run (r : regex) (s : string) (i : nat) (c : caps) (k : cont)
  : option (nat * caps) :=
  match r with
  | Eps => k s i c
  | Chr x => match s with
             | String a s' => if Ascii.eqb a x then k s' (S i) c else None
             | EmptyString => None
             end
  | Class p => match s with
               | String a s' => if p a then k s' (S i) c else None
               | EmptyString => None
               end
  | Seq r1 r2 => run r1 s i c (fun s' i' c' => run r2 s' i' c' k)
  | Star r1 => starLoop true (run r1) k (S (len s)) s i c
  | LazyStar r1 => starLoop false (run r1) k (S (len s)) s i c
  | Opt r1 => match run r1 s i c k with
              | Some m => Some m
              | None => k s i c
              end
  | Group n r1 => run r1 s i c (fun s' i' c' => k s' i' ((n, (i, i')) :: c'))
  | Bol => match i with O => k s i c | S _ => None end
  | Eol => match s with EmptyString => k s i c | String _ _ => None end
  end.

(** A match of [r] that starts exactly at offset [i]. *)
Definition matchAt (r : regex) (s : string) (i : nat) : option (nat * caps) :=
  run r s i [] (fun _ j c => Some (j, c)).

(** The leftmost match at or after offset [i]; [s] is the suffix at [i].
    The result is (start, end, captures). *)
Fixpoint search (r : regex) (s : string) (i : nat) : option (nat * nat * caps) :=
  match matchAt r s i with
  | Some (j, c) => Some (i, j, c)
  | None => match s with
            | EmptyString => None
            | String _ s' => search r s' (S i)
            end
  end.

Fixpoint ngroups (r : regex) : nat :=
  match r with
  | Seq r1 r2 => Nat.max (ngroups r1) (ngroups r2)
  | Star r1 | LazyStar r1 | Opt r1 => ngroups r1
  | Group n r1 => Nat.max n (ngroups r1)
  | _ => O
  end.

Definition capture (subject : string) (c : caps) (n : nat) : string :=
  match List.find (fun e => Nat.eqb (fst e) n) c with
  | Some (_, (i, j)) => slice subject i j
  | None => EmptyString
  end.

Definition submatches (r : regex) (subject : string) (m : nat * nat * caps) : list string :=
  let '(i, j, c) := m in
  slice subject i j :: map (capture subject c) (seq 1 (ngroups r)).

(** [re.FindStringSubmatch(s)]: the match and its groups, [nil] when
    there is no match. *)
Definition FindStringSubmatch (r : regex) (s : string) : list string :=
  match search r s O with
  | Some m => submatches r s m
  | None => []
  end.

(** [re.MatchString(s)] *)
Definition MatchString (r : regex) (s : string) : bool :=
  match search r s O with Some _ => true | None => false end.

(** Successive non-overlapping matches, left to right.  No pattern of
    the program matches the empty string, so the rule of the library for
    an empty match next to the previous match never applies; after an
    empty match the search resumes one byte further. *)
Fixpoint findAll_go (fuel : nat) (r : regex) (subject : string) (i : nat)
  : list (nat * nat * caps) :=
  match fuel with
  | O => []
  | S f =>
      match search r (drop i subject) i with
      | Some (st, en, c) =>
          (st, en, c) :: (if (st <? en)%nat then findAll_go f r subject en
                           else if (en <? len subject)%nat then findAll_go f r subject (S en)
                                else [])
      | None => []
      end
  end.

Definition findAll (r : regex) (s : string) : list (nat * nat * caps) :=
  findAll_go (S (len s)) r s O.

(** [re.FindAllStringSubmatch(s, -1)] *)
Definition FindAllStringSubmatch (r : regex) (s : string) : list (list string) :=
  map (submatches r s) (findAll r s).

(** [re.ReplaceAllString(s, repl)] for a replacement without [$]. *)
Fixpoint replace_matches (s : string) (from : nat) (ms : list (nat * nat * caps))
  (repl : string) : string :=
  match ms with
  | [] => drop from s
  | (st, en, _) :: rest => slice s from st +:+ repl +:+ replace_matches s en rest repl
  end.

Definition ReplaceAllString (r : regex) (s repl : string) : string :=
  replace_matches s O (findAll r s) repl.

(** Character classes of the patterns. *)
Definition one (x : string) (a : ascii) : bool :=
  match x with String c EmptyString => Ascii.eqb a c | _ => false end.

Definition between (lo hi : string) (a : ascii) : bool :=
  match lo, hi with
  | String l EmptyString, String h EmptyString =>
      ((N_of_ascii l <=? N_of_ascii a) && (N_of_ascii a <=? N_of_ascii h))%N
  | _, _ => false
  end.

(** [\s] is [[\t\n\f\r ]] in Go's syntax. *)
Definition space (a : ascii) : bool :=
  let n := N_of_ascii a in
  ((n =? 9) || (n =? 10) || (n =? 12) || (n =? 13) || (n =? 32))%N.

Definition anyChar (a : ascii) : bool := true.
Definition alpha (a : ascii) : bool := between "a" "z" a || between "A" "Z" a.
Definition alnum (a : ascii) : bool := alpha a || between "0" "9" a.
Definition noneOf (l : list (ascii -> bool)) (a : ascii) : bool :=
  negb (existsb (fun p => p a) l).

End Regexp.

(** ** [crypto/md5] (RFC 1321), on 32-bit words kept in [Z] *)

Module MD5.

Definition w32 (x : Z) : Z := x mod 2 ^ 32.
Definition add32 (x y : Z) : Z := w32 (x + y).
Definition not32 (x : Z) : Z := 2 ^ 32 - 1 - x.
Definition rotl32 (x : Z) (n : Z) : Z :=
  Z.lor (w32 (Z.shiftl x n)) (Z.shiftr x (32 - n)).

(** The per-round shift amounts. *)
Definition shifts : list Z :=
  [7; 12; 17; 22; 7; 12; 17; 22; 7; 12; 17; 22; 7; 12; 17; 22;
   5; 9; 14; 20; 5; 9; 14; 20; 5; 9; 14; 20; 5; 9; 14; 20;
   4; 11; 16; 23; 4; 11; 16; 23; 4; 11; 16; 23; 4; 11; 16; 23;
   6; 10; 15; 21; 6; 10; 15; 21; 6; 10; 15; 21; 6; 10; 15; 21].

(** [floor (2^32 * |sin (i + 1)|)] for [i = 0..63]. *)
Definition table : list Z :=
  [
   0xd76aa478; 0xe8c7b756; 0x242070db; 0xc1bdceee;
   0xf57c0faf; 0x4787c62a; 0xa8304613; 0xfd469501;
   0x698098d8; 0x8b44f7af; 0xffff5bb1; 0x895cd7be;
   0x6b901122; 0xfd987193; 0xa679438e; 0x49b40821;
   0xf61e2562; 0xc040b340; 0x265e5a51; 0xe9b6c7aa;
   0xd62f105d; 0x02441453; 0xd8a1e681; 0xe7d3fbc8;
   0x21e1cde6; 0xc33707d6; 0xf4d50d87; 0x455a14ed;
   0xa9e3e905; 0xfcefa3f8; 0x676f02d9; 0x8d2a4c8a;
   0xfffa3942; 0x8771f681; 0x6d9d6122; 0xfde5380c;
   0xa4beea44; 0x4bdecfa9; 0xf6bb4b60; 0xbebfbc70;
   0x289b7ec6; 0xeaa127fa; 0xd4ef3085; 0x04881d05;
   0xd9d4d039; 0xe6db99e5; 0x1fa27cf8; 0xc4ac5665;
   0xf4292244; 0x432aff97; 0xab9423a7; 0xfc93a039;
   0x655b59c3; 0x8f0ccc92; 0xffeff47d; 0x85845dd1;
   0x6fa87e4f; 0xfe2ce6e0; 0xa3014314; 0x4e0811a1;
   0xf7537e82; 0xbd3af235; 0x2ad7d2bb; 0xeb86d391].

Definition byteOf (a : ascii) : Z := Z.of_N (N_of_ascii a).

(** The message followed by [0x80], zeros up to 56 modulo 64, and the bit
    length as a 64-bit little-endian number. *)
Definition pad (msg : list Z) : list Z :=
  let n := Z.of_nat (length msg) in
  let zeros := Z.to_nat ((55 - n) mod 64) in
  let bits := 8 * n in
  msg ++ [128] ++ repeat 0 zeros ++
  map (fun k => Z.shiftr bits (8 * k) mod 256) [0; 1; 2; 3; 4; 5; 6; 7].

(** Little-endian 32-bit words of a byte list. *)
Fixpoint words (fuel : nat) (l : list Z) : list Z :=
  match fuel, l with
  | S f, b0 :: b1 :: b2 :: b3 :: rest =>
      (b0 + 256 * b1 + 65536 * b2 + 16777216 * b3) :: words f rest
  | _, _ => []
  end.

Definition state : Type := Z * Z * Z * Z.

Definition round (m : list Z) (st : state) (i : nat) : state :=
  let '(a, b, c, d) := st in
  let iz := Z.of_nat i in
  let '(f, g) :=
    if iz <? 16 then (Z.lor (Z.land b c) (Z.land (not32 b) d), iz)
    else if iz <? 32 then (Z.lor (Z.land d b) (Z.land (not32 d) c), (5 * iz + 1) mod 16)
    else if iz <? 48 then (Z.lxor (Z.lxor b c) d, (3 * iz + 5) mod 16)
    else (Z.lxor c (Z.lor b (not32 d)), (7 * iz) mod 16) in
  let f' := add32 (add32 (add32 f a) (nth i table 0)) (nth (Z.to_nat g) m 0) in
  (d, add32 b (rotl32 f' (nth i shifts 0)), b, c).

Definition block (st : state) (m : list Z) : state :=
  let '(a0, b0, c0, d0) := st in
  let '(a, b, c, d) := fold_left (round m) (seq 0 64) st in
  (add32 a0 a, add32 b0 b, add32 c0 c, add32 d0 d).

Fixpoint chunks (fuel : nat) (ws : list Z) : list (list Z) :=
  match fuel, ws with
  | _, [] => []
  | O, _ => []
  | S f, _ => firstn 16 ws :: chunks f (skipn 16 ws)
  end.

Definition init : state := (0x67452301, 0xefcdab89, 0x98badcfe, 0x10325476).

Definition le_bytes (x : Z) : list Z :=
  map (fun k => Z.shiftr x (8 * k) mod 256) [0; 1; 2; 3].

(** [md5.Sum]: the 16 bytes of the digest. *)
Definition Sum (data : string) : list Z :=
  let padded := pad (map byteOf (list_ascii_of_string data)) in
  let ws := words (length padded) padded in
  let '(a, b, c, d) := fold_left block (chunks (length ws) ws) init in
  le_bytes a ++ le_bytes b ++ le_bytes c ++ le_bytes d.

Definition hexDigit (n : Z) : ascii :=
  nth (Z.to_nat n) (list_ascii_of_string "0123456789abcdef") "0"%char.

(** [fmt.Sprintf("%x", bytes)] *)
Definition hex (l : list Z) : string :=
  fold_right (fun x s => String (hexDigit (x / 16)) (String (hexDigit (x mod 16)) s))
             EmptyString l.

End MD5.

(** ** [path/filepath], with [/] as the separator *)

Module Filepath.
Import Strings.

Definition isSlash (a : ascii) : bool := Ascii.eqb a "/"%char.

(** Strip trailing slashes. *)
Fixpoint stripSlashes (fuel : nat) (path : string) : string :=
  match fuel with
  | O => path
  | S f => if HasSuffix path "/" && (0 <? len path)%nat
           then stripSlashes f (take (len path - 1) path)
           else path
  end.

(** The text after the last slash of [s]; [cur] is the element read so far. *)
Fixpoint lastElement (s cur : string) : string :=
  match s with
  | EmptyString => cur
  | String a s' => if isSlash a then lastElement s' EmptyString
                   else lastElement s' (cur +:+ String a EmptyString)
  end.

(** [filepath.Base] *)
Definition Base (path : string) : string :=
  if String.eqb path EmptyString then "."
  else
    let p := stripSlashes (len path) path in
    let e := lastElement p EmptyString in
    if String.eqb e EmptyString then "/" else e.

(** The suffix of [s] from its last dot on; [cur] is [None] until a dot
    has been seen. *)
Fixpoint lastDot (s : string) (cur : option string) : option string :=
  match s with
  | EmptyString => cur
  | String a s' =>
      if Ascii.eqb a "."%char then lastDot s' (Some (String a EmptyString))
      else lastDot s' (match cur with
                       | Some c => Some (c +:+ String a EmptyString)
                       | None => None
                       end)
  end.

(** [filepath.Ext]: the suffix beginning at the final dot of the final
    element of [path], empty if there is no dot. *)
Definition Ext (path : string) : string :=
  match lastDot (lastElement path EmptyString) None with
  | Some e => e
  | None => EmptyString
  end.

End Filepath.

(** ** The component compiler *)

Module Skingo.
Import Strings Regexp.

(** Characters that a string literal cannot hold directly. *)
Definition dq : string := String (ascii_of_nat 34) EmptyString.
Definition nl : string := String (ascii_of_nat 10) EmptyString.
Definition tab : string := String (ascii_of_nat 9) EmptyString.

Definition uniqueOpenToken : string := "___GO_TEMPLATE_OPEN___".
Definition uniqueCloseToken : string := "___GO_TEMPLATE_CLOSE___".
Definition ElementTypeNormal : Z := 0.
Definition ElementTypeSingle : Z := 1.
Definition ElementTypeContainer : Z := 2.

Fixpoint Cat (l : list regex) : regex :=
  match l with
  | [] => Eps
  | [r] => r
  | r :: rest => Seq r (Cat rest)
  end.

(** The patterns of the program.  In the comments they are written with
    blanks between their parts; the blanks are not part of the pattern. *)

Definition notGt : ascii -> bool := noneOf [one ">"].
Definition notQuote : ascii -> bool := noneOf [Ascii.eqb (ascii_of_nat 34); one "'"].

(** [(?s) <template ([^>]* ) > (.*? ) </template>] *)
Definition htmlRegex : regex :=
  Cat [Lit "<template"; Group 1 (Star (Class notGt)); Chr ">";
       Group 2 (LazyStar (Class anyChar)); Lit "</template>"].

(** [(?s) <style ([^>]* ) > (.*? ) </style>] *)
Definition cssRegex : regex :=
  Cat [Lit "<style"; Group 1 (Star (Class notGt)); Chr ">";
       Group 2 (LazyStar (Class anyChar)); Lit "</style>"].

(** [(?s) <script> (.*? ) </script>] *)
Definition jsRegex : regex :=
  Cat [Lit "<script>"; Group 1 (LazyStar (Class anyChar)); Lit "</script>"].

(** [class \s* = \s* Q ([^Q]* ) Q], where [Q] stands for the class of the
    two quote characters, double and single. *)
Definition classRegex : regex :=
  Cat [Lit "class"; Star (Class space); Chr "="; Star (Class space);
       Class (fun a => negb (notQuote a)); Group 1 (Star (Class notQuote));
       Class (fun a => negb (notQuote a))].

(** [^ \s* < [^>]+ >] *)
Definition openTagRegex : regex :=
  Cat [Bol; Star (Class space); Chr "<"; Plus (Class notGt); Chr ">"].

(** [unwrap] *)
Definition unwrapRegex : regex := Lit "unwrap".

(** [^ \s* < ([a-zA-Z][a-zA-Z0-9]* ) ([^>]* ) >] *)
Definition firstTagRegex : regex :=
  Cat [Bol; Star (Class space); Chr "<";
       Group 1 (Seq (Class alpha) (Star (Class alnum)));
       Group 2 (Star (Class notGt)); Chr ">"].

(** [</ \s* TAG \s* > \s* $], where [TAG] is the tag name quoted by
    [regexp.QuoteMeta], that is, matched literally. *)
Definition closeTagRegexFor (tagName : string) : regex :=
  Cat [Lit "</"; Star (Class space); Lit tagName; Star (Class space); Chr ">";
       Star (Class space); Eol].

(** [</ \s* [^>]+ > \s* $] *)
Definition closeTagRegex : regex :=
  Cat [Lit "</"; Star (Class space); Plus (Class notGt); Chr ">";
       Star (Class space); Eol].

(** [generateScopeClass]: ["s-"] and the first six hexadecimal digits of
    the MD5 digest of the name. *)
Definition generateScopeClass (name : string) : string :=
  take 8 ("s-" +:+ MD5.hex (MD5.Sum name)).

(** The rewrite of one trimmed, non-empty selector in [scopedCSS]. *)
Definition scopeSelector (scopeClass rootElementTag : string) (rootClasses : list string)
  (elementType : Z) (selector : string) : string :=
  if String.eqb selector rootElementTag then
    selector +:+ "." +:+ scopeClass
  else if HasPrefix selector "." then
    let className := drop 1 selector in
    let useDirectScope :=
      if elementType =? ElementTypeSingle then true
      else existsb (fun rootClass => String.eqb rootClass className) rootClasses in
    if useDirectScope then "." +:+ scopeClass +:+ selector
    else "." +:+ scopeClass +:+ " " +:+ selector
  else if HasPrefix selector ":" then
    if negb (String.eqb rootElementTag EmptyString)
    then rootElementTag +:+ "." +:+ scopeClass +:+ selector
    else "." +:+ scopeClass +:+ selector
  else if Contains selector " " || Contains selector ">" ||
          Contains selector "+" || Contains selector "~" then
    "." +:+ scopeClass +:+ " " +:+ selector
  else
    "." +:+ scopeClass +:+ " " +:+ selector.

(** The inner loop over a selector list: trim, skip the empty ones,
    rewrite the others with [f]. *)
Fixpoint scopeSelectors (f : string -> string) (selectorList : list string) : list string :=
  match selectorList with
  | [] => []
  | selector :: rest =>
      let selector := TrimSpace selector in
      if String.eqb selector EmptyString then scopeSelectors f rest
      else f selector :: scopeSelectors f rest
  end.

(** One rule block: [None] when the loop skips it. *)
Definition scopeBlock (f : string -> string) (block : string) : option string :=
  if String.eqb (TrimSpace block) EmptyString then None
  else match SplitN2 block "{" with
       | [selectors; declarations] =>
           let scopedSelectors := scopeSelectors f (Split selectors ",") in
           Some (Join scopedSelectors ", " +:+ " {" +:+ declarations +:+ "}" +:+ nl)
       | _ => None
       end.

(** The outer loop writes the blocks it keeps to the builder, in order. *)
Fixpoint scopeBlocks (f : string -> string) (cssBlocks : list string) : string :=
  match cssBlocks with
  | [] => EmptyString
  | block :: rest =>
      match scopeBlock f block with
      | Some out => out +:+ scopeBlocks f rest
      | None => scopeBlocks f rest
      end
  end.

Definition scopedCSS (css scopeClass rootElementTag : string) (rootClasses : list string)
  (elementType : Z) : string :=
  scopeBlocks (scopeSelector scopeClass rootElementTag rootClasses elementType)
              (Split css "}").

Definition containedScopedCSS (css scopeClass : string) : string :=
  scopeBlocks (fun selector => "." +:+ scopeClass +:+ " " +:+ selector) (Split css "}").

(** *** Templates as the evaluator sees them

    [html/template] is not part of the program.  A parsed template is
    modelled by what its evaluation can do to the program: write text,
    print a value, call one of the functions the program installs
    ([comp], [param], [paramOr], [dict], [_register_template]), or fail. *)

Inductive value : Type :=
| VNil                                    (* the nil interface value *)
| VInt (n : Z)
| VStr (s : string)
| VMap (m : list (string * value)).       (* map[string]interface{} *)

Inductive expr : Type :=
| EConst (v : value)
| EField (key : string)                   (* .key of the data *)
| EParam (index : Z)                      (* param index *)
| EParamOr (index : Z) (defaultValue : expr)
| EDict (values : list expr).             (* dict k1 v1 k2 v2 ... *)

Inductive action : Type :=
| AText (s : string)
| APrint (e : expr)
| AComp (templateName : string) (args : list expr)
| ARegister (name : string)               (* _register_template name *)
| AError (msg : string).                  (* an error of the evaluator *)

Definition body : Type := list action.

(** A Go [error]: [None] is [nil]. *)
Definition error : Type := option string.

Record Template : Type := mkTemplate {
  Name : string;
  HTML : string;
  CSS : string;
  JS : string;
  tmpl : option body;
  scopeClass : string
}.

Record Layout : Type := mkLayout {
  layoutHTML : string;
  layoutTmpl : option body
}.

(** The mutexes, and the function maps of the host language, have no
    counterpart here. *)
Record TemplateSet : Type := mkTemplateSet {
  templates : gmap string Template;
  layout : option Layout;
  layoutName : string;
  masterTmpl : gmap string body;
  templateHTML : gmap string string;
  usedTemplates : gmap string bool;
  isolatedCache : gmap string body
}.

Definition NewTemplateSet (layoutName : string) : TemplateSet :=
  {| templates := ∅; layout := None; layoutName := layoutName; masterTmpl := ∅;
     templateHTML := ∅; usedTemplates := ∅; isolatedCache := ∅ |}.

Definition set_layout (ts : TemplateSet) (l : option Layout) : TemplateSet :=
  {| templates := templates ts; layout := l; layoutName := layoutName ts;
     masterTmpl := masterTmpl ts; templateHTML := templateHTML ts;
     usedTemplates := usedTemplates ts; isolatedCache := isolatedCache ts |}.

Definition set_usedTemplates (ts : TemplateSet) (u : gmap string bool) : TemplateSet :=
  {| templates := templates ts; layout := layout ts; layoutName := layoutName ts;
     masterTmpl := masterTmpl ts; templateHTML := templateHTML ts;
     usedTemplates := u; isolatedCache := isolatedCache ts |}.

Definition set_isolatedCache (ts : TemplateSet) (c : gmap string body) : TemplateSet :=
  {| templates := templates ts; layout := layout ts; layoutName := layoutName ts;
     masterTmpl := masterTmpl ts; templateHTML := templateHTML ts;
     usedTemplates := usedTemplates ts; isolatedCache := c |}.

(** [ts.templates[t.Name] = t; ts.templateHTML[t.Name] = t.HTML] *)
Definition store (ts : TemplateSet) (t : Template) : TemplateSet :=
  {| templates := <[Name t := t]> (templates ts); layout := layout ts;
     layoutName := layoutName ts; masterTmpl := masterTmpl ts;
     templateHTML := <[Name t := HTML t]> (templateHTML ts);
     usedTemplates := usedTemplates ts; isolatedCache := isolatedCache ts |}.

(** *** [parseLayoutFile] *)

Definition styleSlot : string := nl +:+ tab +:+ "<style>{{ .CSS }}</style>" +:+ nl.
Definition scriptSlot : string := nl +:+ tab +:+ "<script>{{ .JS }}</script>" +:+ nl.

(** [s[:i] + ins + s[i:]] *)
Definition insertAt (s : string) (i : nat) (ins : string) : string :=
  take i s +:+ ins +:+ drop i s.

Definition parseLayoutFile (ts : TemplateSet) (content : string) : error * TemplateSet :=
  let html := content in
  let headCloseIndex := Index html "</head>" in
  if headCloseIndex =? -1 then
    (Some "layout template must contain </head> tag", ts)
  else
    let html := insertAt html (Z.to_nat headCloseIndex) styleSlot in
    let bodyCloseIndex := Index html "</body>" in
    if bodyCloseIndex =? -1 then
      (Some "layout template must contain </body> tag", ts)
    else
      let html := insertAt html (Z.to_nat bodyCloseIndex) scriptSlot in
      (None, set_layout ts (Some {| layoutHTML := html; layoutTmpl := None |})).

(** *** [parseFile] *)

(** What the structure analysis of [parseFile] finds out about the markup. *)
Record RootInfo : Type := mkRootInfo {
  hasRootElement : bool;
  isSingleElement : bool;
  isRootContainer : bool;
  rootTagName : string;
  rootClasses : list string
}.

Definition analyzeRoot (safeContent : string) : RootInfo :=
  match FindStringSubmatch firstTagRegex safeContent with
  | _ :: tagName :: rootAttributes :: _ =>
      let rootClasses :=
        match FindStringSubmatch classRegex rootAttributes with
        | _ :: classStr :: _ => Fields classStr
        | _ => []
        end in
      if MatchString (closeTagRegexFor tagName) safeContent then
        let innerContent := safeContent in
        let innerContent := ReplaceAllString openTagRegex innerContent EmptyString in
        let innerContent := ReplaceAllString closeTagRegex innerContent EmptyString in
        if negb (Contains innerContent "<") then
          mkRootInfo true true false tagName rootClasses
        else
          mkRootInfo true false true tagName rootClasses
      else
        mkRootInfo false false false tagName rootClasses
  | _ => mkRootInfo false false false EmptyString []
  end.

(** The loop that looks for the first [>] outside braces: the offset of
    that character, [-1] if there is none. *)
Fixpoint findTagEnd (s : string) (i : Z) (depth : Z) : Z :=
  match s with
  | EmptyString => -1
  | String char s' =>
      if Ascii.eqb char "{" then findTagEnd s' (i + 1) (depth + 1)
      else if Ascii.eqb char "}" then findTagEnd s' (i + 1) (depth - 1)
      else if Ascii.eqb char ">" && (depth =? 0) then i
      else findTagEnd s' (i + 1) depth
  end.

(** The markup with the scope class added, for a markup with a root
    element. *)
Definition injectScopeClass (html scopeClass : string) : string :=
  if Contains html ("class=" +:+ dq) then
    Replace1 html ("class=" +:+ dq) ("class=" +:+ dq +:+ scopeClass +:+ " ")
  else if Contains html "class='" then
    Replace1 html "class='" ("class='" +:+ scopeClass +:+ " ")
  else if Contains html "class={{" then
    Replace1 html "class={{" ("class=" +:+ dq +:+ scopeClass +:+ " {{")
  else
    let lastPos := findTagEnd html 0 0 in
    if negb (lastPos =? -1) then
      insertAt html (Z.to_nat lastPos) (" class=" +:+ dq +:+ scopeClass +:+ dq)
    else html.

Definition elementTypeOf (isSingleElement unwrap isRootContainer : bool) : Z :=
  if isSingleElement || unwrap then ElementTypeSingle
  else if isRootContainer then ElementTypeContainer
  else ElementTypeNormal.

Definition wrapDiv (scopeClass attrs html : string) : string :=
  "<div class=" +:+ dq +:+ scopeClass +:+ dq +:+ attrs +:+ ">" +:+ html +:+ "</div>".

(** The markup with the expression delimiters replaced by the two tokens. *)
Definition maskDelimiters (trimmedContent : string) : string :=
  let safeContent := ReplaceAll trimmedContent "{{" uniqueOpenToken in
  ReplaceAll safeContent "}}" uniqueCloseToken.

(** The text of the first style block of the file, empty if there is none. *)
Definition styleOf (content : string) : string :=
  match FindStringSubmatch cssRegex content with
  | _ :: _ :: c :: _ => c
  | _ => EmptyString
  end.

(** The markup and style of a component whose file has a template block
    with attributes [templateAttrs] and content [templateContent]. *)
Definition compileMarkup (content scopeClass templateAttrs templateContent : string)
  : string * string :=
  let trimmedContent := TrimSpace templateContent in
  let unwrap := MatchString unwrapRegex templateAttrs in
  let html := trimmedContent in
  let safeContent := maskDelimiters trimmedContent in
  let root := analyzeRoot safeContent in
  let css := styleOf content in
  if String.eqb css EmptyString then (html, EmptyString)
  else if unwrap || hasRootElement root then
    if hasRootElement root then
      let html := injectScopeClass html scopeClass in
      let elementType :=
        elementTypeOf (isSingleElement root) unwrap (isRootContainer root) in
      (html, scopedCSS css scopeClass (rootTagName root) (rootClasses root) elementType)
    else
      (wrapDiv scopeClass (" style=" +:+ dq +:+ "display:contents" +:+ dq) html,
       containedScopedCSS css scopeClass)
  else
    (wrapDiv scopeClass EmptyString html, containedScopedCSS css scopeClass).

(** The root kind of a markup-block body: the element type that
    [parseFile] computes when the template has no unwrap attribute. *)
Definition rootKind (templateContent : string) : Z :=
  let root := analyzeRoot (maskDelimiters (TrimSpace templateContent)) in
  elementTypeOf (isSingleElement root) false (isRootContainer root).

(** The component that [parseFile] stores for a file called [name] (base
    name, extension removed) with text [content]. *)
Definition compileComponent (name content : string) : Template :=
  let scope := generateScopeClass name in
  let '(html, css) :=
    match FindStringSubmatch htmlRegex content with
    | _ :: templateAttrs :: templateContent :: _ =>
        compileMarkup content scope templateAttrs templateContent
    | _ => (EmptyString, EmptyString)
    end in
  let js :=
    match FindStringSubmatch jsRegex content with
    | _ :: j :: _ => j
    | _ => EmptyString
    end in
  {| Name := name; HTML := html; CSS := css; JS := js; tmpl := None;
     scopeClass := scope |}.

(** The file system: the text of each readable file. *)
Abbreviation files := (gmap string string).

Definition baseName (filename : string) : string :=
  let name := Filepath.Base filename in
  TrimSuffix name (Filepath.Ext name).

Definition parseFile (fs : files) (ts : TemplateSet) (filename : string)
  : error * TemplateSet :=
  match fs !! filename with
  | None => (Some ("open " +:+ filename +:+ ": no such file or directory"), ts)
  | Some content =>
      let name := baseName filename in
      if String.eqb name (layoutName ts) then parseLayoutFile ts content
      else (None, store ts (compileComponent name content))
  end.

(** ** The composition runtime *)

Inductive result (A : Type) : Type :=
| Ok (a : A)
| Err (msg : string).
Arguments Ok {A} a.
Arguments Err {A} msg.

(** One entry of the component call stack. *)
Record compCall : Type := mkCompCall {
  Args : list value;
  CallName : string
}.

(** What a render reads and writes: the template set (of which
    [Execute] changes [usedTemplates] only, and [ExecuteIsolated] the
    cache only) and the call stack that the closures made by [ParseDirs]
    capture.  The top of the stack is the last element. *)
Record state : Type := mkState {
  ts : TemplateSet;
  compStack : list compCall
}.

Definition markUsed (name : string) (st : state) : state :=
  {| ts := set_usedTemplates (ts st) (<[name := true]> (usedTemplates (ts st)));
     compStack := compStack st |}.

Definition resetUsed (st : state) : state :=
  {| ts := set_usedTemplates (ts st) ∅; compStack := compStack st |}.

(** [compStack = append(compStack, call)] *)
Definition push (call : compCall) (st : state) : state :=
  {| ts := ts st; compStack := compStack st ++ [call] |}.

(** The deferred function of [comp]. *)
Definition pop (st : state) : state :=
  {| ts := ts st;
     compStack := if (0 <? length (compStack st))%nat
                  then firstn (length (compStack st) - 1) (compStack st)
                  else compStack st |}.

(** [_register_template] *)
Definition register_template (name : string) (st : state) : string * state :=
  (EmptyString, markUsed name st).

(** [args[index]] for an index known to be in range. *)
Definition argAt (args : list value) (index : Z) : value :=
  nth (Z.to_nat index) args VNil.

Definition param (compStack : list compCall) (index : Z) : value :=
  if (length compStack =? 0)%nat then VNil
  else match last compStack with
       | None => VNil
       | Some current =>
           if (index <? 0) || (Z.of_nat (length (Args current)) <=? index) then VNil
           else argAt (Args current) index
       end.

Definition isNil (v : value) : bool :=
  match v with VNil => true | _ => false end.

Definition paramOr (compStack : list compCall) (index : Z) (defaultValue : value) : value :=
  if (length compStack =? 0)%nat then defaultValue
  else match last compStack with
       | None => defaultValue
       | Some current =>
           if (index <? 0) || (Z.of_nat (length (Args current)) <=? index) then defaultValue
           else if isNil (argAt (Args current) index) then defaultValue
           else argAt (Args current) index
       end.

(** A Go map with string keys as an association list in which the first
    entry for a key is the current one. *)
Definition mapSet (m : list (string * value)) (key : string) (v : value)
  : list (string * value) := (key, v) :: m.

Fixpoint mapGet (m : list (string * value)) (key : string) : option value :=
  match m with
  | [] => None
  | (k, v) :: rest => if String.eqb k key then Some v else mapGet rest key
  end.

(** The loop of [dict] over the pairs. *)
Fixpoint dict_go (values : list value) (acc : list (string * value))
  : result (list (string * value)) :=
  match values with
  | VStr key :: v :: rest => dict_go rest (mapSet acc key v)
  | [] => Ok acc
  | _ => Err "dict keys must be strings"
  end.

Definition dict (values : list value) : result value :=
  if negb (Nat.eqb (length values mod 2) 0) then
    Err "dict needs key and value pairs as arguments"
  else match dict_go values [] with
       | Ok m => Ok (VMap m)
       | Err e => Err e
       end.

(** [fmt.Sprintf("%d", i)] *)
Definition decimal (i : nat) : string := pretty.pretty i.

(** The data that [comp] hands to the callee. *)
Definition compData (args : list value) : value :=
  match args with
  | [VMap mapData] => VMap mapData
  | [a] => VMap [("0", a)]
  | _ => VMap (fold_left (fun dataMap ia => mapSet dataMap (decimal (fst ia)) (snd ia))
                         (combine (seq 0 (length args)) args) [])
  end.

(** The outcome of an evaluation: the text written, the error if any, and
    the state afterwards; [None] when the evaluation does not return. *)
Definition outcome : Type := option (string * error * state).

(** [comp], with the evaluator of named templates as a parameter. *)
Definition comp (ExecuteTemplate : string -> value -> state -> outcome)
  (templateName : string) (args : list value) (st : state) : outcome :=
  let name := TrimSuffix templateName ".html" in
  let st := markUsed name st in
  let st := push {| Args := args; CallName := name |} st in
  let data := compData args in
  let tmplName := if negb (HasSuffix name ".html") then name +:+ ".html" else name in
  match ExecuteTemplate tmplName data st with
  | None => None
  | Some (buf, Some err, st') => Some (EmptyString, Some err, pop st')
  | Some (buf, None, st') => Some (buf, None, pop st')
  end.

Section Evaluator.

(** How the evaluator prints a value, and how it parses a template text:
    both belong to [html/template]. *)
Variable render : value -> string.
Variable Parse : string -> result body.

Fixpoint evalExpr (data : value) (stack : list compCall) (e : expr) : result value :=
  match e with
  | EConst v => Ok v
  | EField key =>
      match data with
      | VMap m => Ok (match mapGet m key with Some v => v | None => VNil end)
      | _ => Err ("can't evaluate field " +:+ key)
      end
  | EParam index => Ok (param stack index)
  | EParamOr index d =>
      match evalExpr data stack d with
      | Ok dv => Ok (paramOr stack index dv)
      | Err m => Err m
      end
  | EDict values =>
      match (fix evalAll (l : list expr) : result (list value) :=
               match l with
               | [] => Ok []
               | x :: rest =>
                   match evalExpr data stack x with
                   | Ok v => match evalAll rest with
                             | Ok vs => Ok (v :: vs)
                             | Err m => Err m
                             end
                   | Err m => Err m
                   end
               end) values with
      | Ok vs => dict vs
      | Err m => Err m
      end
  end.

Fixpoint evalArgs (data : value) (stack : list compCall) (l : list expr)
  : result (list value) :=
  match l with
  | [] => Ok []
  | x :: rest =>
      match evalExpr data stack x with
      | Ok v => match evalArgs data stack rest with
                | Ok vs => Ok (v :: vs)
                | Err m => Err m
                end
      | Err m => Err m
      end
  end.

(** Evaluation of a template body: the text written so far is kept when
    an action fails, as the evaluator writes while it goes. *)
Fixpoint execActions (callComp : string -> list value -> state -> outcome)
  (acts : body) (data : value) (st : state) : outcome :=
  match acts with
  | [] => Some (EmptyString, None, st)
  | a :: rest =>
      let continue (text : string) (st' : state) : outcome :=
        match execActions callComp rest data st' with
        | Some (out, err, st'') => Some (text +:+ out, err, st'')
        | None => None
        end in
      match a with
      | AText s => continue s st
      | APrint e =>
          match evalExpr data (compStack st) e with
          | Ok v => continue (render v) st
          | Err m => Some (EmptyString, Some m, st)
          end
      | ARegister name =>
          let '(text, st') := register_template name st in continue text st'
      | AComp templateName args =>
          match evalArgs data (compStack st) args with
          | Ok argv =>
              match callComp templateName argv st with
              | Some (html, None, st') => continue html st'
              | Some (_, Some err, st') => Some (EmptyString, Some err, st')
              | None => None
              end
          | Err m => Some (EmptyString, Some m, st)
          end
      | AError msg => Some (EmptyString, Some msg, st)
      end
  end.

(** [ts.masterTmpl.ExecuteTemplate(&buf, name, data)].  [fuel] bounds the
    depth of nested [comp] calls; a component that invokes itself without
    end has no outcome. *)
Fixpoint ExecuteTemplate (fuel : nat) (name : string) (data : value) (st : state)
  : outcome :=
  match fuel with
  | O => None
  | S f =>
      match masterTmpl (ts st) !! name with
      | None =>
          Some (EmptyString,
                Some ("html/template: " +:+ dq +:+ name +:+ dq +:+ " is undefined"), st)
      | Some b => execActions (comp (ExecuteTemplate f)) b data st
      end
  end.

(** *** [ParseDirs] *)

(** The functions a template may call are checked when it is parsed.  A
    template parsed without the internal functions may not call any of
    them; the layout may call all of them but [_register_template]. *)
Definition exprPlain (e : expr) : bool :=
  match e with
  | EConst _ | EField _ => true
  | EParam _ | EParamOr _ _ | EDict _ => false
  end.

Definition actionPlain (a : action) : bool :=
  match a with
  | AText _ | AError _ => true
  | APrint e => exprPlain e
  | AComp _ _ | ARegister _ => false
  end.

Definition isRegister (a : action) : bool :=
  match a with ARegister _ => true | _ => false end.

Definition undefinedFunction : string := "template: function not defined".

(** Parsing with the default and custom functions only. *)
Definition ParsePlain (text : string) : result body :=
  match Parse text with
  | Ok b => if forallb actionPlain b then Ok b else Err undefinedFunction
  | Err m => Err m
  end.

(** Parsing with the functions of the layout. *)
Definition ParseLayout (text : string) : result body :=
  match Parse text with
  | Ok b => if existsb isRegister b then Err undefinedFunction else Ok b
  | Err m => Err m
  end.

(** The regular files of each directory, by name, in the order in which
    [os.ReadDir] lists them. *)
Abbreviation listing := (gmap string (list string)).

Definition isTemplateFile (fileName : string) : bool :=
  String.eqb (Filepath.Ext fileName) ".html" || String.eqb (Filepath.Ext fileName) ".tmpl".

(** The first pass over the files of one directory: the error if any, the
    template set, and whether the layout was seen.  [filepath.Join] is
    the concatenation with a slash, for directory names already clean. *)
Fixpoint parseFiles (fs : files) (dir : string) (fileNames : list string)
  (t : TemplateSet) (layoutFound : bool) : error * TemplateSet * bool :=
  match fileNames with
  | [] => (None, t, layoutFound)
  | fileName :: rest =>
      if isTemplateFile fileName then
        let name := TrimSuffix fileName (Filepath.Ext fileName) in
        let layoutFound := if String.eqb name (layoutName t) then true else layoutFound in
        match parseFile fs t (dir +:+ "/" +:+ fileName) with
        | (Some err, t') =>
            (Some ("error parsing file " +:+ fileName +:+ ": " +:+ err), t', layoutFound)
        | (None, t') => parseFiles fs dir rest t' layoutFound
        end
      else parseFiles fs dir rest t layoutFound
  end.

Fixpoint parseDirsPass1 (ls : listing) (fs : files) (dirs : list string)
  (t : TemplateSet) (layoutFound : bool) : error * TemplateSet * bool :=
  match dirs with
  | [] => (None, t, layoutFound)
  | dir :: rest =>
      match ls !! dir with
      | None => (Some ("error reading directory " +:+ dir), t, layoutFound)
      | Some fileNames =>
          match parseFiles fs dir fileNames t layoutFound with
          | (Some err, t', found) => (Some err, t', found)
          | (None, t', found) => parseDirsPass1 ls fs rest t' found
          end
      end
  end.

Definition set_masterTmpl (t : TemplateSet) (m : gmap string body) : TemplateSet :=
  {| templates := templates t; layout := layout t; layoutName := layoutName t;
     masterTmpl := m; templateHTML := templateHTML t;
     usedTemplates := usedTemplates t; isolatedCache := isolatedCache t |}.

Definition set_templates (t : TemplateSet) (m : gmap string Template) : TemplateSet :=
  {| templates := m; layout := layout t; layoutName := layoutName t;
     masterTmpl := masterTmpl t; templateHTML := templateHTML t;
     usedTemplates := usedTemplates t; isolatedCache := isolatedCache t |}.

Definition set_tmpl (c : Template) (b : option body) : Template :=
  {| Name := Name c; HTML := HTML c; CSS := CSS c; JS := JS c; tmpl := b;
     scopeClass := scopeClass c |}.

(** The second pass: every stored markup is parsed under its template
    name, with a call that registers the component in front of it. *)
Fixpoint parseDirsPass2 (entries : list (string * string)) (t : TemplateSet)
  : error * TemplateSet :=
  match entries with
  | [] => (None, t)
  | (name, html) :: rest =>
      let templateName :=
        if negb (HasSuffix name ".html") then name +:+ ".html" else name in
      let registeredHTML :=
        "{{_register_template " +:+ dq +:+ name +:+ dq +:+ "}}" +:+ html in
      match Parse registeredHTML with
      | Err e => (Some ("error parsing template " +:+ name +:+ ": " +:+ e), t)
      | Ok b =>
          let t := set_masterTmpl t (<[templateName := b]> (masterTmpl t)) in
          let t := set_templates t
                     (alter (fun c => set_tmpl c (masterTmpl t !! templateName))
                            name (templates t)) in
          parseDirsPass2 rest t
      end
  end.

(** [ParseDirs]: on success the closures it installs share a new, empty
    call stack; when it returns early the closures of [st] stay. *)
Definition ParseDirs (ls : listing) (fs : files) (dirs : list string) (st : state)
  : option (error * state) :=
  match parseDirsPass1 ls fs dirs (ts st) false with
  | (Some err, t, _) => Some (Some err, {| ts := t; compStack := compStack st |})
  | (None, t, false) =>
      Some (Some ("layout template '" +:+ layoutName t +:+
                  "' not found in any of the provided directories"),
            {| ts := t; compStack := compStack st |})
  | (None, t, true) =>
      match parseDirsPass2 (map_to_list (templateHTML t)) t with
      | (Some err, t) => Some (Some err, {| ts := t; compStack := [] |})
      | (None, t) =>
          match layout t with
          | None => None
          | Some lay =>
              match ParseLayout (layoutHTML lay) with
              | Err e => Some (Some e, {| ts := t; compStack := [] |})
              | Ok b =>
                  Some (None,
                        {| ts := set_layout t (Some {| layoutHTML := layoutHTML lay;
                                                       layoutTmpl := Some b |});
                           compStack := [] |})
              end
          end
      end
  end.

(** *** [Execute] *)

(** [{{ [^}]* comp \s+ Q? ([^Q\s}]+ ) Q?], where [Q] is the double quote *)
Definition compRegex : regex :=
  Cat [Lit "{{"; Star (Class (noneOf [one "}"])); Lit "comp"; Plus (Class space);
       Opt (Class (Ascii.eqb (ascii_of_nat 34)));
       Group 1 (Plus (Class (noneOf [Ascii.eqb (ascii_of_nat 34); space; one "}"])));
       Opt (Class (Ascii.eqb (ascii_of_nat 34)))].

(** The components that the layout text mentions are marked as used. *)
Definition markLayoutComps (layoutContent : string) (st : state) : state :=
  fold_left (fun st m =>
               match m with
               | _ :: compName :: _ => markUsed (TrimSuffix compName ".html") st
               | _ => st
               end)
            (FindAllStringSubmatch compRegex layoutContent) st.

(** The styles and scripts of the used components.  Go visits the keys of
    a map in no particular order; the model visits them in the order of
    [map_to_list]. *)
Definition aggregate (t : TemplateSet) : string * string :=
  fold_left (fun acc entry =>
               let '(allCSS, allJS) := acc in
               match templates t !! fst entry with
               | Some c =>
                   (if negb (String.eqb (CSS c) EmptyString) then allCSS +:+ CSS c +:+ nl
                    else allCSS,
                    if negb (String.eqb (JS c) EmptyString) then allJS +:+ JS c +:+ nl
                    else allJS)
               | None => acc
               end)
            (map_to_list (usedTemplates t)) (EmptyString, EmptyString).

(** [Execute]: [w] is what the writer holds; the result is the error, the
    writer and the state afterwards. *)
Definition Execute (fuel : nat) (w : string) (name : string) (data : value) (st : state)
  : option (error * string * state) :=
  match templates (ts st) !! name with
  | None => Some (Some ("template " +:+ name +:+ " not found"), w, st)
  | Some _ =>
      match layout (ts st) with
      | None => Some (Some "layout template not defined", w, st)
      | Some lay =>
          let st := resetUsed st in
          let st := markLayoutComps (layoutHTML lay) st in
          match ExecuteTemplate fuel (name +:+ ".html") data st with
          | None => None
          | Some (_, Some err, st) => Some (Some err, w, st)
          | Some (contentBuf, None, st) =>
              let '(allCSS, allJS) := aggregate (ts st) in
              let layoutData :=
                VMap [("Yield", VStr contentBuf); ("CSS", VStr allCSS);
                      ("JS", VStr allJS); ("Data", data)] in
              match layoutTmpl lay with
              | None => None
              | Some b =>
                  match execActions (comp (ExecuteTemplate fuel)) b layoutData st with
                  | None => None
                  | Some (out, err, st) => Some (err, w +:+ out, st)
                  end
              end
          end
      end
  end.

(** *** [ExecuteIsolated] *)

(** The template text that [ExecuteIsolated] parses for a file with text
    [content]. *)
Definition isolatedSource (content : string) : string :=
  match FindStringSubmatch htmlRegex content with
  | _ :: m1 :: _ => m1
  | _ => content
  end.

Definition ExecuteIsolated (fs : files) (w : string) (filename : string) (data : value)
  (st : state) : option (error * string * state) :=
  let run (b : body) (st : state) : option (error * string * state) :=
    match execActions (fun _ _ st => Some (EmptyString, Some undefinedFunction, st))
                      b data st with
    | None => None
    | Some (out, err, st) => Some (err, w +:+ out, st)
    end in
  match isolatedCache (ts st) !! filename with
  | Some cachedTmpl => run cachedTmpl st
  | None =>
      match fs !! filename with
      | None =>
          Some (Some ("error reading template file: open " +:+ filename +:+
                      ": no such file or directory"), w, st)
      | Some content =>
          let htmlContent := isolatedSource content in
          match ParsePlain htmlContent with
          | Err e => Some (Some ("error parsing isolated template: " +:+ e), w, st)
          | Ok parsedTmpl =>
              let st := {| ts := set_isolatedCache (ts st)
                                   (<[filename := parsedTmpl]> (isolatedCache (ts st)));
                           compStack := compStack st |} in
              run parsedTmpl st
          end
      end
  end.

End Evaluator.

(** *** Renders that run at the same time

    Every access of a render to the call stack or to the used set is one
    critical section of the program, run with [compMu] or [ts.mu] held.
    A schedule lists critical sections in the order in which they run,
    each with the number of the render that runs it. *)

Inductive access : Type :=
| Reset                                  (* Execute: a new, empty used set *)
| Mark (name : string)                   (* usedTemplates[name] = true *)
| Push (call : compCall)                 (* comp: append to the stack *)
| Pop                                    (* comp: the deferred function *)
| ReadParam (index : Z)                  (* param *)
| ReadParamOr (index : Z) (d : value)    (* paramOr *)
| Collect.                               (* Execute: the loop over the used set *)

Inductive observation : Type :=
| Silent
| Saw (v : value)
| SawUsed (used : gmap string bool).

Definition access_step (a : access) (st : state) : state * observation :=
  match a with
  | Reset => (resetUsed st, Silent)
  | Mark name => (markUsed name st, Silent)
  | Push call => (push call st, Silent)
  | Pop => (pop st, Silent)
  | ReadParam index => (st, Saw (param (compStack st) index))
  | ReadParamOr index d => (st, Saw (paramOr (compStack st) index d))
  | Collect => (st, SawUsed (usedTemplates (ts st)))
  end.

Definition schedule : Type := list (nat * access).

(** What each critical section of the schedule observes, in order, and the
    state at the end. *)
Fixpoint runSchedule (sched : schedule) (st : state) : list (nat * observation) * state :=
  match sched with
  | [] => ([], st)
  | (r, a) :: rest =>
      let '(st', o) := access_step a st in
      let '(obs, st'') := runSchedule rest st' in
      ((r, o) :: obs, st'')
  end.

Definition ofRender {A : Type} (r : nat) (l : list (nat * A)) : list A :=
  List.map snd (List.filter (fun p => Nat.eqb (fst p) r) l).

(** What render [r] observes under the schedule. *)
Definition observations (r : nat) (sched : schedule) (st : state) : list observation :=
  ofRender r (fst (runSchedule sched st)).

(** The critical sections of render [r] alone, in their order. *)
Definition alone (r : nat) (sched : schedule) : schedule :=
  List.filter (fun p => Nat.eqb (fst p) r) sched.

(** Render-local stack and used set: every render observes what it would
    observe if it ran alone. *)
Definition isolated (sched : schedule) (st : state) : Prop :=
  forall r, observations r sched st = observations r (alone r sched) st.

(** The frames that a sequence of accesses has pushed and not yet popped,
    [None] if it pops more than it pushed. *)
Fixpoint outstanding (l : list access) (own : list compCall) : option (list compCall) :=
  match l with
  | [] => Some own
  | Push call :: rest => outstanding rest (own ++ [call])
  | Pop :: rest =>
      match own with
      | [] => None
      | _ => outstanding rest (firstn (length own - 1) own)
      end
  | _ :: rest => outstanding rest own
  end.

(** A render that has returned: every frame it pushed has been popped. *)
Definition balanced (l : list access) : Prop := outstanding l [] = Some [].

Definition by_render (r : nat) (l : list access) : schedule := map (fun a => (r, a)) l.

(** A substring relation that does not mention the search functions. *)
Definition occurs (sub s : string) : Prop :=
  exists pre post, s = pre +:+ sub +:+ post.

(** A rewritten selector is attached to its declaration block when the
    opening brace follows it at once. *)
Definition attachedToBlock (selector out : string) : Prop :=
  Contains out (selector +:+ "{") = true.

(** Two states that differ at most in the used set. *)
Definition onlyUsedChanged (st st' : state) : Prop :=
  compStack st' = compStack st /\ exists u, ts st' = set_usedTemplates (ts st) u.

(** An evaluator that leaves the stack as it found it. *)
Definition preserving (E : string -> value -> state -> outcome) : Prop :=
  forall name data st out err st',
    E name data st = Some (out, err, st') -> onlyUsedChanged st st'.

(** The name under which [comp] looks its callee up. *)
Definition tmplKey (templateName : string) : string :=
  let name := TrimSuffix templateName ".html" in
  if negb (HasSuffix name ".html") then name +:+ ".html" else name.

(** The names that the body passes to [comp]. *)
Fixpoint callees (b : body) : list string :=
  match b with
  | [] => []
  | AComp templateName _ :: rest => templateName :: callees rest
  | _ :: rest => callees rest
  end.

(** A set of templates without a cycle of [comp] calls: [rank] decreases
    along every call. *)
Definition acyclic (M : gmap string body) (rank : string -> nat) : Prop :=
  forall key b, M !! key = Some b ->
                forall n, In n (callees b) -> (rank (tmplKey n) < rank key)%nat.

(** A concrete set of templates: [page] invokes [item] twice, [broken]
    invokes a component whose evaluation fails. *)
Definition show_value (v : value) : string :=
  match v with
  | VStr s => s
  | VInt _ => "int"
  | VMap _ => "map"
  | VNil => EmptyString
  end.

Definition demo_templates : gmap string body :=
  <["page.html" := [ARegister "page"; AText "["; AComp "item" [EConst (VStr "x")];
                    AComp "item.html" [EConst (VStr "y")]; AText "]"]]>
  (<["item.html" := [ARegister "item"; AText "<"; APrint (EParam 0); AText ">"]]>
  (<["broken.html" := [ARegister "broken"; AComp "bad" []]]>
  (<["bad.html" := [ARegister "bad"; AText "partial"; AError "boom"]]> ∅))).

Definition demo_state : state :=
  {| ts := set_masterTmpl (NewTemplateSet "layout") demo_templates;
     compStack := [mkCompCall [VStr "outer"] "caller"] |}.

(** What a pattern can do to a position of the matcher (rest of the
    subject, offset, captures), read off the pattern alone. *)
Definition position : Type := string * nat * caps.

Fixpoint sem (r : regex) (x y : position) : Prop :=
  match r with
  | Eps => y = x
  | Chr a => exists s', x.1.1 = String a s' /\ y = (s', S x.1.2, x.2)
  | Class p => exists a s', p a = true /\ x.1.1 = String a s' /\ y = (s', S x.1.2, x.2)
  | Seq r1 r2 => exists m, sem r1 x m /\ sem r2 m y
  | Star r1 | LazyStar r1 => rtc (sem r1) x y
  | Opt r1 => sem r1 x y \/ y = x
  | Group n r1 => exists m, sem r1 x m /\ y = (m.1.1, m.1.2, (n, (x.1.2, m.1.2)) :: m.2)
  | Bol => x.1.2 = O /\ y = x
  | Eol => x.1.1 = EmptyString /\ y = x
  end.

(** *** Notions used to state further properties *)

(** A lower-case hexadecimal digit. *)
Definition lowerHex (a : ascii) : bool := between "0" "9" a || between "a" "f" a.

(** What one byte adds to the brace depth. *)
Definition braceStep (char : ascii) : Z :=
  if Ascii.eqb char "{" then 1 else if Ascii.eqb char "}" then -1 else 0.

(** The brace depth after the bytes of [s]: opening minus closing braces. *)
Fixpoint braceDepth (s : string) : Z :=
  match s with
  | EmptyString => 0
  | String char s' => braceStep char + braceDepth s'
  end.

(** Offset [n] of [s] holds a [>] outside braces, for a depth [d] at the
    start of [s]. *)
Definition tagEndAt (s : string) (d : Z) (n : nat) : Prop :=
  String.get n s = Some ">"%char /\ d + braceDepth (take n s) = 0.

(** The used set of [st'] holds every name that is marked in [st]. *)
Definition marksKept (st st' : state) : Prop :=
  forall name, usedTemplates (ts st) !! name = Some true ->
               usedTemplates (ts st') !! name = Some true.

(** The two maps of the registry agree: the same names, and under each
    name the component of that name with its markup. *)
Definition consistent (t : TemplateSet) : Prop :=
  forall name,
    (templates t !! name = None <-> templateHTML t !! name = None) /\
    (forall c, templates t !! name = Some c ->
               Name c = name /\ templateHTML t !! name = Some (HTML c)).

(** One step of the loop of [comp] over the arguments. *)
Definition positional (dataMap : list (string * value)) (ia : nat * value)
  : list (string * value) := mapSet dataMap (decimal (fst ia)) (snd ia).

(** The argument list of [dict] for a list of key-value pairs. *)
Definition dictArgs (pairs : list (string * value)) : list value :=
  flat_map (fun p => [VStr (fst p); snd p]) pairs.

(** The state with [parsed] cached under [filename]. *)
Definition withCached (st : state) (filename : string) (parsed : body) : state :=
  {| ts := set_isolatedCache (ts st) (<[filename := parsed]> (isolatedCache (ts st)));
     compStack := compStack st |}.

(** A stand-in for the parser: the whole text as one literal. *)
Definition literalParse (text : string) : result body := Ok [AText text].

(** The name under which [ParseDirs] compiles the markup of a component. *)
Definition templateNameOf (name : string) : string :=
  if negb (HasSuffix name ".html") then name +:+ ".html" else name.

(** No template file of the listed directories is the layout. *)
Definition noLayoutFile (ls : gmap string (list string)) (dirs : list string)
  (layoutName : string) : Prop :=
  forall dir fileNames fileName,
    In dir dirs -> ls !! dir = Some fileNames -> In fileName fileNames ->
    isTemplateFile fileName = true ->
    TrimSuffix fileName (Filepath.Ext fileName) <> layoutName.

(** *** [defaultFuncs]

    The arithmetic functions work on Go's [int]: [intSize] bits (32 or
    64, by platform) in two's complement.  Sums, differences and products
    wrap around; [%] truncates toward zero and panics on a zero divisor,
    which the template engine reports as an error of the execution. *)

Definition wrapInt (intSize x : Z) : Z :=
  (x + 2 ^ (intSize - 1)) mod 2 ^ intSize - 2 ^ (intSize - 1).

Definition isInt (intSize x : Z) : Prop :=
  - 2 ^ (intSize - 1) <= x < 2 ^ (intSize - 1).

Definition fn_add (intSize a b : Z) : Z := wrapInt intSize (a + b).
Definition fn_sub (intSize a b : Z) : Z := wrapInt intSize (a - b).
Definition fn_mul (intSize a b : Z) : Z := wrapInt intSize (a * b).
Definition fn_mod (intSize a b : Z) : option Z :=
  if b =? 0 then None else Some (wrapInt intSize (Z.rem a b)).

(** ** The model on known values *)

Section KnownValues.

(** The test suite of RFC 1321. *)
Example md5_empty : MD5.hex (MD5.Sum "") = "d41d8cd98f00b204e9800998ecf8427e".
Proof. vm_compute. reflexivity. Qed.

Example md5_abc : MD5.hex (MD5.Sum "abc") = "900150983cd24fb0d6963f7d28e17f72".
Proof. vm_compute. reflexivity. Qed.

Example md5_digits :
  MD5.hex (MD5.Sum ("1234567890123456789012345678901234567890" +:+
                    "1234567890123456789012345678901234567890"))
  = "57edf4a22be3c955ac49da2e2107b67a".
Proof. vm_compute. reflexivity. Qed.

Example scope_class_of_button : generateScopeClass "button" = "s-ce50a0".
Proof. vm_compute. reflexivity. Qed.

Example template_block :
  FindStringSubmatch htmlRegex
    "<template unwrap><p>Hi</p></template><style>p{}</style>"
  = ["<template unwrap><p>Hi</p></template>"; " unwrap"; "<p>Hi</p>"].
Proof. vm_compute. reflexivity. Qed.

Example no_template_block : FindStringSubmatch htmlRegex "<p>Hi</p>" = [].
Proof. vm_compute. reflexivity. Qed.

Example first_tag :
  FindStringSubmatch firstTagRegex "<div class='card big' id=x><span/></div>"
  = ["<div class='card big' id=x>"; "div"; " class='card big' id=x"].
Proof. vm_compute. reflexivity. Qed.

Example root_classes :
  rootClasses (analyzeRoot "<div class='card big' id=x><span/></div>") = ["card"; "big"].
Proof. vm_compute. reflexivity. Qed.

Example trim_space :
  TrimSpace (nl +:+ tab +:+ "  <b>x</b> " +:+ Strings.bytes [194; 160] +:+ nl) = "<b>x</b>".
Proof. vm_compute. reflexivity. Qed.

Example split_blocks : Split "a{b}c{d}" "}" = ["a{b"; "c{d"; ""].
Proof. vm_compute. reflexivity. Qed.

Example base_name : baseName "components/card.html" = "card".
Proof. vm_compute. reflexivity. Qed.

(** A [>] inside an expression does not end the tag. *)
Example tag_end_outside_braces :
  injectScopeClass "<a href='{{ .A > .B }}'>t</a>" "s-0"
  = "<a href='{{ .A > .B }}' class=" +:+ dq +:+ "s-0" +:+ dq +:+ ">t</a>".
Proof. vm_compute. reflexivity. Qed.

Example layout_comps :
  FindAllStringSubmatch compRegex "{{ comp nav.html .Data }} x {{comp footer}}"
  = [["{{ comp nav.html"; "nav.html"]; ["{{comp footer"; "footer"]].
Proof. vm_compute. reflexivity. Qed.

Example nested_render :
  match comp (ExecuteTemplate show_value 3) "page" [] demo_state with
  | Some (out, err, st') => (out, err, compStack st') = ("[<x><y>]", None, compStack demo_state)
  | None => False
  end.
Proof. vm_compute. reflexivity. Qed.

End KnownValues.

(** ** Properties of the selector-scoping engine *)

Section ScopingFacts.

Lemma eqb_dot_name (name tag : string) :
  HasPrefix tag "." = false -> String.eqb ("." +:+ name) tag = false.
Proof.
  intros Htag. destruct tag as [|a tag']; [reflexivity|].
  change (String.eqb ("." +:+ name) (String a tag'))
    with (if Ascii.eqb "." a then String.eqb name tag' else false).
  cbn [HasPrefix] in Htag. rewrite Ascii.eqb_sym.
  destruct (Ascii.eqb a "."); [|reflexivity].
  destruct tag'; discriminate Htag.
Qed.

Lemma existsb_eqb_In (name : string) (l : list string) :
  existsb (fun rootClass => String.eqb rootClass name) l = true <-> In name l.
Proof.
  rewrite existsb_exists. split.
  - intros [x [Hin Heq]]. apply String.eqb_eq in Heq. subst. exact Hin.
  - intros Hin. exists name. split; [exact Hin | apply String.eqb_refl].
Qed.

Lemma scopedCSS_unfold (css scopeClass tag : string) (classes : list string) (ty : Z) :
  scopedCSS css scopeClass tag classes ty =
  scopeBlocks (scopeSelector scopeClass tag classes ty) (Split css "}").
Proof. reflexivity. Qed.

End ScopingFacts.

(** C1, as the program has it: under root kind Single a selector equal to
    the root tag name becomes [tag.scopeClass] and every class selector
    [.name] becomes [.scopeClass.name], with no space; every selector of
    every rule block of a style text is rewritten by that function.  For
    the style text of the example the two rewritten selectors are
    [button.s-abc123] and [.s-abc123.primary], each followed by one space
    and the opening brace of its declaration block. *)
Theorem C1_single_root_selectors :
  forall (scopeClass rootTag : string) (rootClasses : list string),
    HasPrefix rootTag "." = false ->
    scopeSelector scopeClass rootTag rootClasses ElementTypeSingle rootTag
      = rootTag +:+ "." +:+ scopeClass /\
    (forall name,
        scopeSelector scopeClass rootTag rootClasses ElementTypeSingle ("." +:+ name)
        = "." +:+ scopeClass +:+ "." +:+ name) /\
    (forall css,
        scopedCSS css scopeClass rootTag rootClasses ElementTypeSingle
        = scopeBlocks (scopeSelector scopeClass rootTag rootClasses ElementTypeSingle)
                      (Split css "}")) /\
    scopedCSS "button{color:red}.primary{color:blue}" "s-abc123" "button" []
              ElementTypeSingle
      = "button.s-abc123 {color:red}" +:+ nl +:+ ".s-abc123.primary {color:blue}" +:+ nl.
Proof.
  intros scopeClass rootTag rootClasses Htag. repeat split.
  - unfold scopeSelector. rewrite String.eqb_refl. reflexivity.
  - intros name. unfold scopeSelector.
    rewrite (eqb_dot_name name rootTag Htag). reflexivity.
Qed.

Lemma C1_single_root_selectors_witness :
  HasPrefix "button" "." = false /\
  scopeSelector "s-abc123" "button" [] ElementTypeSingle ".primary" = ".s-abc123.primary".
Proof.
  split; [reflexivity|].
  exact (proj1 (proj2 (C1_single_root_selectors "s-abc123" "button" [] eq_refl)) "primary").
Defined.

(** C1 as stated fails: in the output for the style text of the example
    neither rewritten selector is followed at once by the opening brace. *)
Lemma C1_space_before_brace :
  let out := scopedCSS "button{color:red}.primary{color:blue}" "s-abc123" "button" []
                       ElementTypeSingle in
  ~ (attachedToBlock "button.s-abc123" out /\ attachedToBlock ".s-abc123.primary" out).
Proof.
  intros out [H _]. unfold attachedToBlock in H. subst out.
  vm_compute in H. discriminate H.
Qed.

(** ** Properties of the structure analysis and of the markup mutation *)

Section StructureFacts.

(** The analysis has three possible verdicts. *)
Lemma analyzeRoot_cases (safeContent : string) :
  let r := analyzeRoot safeContent in
  (hasRootElement r = true /\ isSingleElement r = true /\ isRootContainer r = false) \/
  (hasRootElement r = true /\ isSingleElement r = false /\ isRootContainer r = true) \/
  (hasRootElement r = false /\ isSingleElement r = false /\ isRootContainer r = false).
Proof.
  unfold analyzeRoot.
  destruct (FindStringSubmatch firstTagRegex safeContent) as [|m0 [|tagName [|attrs rest]]];
    try (right; right; repeat split; reflexivity).
  destruct (MatchString (closeTagRegexFor tagName) safeContent);
    try (right; right; repeat split; reflexivity).
  destruct (negb _);
    [left; repeat split; reflexivity | right; left; repeat split; reflexivity].
Qed.

Lemma rootKind_Normal_iff (templateContent : string) :
  rootKind templateContent = ElementTypeNormal <->
  hasRootElement (analyzeRoot (maskDelimiters (TrimSpace templateContent))) = false.
Proof.
  unfold rootKind.
  destruct (analyzeRoot_cases (maskDelimiters (TrimSpace templateContent)))
    as [(H1 & H2 & H3) | [(H1 & H2 & H3) | (H1 & H2 & H3)]];
    rewrite H1, H2, H3; cbn; split; intros H; try reflexivity; discriminate H.
Qed.

End StructureFacts.

(** C3, as the program has it: the three bodies of the example have root
    kinds Single, Container and Normal; and a component whose markup has
    root kind Normal, whose template block has no unwrap attribute and
    whose style block is not empty gets its markup wrapped in a [div]
    that carries the scope class, and every selector of its style text
    rewritten as a descendant of the scope class. *)
Theorem C3_root_kinds_and_wrapper :
  rootKind "<b>{{x}}</b>" = ElementTypeSingle /\
  rootKind "<div><span/></div>" = ElementTypeContainer /\
  rootKind "<b/>Other<i/>" = ElementTypeNormal /\
  (forall content scopeClass templateAttrs templateContent,
      rootKind templateContent = ElementTypeNormal ->
      MatchString unwrapRegex templateAttrs = false ->
      styleOf content <> EmptyString ->
      compileMarkup content scopeClass templateAttrs templateContent
      = ("<div class=" +:+ dq +:+ scopeClass +:+ dq +:+ ">"
           +:+ TrimSpace templateContent +:+ "</div>",
         scopeBlocks (fun selector => "." +:+ scopeClass +:+ " " +:+ selector)
                     (Split (styleOf content) "}"))) /\
  (let t := compileComponent "card"
              "<template><b/>Other<i/></template><style>b{color:red}</style>" in
   HTML t = "<div class=" +:+ dq +:+ scopeClass t +:+ dq +:+ "><b/>Other<i/></div>" /\
   CSS t = "." +:+ scopeClass t +:+ " b {color:red}" +:+ nl).
Proof.
  split; [vm_compute; reflexivity|].
  split; [vm_compute; reflexivity|].
  split; [vm_compute; reflexivity|].
  split.
  - intros content scopeClass templateAttrs templateContent Hkind Hunwrap Hcss.
    apply rootKind_Normal_iff in Hkind.
    unfold compileMarkup. rewrite Hunwrap, Hkind.
    destruct (String.eqb (styleOf content) EmptyString) eqn:E.
    + apply String.eqb_eq in E. contradiction.
    + reflexivity.
  - split; vm_compute; reflexivity.
Qed.

Lemma C3_root_kinds_and_wrapper_witness :
  compileMarkup "<template>a<b>c</b></template><style>b{color:red}</style>" "s-0" ""
                "a<b>c</b>"
  = ("<div class=" +:+ dq +:+ "s-0" +:+ dq +:+ ">a<b>c</b></div>",
     ".s-0 b {color:red}" +:+ nl).
Proof.
  refine (eq_trans
            (proj1 (proj2 (proj2 (proj2 C3_root_kinds_and_wrapper)))
               "<template>a<b>c</b></template><style>b{color:red}</style>" "s-0" ""
               "a<b>c</b>" _ _ _) _).
  - vm_compute; reflexivity.
  - vm_compute; reflexivity.
  - vm_compute; discriminate.
  - vm_compute; reflexivity.
Defined.

(** C3 as stated fails: a markup of root kind Normal in a file without a
    style block and without the unwrap attribute is stored as it is, with
    no wrapper around it. *)
Lemma C3_no_style_no_wrapper :
  let content := "<template><b/>Other<i/></template>" in
  let t := compileComponent "card" content in
  ~ (rootKind "<b/>Other<i/>" = ElementTypeNormal ->
     MatchString unwrapRegex "" = false ->
     HTML t = "<div class=" +:+ dq +:+ scopeClass t +:+ dq +:+ "><b/>Other<i/></div>").
Proof.
  intros content t H.
  assert (Hk : rootKind "<b/>Other<i/>" = ElementTypeNormal) by (vm_compute; reflexivity).
  assert (Hu : MatchString unwrapRegex "" = false) by (vm_compute; reflexivity).
  specialize (H Hk Hu). vm_compute in H. discriminate H.
Qed.

(** C4, evaluated where the program departs from it: the root [div] has
    no class attribute and its child has one; the scope class goes into
    the class attribute of the child, and the root element gets none. *)
Lemma C4_scope_class_on_child :
  let content :=
    "<template><div><span class='x'>t</span></div></template><style>.x{color:red}</style>" in
  let t := compileComponent "card" content in
  rootKind "<div><span class='x'>t</span></div>" = ElementTypeContainer /\
  styleOf content = ".x{color:red}" /\
  scopeClass t = "s-5dd219" /\
  HTML t = "<div><span class='s-5dd219 x'>t</span></div>" /\
  CSS t = ".s-5dd219 .x {color:red}" +:+ nl.
Proof.
  repeat split; vm_compute; reflexivity.
Qed.

(** ** Properties of the parameter accessors *)

Section AccessorFacts.

Lemma param_top (stack : list compCall) (top : compCall) (i : Z) :
  param (stack ++ [top]) i =
  if (i <? 0) || (Z.of_nat (length (Args top)) <=? i) then VNil
  else argAt (Args top) i.
Proof.
  unfold param. rewrite last_snoc.
  destruct (Nat.eqb_spec (length (stack ++ [top])) 0) as [E|_]; [|reflexivity].
  rewrite length_app in E. simpl in E. lia.
Qed.

Lemma paramOr_top (stack : list compCall) (top : compCall) (i : Z) (d : value) :
  paramOr (stack ++ [top]) i d =
  if (i <? 0) || (Z.of_nat (length (Args top)) <=? i) then d
  else if isNil (argAt (Args top) i) then d
       else argAt (Args top) i.
Proof.
  unfold paramOr. rewrite last_snoc.
  destruct (Nat.eqb_spec (length (stack ++ [top])) 0) as [E|_]; [|reflexivity].
  rewrite length_app in E. simpl in E. lia.
Qed.

Lemma argAt_lookup (args : list value) (i : Z) (v : value) :
  args !! Z.to_nat i = Some v -> argAt args i = v.
Proof.
  intros H. unfold argAt. rewrite nth_lookup, H. reflexivity.
Qed.

Lemma in_range (args : list value) (i : Z) (v : value) :
  0 <= i -> args !! Z.to_nat i = Some v ->
  (i <? 0) || (Z.of_nat (length args) <=? i) = false.
Proof.
  intros Hi H. apply lookup_lt_Some in H.
  apply orb_false_iff. split; [apply Z.ltb_ge; lia | apply Z.leb_gt; lia].
Qed.

Lemma out_of_range (args : list value) (i : Z) :
  i < 0 \/ Z.of_nat (length args) <= i ->
  (i <? 0) || (Z.of_nat (length args) <=? i) = true.
Proof.
  intros [H|H]; apply orb_true_iff; [left; apply Z.ltb_lt | right; apply Z.leb_le]; lia.
Qed.

Lemma isNil_false (v : value) : v <> VNil -> isNil v = false.
Proof. destruct v; [contradiction| | |]; reflexivity. Qed.

End AccessorFacts.

(** C6: [param i] is the [i]-th argument of the top frame, and nil when
    the stack is empty or [i] is out of range; [paramOr i d] is [d] when
    the stack is empty, [i] is out of range or the argument is nil, and
    the argument otherwise; neither depends on the frames below the top. *)
Theorem C6_accessors_read_top_frame :
  forall (stack : list compCall) (top : compCall) (i : Z) (d : value),
    param [] i = VNil /\
    paramOr [] i d = d /\
    (forall v, 0 <= i -> Args top !! Z.to_nat i = Some v ->
               param (stack ++ [top]) i = v) /\
    (i < 0 \/ Z.of_nat (length (Args top)) <= i -> param (stack ++ [top]) i = VNil) /\
    (forall v, 0 <= i -> Args top !! Z.to_nat i = Some v -> v <> VNil ->
               paramOr (stack ++ [top]) i d = v) /\
    (i < 0 \/ Z.of_nat (length (Args top)) <= i -> paramOr (stack ++ [top]) i d = d) /\
    (0 <= i -> Args top !! Z.to_nat i = Some VNil -> paramOr (stack ++ [top]) i d = d) /\
    (forall below,
        param (below ++ [top]) i = param (stack ++ [top]) i /\
        paramOr (below ++ [top]) i d = paramOr (stack ++ [top]) i d).
Proof.
  intros stack top i d.
  split; [reflexivity|]. split; [reflexivity|].
  split.
  { intros v Hi Hv. rewrite param_top, (in_range _ _ _ Hi Hv).
    apply argAt_lookup, Hv. }
  split.
  { intros Hout. rewrite param_top, (out_of_range _ _ Hout). reflexivity. }
  split.
  { intros v Hi Hv Hnn. rewrite paramOr_top, (in_range _ _ _ Hi Hv).
    rewrite (argAt_lookup _ _ _ Hv), (isNil_false _ Hnn). reflexivity. }
  split.
  { intros Hout. rewrite paramOr_top, (out_of_range _ _ Hout). reflexivity. }
  split.
  { intros Hi Hv. rewrite paramOr_top, (in_range _ _ _ Hi Hv).
    rewrite (argAt_lookup _ _ _ Hv). reflexivity. }
  intros below. rewrite !param_top, !paramOr_top. split; reflexivity.
Qed.

Lemma C6_accessors_read_top_frame_witness :
  param ([mkCompCall [VStr "outer"] "a"] ++ [mkCompCall [VStr "x"; VNil] "b"]) 0 = VStr "x" /\
  paramOr ([mkCompCall [VStr "outer"] "a"] ++ [mkCompCall [VStr "x"; VNil] "b"]) 1 (VStr "d")
    = VStr "d".
Proof.
  split.
  - apply (proj1 (proj2 (proj2
             (C6_accessors_read_top_frame [mkCompCall [VStr "outer"] "a"]
                (mkCompCall [VStr "x"; VNil] "b") 0 VNil)))).
    + lia.
    + reflexivity.
  - apply (proj1 (proj2 (proj2 (proj2 (proj2 (proj2 (proj2
             (C6_accessors_read_top_frame [mkCompCall [VStr "outer"] "a"]
                (mkCompCall [VStr "x"; VNil] "b") 1 (VStr "d"))))))))).
    + lia.
    + reflexivity.
Defined.

(** ** Properties of the render *)

(** C10: when no template is stored under the name, or no layout has
    been compiled, [Execute] returns an error and leaves the writer and
    the state as they were; this holds with no fuel at all, so no
    template is evaluated. *)
Theorem C10_execute_preconditions :
  forall (render : value -> string) (fuel : nat) (w name : string) (data : value)
         (st : state),
    templates (ts st) !! name = None \/ layout (ts st) = None ->
    exists msg, Execute render fuel w name data st = Some (Some msg, w, st) /\
                Execute render 0 w name data st = Some (Some msg, w, st).
Proof.
  intros render fuel w name data st H. unfold Execute.
  destruct (templates (ts st) !! name) as [c|] eqn:Et.
  - destruct H as [H|H]; [discriminate H|]. rewrite H. eauto.
  - eauto.
Qed.

Lemma C10_execute_preconditions_witness :
  exists msg,
    Execute (fun _ => EmptyString) 5 "" "home" VNil
            {| ts := NewTemplateSet "layout"; compStack := [] |}
    = Some (Some msg, "", {| ts := NewTemplateSet "layout"; compStack := [] |}) /\
    Execute (fun _ => EmptyString) 0 "" "home" VNil
            {| ts := NewTemplateSet "layout"; compStack := [] |}
    = Some (Some msg, "", {| ts := NewTemplateSet "layout"; compStack := [] |}).
Proof.
  apply C10_execute_preconditions. left. reflexivity.
Defined.

(** ** The call stack across nested invocations *)

Section StackFacts.

Variable render : value -> string.

Lemma onlyUsedChanged_refl (st : state) : onlyUsedChanged st st.
Proof.
  split; [reflexivity|]. exists (usedTemplates (ts st)).
  destruct st as [t stack]. destruct t. reflexivity.
Qed.

Lemma onlyUsedChanged_trans (a b c : state) :
  onlyUsedChanged a b -> onlyUsedChanged b c -> onlyUsedChanged a c.
Proof.
  intros [Hs1 [u1 Ht1]] [Hs2 [u2 Ht2]]. split; [congruence|].
  exists u2. rewrite Ht2, Ht1. reflexivity.
Qed.

Lemma onlyUsedChanged_markUsed (name : string) (st : state) :
  onlyUsedChanged st (markUsed name st).
Proof. split; [reflexivity|]. eexists. reflexivity. Qed.

Lemma firstn_snoc {A : Type} (l : list A) (x : A) :
  firstn (length (l ++ [x]) - 1) (l ++ [x]) = l.
Proof.
  rewrite length_app. simpl. replace (length l + 1 - 1)%nat with (length l) by lia.
  rewrite firstn_app, Nat.sub_diag, firstn_all. simpl. apply app_nil_r.
Qed.

(** Popping after a push, with an evaluation in between that leaves the
    stack as it found it, gives the stack back. *)
Lemma pop_after_push (call : compCall) (st st' : state) :
  onlyUsedChanged (push call st) st' -> onlyUsedChanged st (pop st').
Proof.
  intros [Hs [u Ht]]. unfold pop, onlyUsedChanged, push in *.
  cbn [compStack ts] in *. rewrite Hs. split.
  - destruct (Nat.ltb_spec 0 (length (compStack st ++ [call]))) as [_|Hl].
    + apply firstn_snoc.
    + rewrite length_app in Hl. simpl in Hl. lia.
  - exists u. exact Ht.
Qed.

Lemma comp_preserves (E : string -> value -> state -> outcome) :
  preserving E ->
  forall templateName args st out err st',
    comp E templateName args st = Some (out, err, st') -> onlyUsedChanged st st'.
Proof.
  intros HE templateName args st out err st' H. unfold comp in H.
  match type of H with
  | match ?e with _ => _ end = _ => destruct e as [[[buf [e1|]] s1]|] eqn:Ev
  end; try discriminate H.
  - injection H as <- <- <-. apply HE in Ev. apply pop_after_push in Ev.
    eapply onlyUsedChanged_trans; [apply onlyUsedChanged_markUsed | exact Ev].
  - injection H as <- <- <-. apply HE in Ev. apply pop_after_push in Ev.
    eapply onlyUsedChanged_trans; [apply onlyUsedChanged_markUsed | exact Ev].
Qed.

Lemma execActions_preserves (callComp : string -> list value -> state -> outcome) :
  (forall n a st out err st',
      callComp n a st = Some (out, err, st') -> onlyUsedChanged st st') ->
  forall acts data st out err st',
    execActions render callComp acts data st = Some (out, err, st') ->
    onlyUsedChanged st st'.
Proof.
  intros Hc acts data. induction acts as [|a rest IH]; intros st out err st' H.
  - cbn in H. injection H as <- <- <-. apply onlyUsedChanged_refl.
  - cbn [execActions] in H. destruct a as [s|e|n args|n|msg].
    + destruct (execActions render callComp rest data st) as [[[o e] s2]|] eqn:Er;
        [|discriminate H].
      injection H as <- <- <-. eapply IH; exact Er.
    + destruct (evalExpr data (compStack st) e) as [v|m].
      * destruct (execActions render callComp rest data st) as [[[o e2] s2]|] eqn:Er;
          [|discriminate H].
        injection H as <- <- <-. eapply IH; exact Er.
      * injection H as <- <- <-. apply onlyUsedChanged_refl.
    + destruct (evalArgs data (compStack st) args) as [argv|m].
      * destruct (callComp n argv st) as [[[html [e1|]] s1]|] eqn:Ec; try discriminate H.
        -- injection H as <- <- <-. eapply Hc; exact Ec.
        -- destruct (execActions render callComp rest data s1) as [[[o e2] s2]|] eqn:Er;
             [|discriminate H].
           injection H as <- <- <-.
           eapply onlyUsedChanged_trans; [eapply Hc; exact Ec | eapply IH; exact Er].
      * injection H as <- <- <-. apply onlyUsedChanged_refl.
    + cbn [register_template] in H.
      destruct (execActions render callComp rest data (markUsed n st))
        as [[[o e2] s2]|] eqn:Er; [|discriminate H].
      injection H as <- <- <-.
      eapply onlyUsedChanged_trans; [apply onlyUsedChanged_markUsed | eapply IH; exact Er].
    + injection H as <- <- <-. apply onlyUsedChanged_refl.
Qed.

Lemma ExecuteTemplate_preserves (fuel : nat) : preserving (ExecuteTemplate render fuel).
Proof.
  induction fuel as [|f IH]; intros name data st out err st' H.
  - discriminate H.
  - cbn [ExecuteTemplate] in H.
    destruct (masterTmpl (ts st) !! name) as [b|].
    + eapply execActions_preserves; [|exact H].
      intros n a s o e s' Hc. eapply comp_preserves; [exact IH | exact Hc].
    + injection H as <- <- <-. apply onlyUsedChanged_refl.
Qed.

End StackFacts.

(** C5: whatever [comp] returns, the text of the callee or an error, the
    call stack afterwards is the call stack before the call; so after a
    second, sibling invocation the depth is still the depth before the
    first. *)
Theorem C5_comp_pops_its_frame :
  forall (render : value -> string) (fuel : nat) (name1 : string) (args1 : list value)
         (st : state) (out1 : string) (err1 : error) (st1 : state),
    comp (ExecuteTemplate render fuel) name1 args1 st = Some (out1, err1, st1) ->
    compStack st1 = compStack st /\
    (forall name2 args2 out2 err2 st2,
        comp (ExecuteTemplate render fuel) name2 args2 st1 = Some (out2, err2, st2) ->
        length (compStack st2) = length (compStack st)).
Proof.
  intros render fuel name1 args1 st out1 err1 st1 H1.
  pose proof (comp_preserves _ (ExecuteTemplate_preserves render fuel) _ _ _ _ _ _ H1)
    as [Hs1 _].
  split; [exact Hs1|].
  intros name2 args2 out2 err2 st2 H2.
  pose proof (comp_preserves _ (ExecuteTemplate_preserves render fuel) _ _ _ _ _ _ H2)
    as [Hs2 _].
  congruence.
Qed.

Section ReturnFacts.

Variable render : value -> string.
Variable M : gmap string body.
Variable rank : string -> nat.
Hypothesis Hacyclic : acyclic M rank.

Lemma onlyUsedChanged_masterTmpl (st st' : state) :
  onlyUsedChanged st st' -> masterTmpl (ts st') = masterTmpl (ts st).
Proof. intros [_ [u Ht]]. rewrite Ht. reflexivity. Qed.

Lemma comp_returns (E : string -> value -> state -> outcome)
  (templateName : string) (args : list value) (st : state) :
  (forall data st1, masterTmpl (ts st1) = M ->
                    exists r, E (tmplKey templateName) data st1 = Some r) ->
  masterTmpl (ts st) = M ->
  exists r, comp E templateName args st = Some r.
Proof.
  intros HE HM. unfold comp.
  destruct (HE (compData args)
               (push {| Args := args; CallName := TrimSuffix templateName ".html" |}
                     (markUsed (TrimSuffix templateName ".html") st)) HM)
    as [[[buf [e|]] s1] Hr];
    unfold tmplKey in Hr; cbv zeta in Hr; rewrite Hr; eauto.
Qed.

Lemma execActions_returns (callComp : string -> list value -> state -> outcome)
  (acts : body) :
  (forall n a st out err st',
      callComp n a st = Some (out, err, st') -> onlyUsedChanged st st') ->
  (forall n, In n (callees acts) ->
             forall argv st, masterTmpl (ts st) = M -> exists r, callComp n argv st = Some r) ->
  forall data st, masterTmpl (ts st) = M ->
                  exists r, execActions render callComp acts data st = Some r.
Proof.
  intros Hp. induction acts as [|a rest IH]; intros Hc data st HM.
  - cbn. eauto.
  - cbn [execActions]. destruct a as [s|e|n args|n|msg].
    + destruct (IH Hc data st HM) as [[[o e] s2] Hr]. rewrite Hr. eauto.
    + destruct (evalExpr data (compStack st) e); [|eauto].
      destruct (IH Hc data st HM) as [[[o e2] s2] Hr]. rewrite Hr. eauto.
    + destruct (evalArgs data (compStack st) args) as [argv|m]; [|eauto].
      destruct (Hc n (or_introl eq_refl) argv st HM) as [[[html [e1|]] s1] Hr];
        rewrite Hr; [eauto|].
      assert (HM1 : masterTmpl (ts s1) = M).
      { rewrite (onlyUsedChanged_masterTmpl st s1); [exact HM|]. eapply Hp. exact Hr. }
      destruct (IH (fun n' Hin => Hc n' (or_intror Hin)) data s1 HM1) as [[[o e2] s2] Hr2].
      rewrite Hr2. eauto.
    + cbn [register_template].
      destruct (IH Hc data (markUsed n st) HM) as [[[o e2] s2] Hr]. rewrite Hr. eauto.
    + eauto.
Qed.

Lemma ExecuteTemplate_returns (fuel : nat) :
  forall key data st,
    masterTmpl (ts st) = M -> (rank key < fuel)%nat ->
    exists r, ExecuteTemplate render fuel key data st = Some r.
Proof.
  induction fuel as [|f IH]; intros key data st HM Hlt; [lia|].
  cbn [ExecuteTemplate]. rewrite HM.
  destruct (M !! key) as [b|] eqn:Eb; [|eauto].
  apply execActions_returns; [| |exact HM].
  - intros n a s o e s' Hc.
    eapply comp_preserves; [apply ExecuteTemplate_preserves | exact Hc].
  - intros n Hin argv s HMs. apply comp_returns; [|exact HMs].
    intros data1 s1 HM1. apply IH; [exact HM1|].
    pose proof (Hacyclic key b Eb n Hin). lia.
Qed.

End ReturnFacts.

(** With enough fuel [comp] returns, for every set of templates whose
    [comp] calls have no cycle; and then the stack is as before. *)
Theorem comp_returns_balanced :
  forall (render : value -> string) (rank : string -> nat) (fuel : nat)
         (templateName : string) (args : list value) (st : state),
    acyclic (masterTmpl (ts st)) rank ->
    (rank (tmplKey templateName) < fuel)%nat ->
    exists out err st',
      comp (ExecuteTemplate render fuel) templateName args st = Some (out, err, st') /\
      compStack st' = compStack st.
Proof.
  intros render rank fuel templateName args st Hac Hlt.
  destruct (comp_returns (masterTmpl (ts st)) (ExecuteTemplate render fuel)
              templateName args st) as [[[out err] st'] Hr].
  - intros data st1 HM1.
    apply (ExecuteTemplate_returns render _ rank Hac); [exact HM1 | exact Hlt].
  - reflexivity.
  - exists out, err, st'. split; [exact Hr|].
    exact (proj1 (comp_preserves _ (ExecuteTemplate_preserves render fuel)
                    _ _ _ _ _ _ Hr)).
Qed.

Lemma C5_comp_pops_its_frame_witness :
  (exists st1, comp (ExecuteTemplate show_value 3) "page" [] demo_state
               = Some ("[<x><y>]", None, st1) /\
               compStack st1 = compStack demo_state) /\
  (exists st1, comp (ExecuteTemplate show_value 3) "broken" [] demo_state
               = Some (EmptyString, Some "boom", st1) /\
               compStack st1 = compStack demo_state).
Proof.
  split.
  - destruct (comp (ExecuteTemplate show_value 3) "page" [] demo_state)
      as [[[o e] s1]|] eqn:H.
    + exists s1.
      split; [|exact (proj1 (C5_comp_pops_its_frame _ _ _ _ _ _ _ _ H))].
      vm_compute in H. injection H as <- <- <-. reflexivity.
    + vm_compute in H. discriminate H.
  - destruct (comp (ExecuteTemplate show_value 3) "broken" [] demo_state)
      as [[[o e] s1]|] eqn:H.
    + exists s1.
      split; [|exact (proj1 (C5_comp_pops_its_frame _ _ _ _ _ _ _ _ H))].
      vm_compute in H. injection H as <- <- <-. reflexivity.
    + vm_compute in H. discriminate H.
Defined.

Section IsolatedFacts.

Variable render : value -> string.
Variable Parse : string -> result body.

(** A template without calls of internal functions leaves the cache and
    the stack alone. *)
Lemma isolated_run_preserves (b : body) (data : value) (st : state)
  (out : string) (err : error) (st' : state) :
  execActions render (fun _ _ s => Some (EmptyString, Some undefinedFunction, s)) b data st
  = Some (out, err, st') ->
  onlyUsedChanged st st'.
Proof.
  apply execActions_preserves.
  intros n a s o e s' H. injection H as <- <- <-. apply onlyUsedChanged_refl.
Qed.

(** A cached template is rendered without reading the file. *)
Lemma ExecuteIsolated_reuses_cache (fs fs' : files) (w filename : string) (data : value)
  (st : state) (cached : body) :
  isolatedCache (ts st) !! filename = Some cached ->
  ExecuteIsolated render Parse fs w filename data st
  = ExecuteIsolated render Parse fs' w filename data st.
Proof. intros H. unfold ExecuteIsolated. rewrite H. reflexivity. Qed.

(** After the first successful parse the template is in the cache, under
    the file name. *)
Lemma ExecuteIsolated_fills_cache (fs : files) (w filename content : string) (data : value)
  (st : state) (parsed : body) (err : error) (w' : string) (st' : state) :
  isolatedCache (ts st) !! filename = None ->
  fs !! filename = Some content ->
  ParsePlain Parse (isolatedSource content) = Ok parsed ->
  ExecuteIsolated render Parse fs w filename data st = Some (err, w', st') ->
  isolatedCache (ts st') !! filename = Some parsed.
Proof.
  intros Hc Hf Hp H. unfold ExecuteIsolated in H. rewrite Hc, Hf, Hp in H.
  match type of H with
  | match ?e with _ => _ end = _ => destruct e as [[[o e1] s1]|] eqn:Er
  end; [|discriminate H].
  injection H as <- <- <-.
  apply isolated_run_preserves in Er. destruct Er as [_ [u Hu]].
  rewrite Hu. cbn. apply lookup_insert_eq.
Qed.

End IsolatedFacts.

(** C8, evaluated where the program departs from it: the text that
    [ExecuteIsolated] parses for a file with a template block is the
    attribute text of the opening tag (the first group of the pattern),
    not the content of the block (the second group, which [parseFile]
    takes); a file that holds a template block without attributes is
    rendered as an empty file would be. *)
Lemma C8_isolated_source_is_attribute_text :
  isolatedSource "<template><p>Hi</p></template><style>p{color:red}</style>" = EmptyString /\
  isolatedSource "<template unwrap><p>Hi</p></template>" = " unwrap" /\
  HTML (compileComponent "hi" "<template unwrap><p>Hi</p></template>") = "<p>Hi</p>" /\
  (forall (render : value -> string) (Parse : string -> result body) (w : string)
          (data : value) (st : state),
      ExecuteIsolated render Parse
        {["hi.html" := "<template><p>Hi</p></template><style>p{color:red}</style>"]}
        w "hi.html" data st
      = ExecuteIsolated render Parse {["hi.html" := EmptyString]} w "hi.html" data st).
Proof.
  split; [vm_compute; reflexivity|].
  split; [vm_compute; reflexivity|].
  split; [vm_compute; reflexivity|].
  intros render Parse w data st. unfold ExecuteIsolated.
  destruct (isolatedCache (ts st) !! "hi.html"); [reflexivity|].
  rewrite !lookup_singleton_eq.
  change (isolatedSource "<template><p>Hi</p></template><style>p{color:red}</style>")
    with EmptyString.
  change (isolatedSource EmptyString) with EmptyString.
  reflexivity.
Qed.

(** ** Renders that share a template set *)

Local Open Scope list_scope.

Section ScheduleFacts.

Lemma runSchedule_app (a b : schedule) (st : state) :
  runSchedule (a ++ b)%list st =
  (fst (runSchedule a st) ++ fst (runSchedule b (snd (runSchedule a st))),
   snd (runSchedule b (snd (runSchedule a st)))).
Proof.
  revert st. induction a as [|[r x] a IH]; intros st.
  - cbn. destruct (runSchedule b st). reflexivity.
  - cbn [runSchedule app]. destruct (access_step x st) as [st' o].
    rewrite IH. destruct (runSchedule a st') as [obs st''].
    cbn. reflexivity.
Qed.

Lemma ofRender_app {A : Type} (r : nat) (a b : list (nat * A)) :
  ofRender r (a ++ b) = ofRender r a ++ ofRender r b.
Proof. unfold ofRender. rewrite List.filter_app, List.map_app. reflexivity. Qed.

Lemma observations_app (r : nat) (a b : schedule) (st : state) :
  observations r (a ++ b)%list st =
  observations r a st ++ observations r b (snd (runSchedule a st)).
Proof.
  unfold observations. rewrite runSchedule_app. cbn [fst]. apply ofRender_app.
Qed.

Lemma observations_other (r r' : nat) (l : list access) (st : state) :
  r <> r' -> observations r (by_render r' l) st = [].
Proof.
  intros Hne. unfold observations, ofRender. revert st.
  induction l as [|a l IH]; intros st; [reflexivity|].
  cbn [by_render map runSchedule]. destruct (access_step a st) as [st' o].
  specialize (IH st'). unfold by_render in IH.
  destruct (runSchedule (map (fun a0 => (r', a0)) l) st') as [obs st''].
  cbn [fst List.filter] in *. destruct (Nat.eqb_spec r' r) as [E|_]; [congruence|].
  exact IH.
Qed.

Lemma alone_same (r : nat) (l : list access) : alone r (by_render r l) = by_render r l.
Proof.
  unfold alone, by_render. induction l as [|a l IH]; [reflexivity|].
  cbn [map List.filter fst]. rewrite Nat.eqb_refl, IH. reflexivity.
Qed.

Lemma alone_other (r r' : nat) (l : list access) :
  r <> r' -> alone r (by_render r' l) = [].
Proof.
  intros Hne. unfold alone, by_render. induction l as [|a l IH]; [reflexivity|].
  cbn [map List.filter fst]. destruct (Nat.eqb_spec r' r) as [E|_]; [congruence|]. exact IH.
Qed.

Lemma alone_app (r : nat) (a b : schedule) : alone r (a ++ b)%list = (alone r a ++ alone r b)%list.
Proof. apply List.filter_app. Qed.

Lemma run_by_render (r : nat) (l : list access) (st : state) :
  snd (runSchedule (by_render r l) st)
  = fold_left (fun s a => fst (access_step a s)) l st.
Proof.
  revert st. induction l as [|a l IH]; intros st; [reflexivity|].
  cbn [by_render map runSchedule fold_left].
  destruct (access_step a st) as [st1 o]. specialize (IH st1). unfold by_render in IH.
  destruct (runSchedule (map (fun a0 => (r, a0)) l) st1) as [obs st2].
  cbn [snd fst] in *. exact IH.
Qed.

Lemma ts_used_refl (t : TemplateSet) : exists u, t = set_usedTemplates t u.
Proof. exists (usedTemplates t). destruct t. reflexivity. Qed.

Lemma ts_used_step (t t1 t2 : TemplateSet) :
  (exists u, t1 = set_usedTemplates t u) ->
  (exists u, t2 = set_usedTemplates t1 u) ->
  exists u, t2 = set_usedTemplates t u.
Proof. intros [u1 ->] [u2 ->]. exists u2. reflexivity. Qed.

Lemma firstn_own {A : Type} (base own : list A) :
  own <> [] ->
  firstn (length (base ++ own) - 1) (base ++ own) = base ++ firstn (length own - 1) own.
Proof.
  intros Hne. rewrite length_app, firstn_app.
  assert (0 < length own)%nat by (destruct own; [contradiction | simpl; lia]).
  replace (length base + length own - 1 - length base)%nat with (length own - 1)%nat by lia.
  rewrite firstn_all2 by lia. reflexivity.
Qed.

(** A sequence of accesses moves the stack from [base ++ own] to
    [base ++ own'], where [own'] are the frames still outstanding. *)
Lemma outstanding_run (l : list access) :
  forall own own' base st,
    outstanding l own = Some own' ->
    compStack st = base ++ own ->
    compStack (fold_left (fun s a => fst (access_step a s)) l st) = base ++ own' /\
    exists u, ts (fold_left (fun s a => fst (access_step a s)) l st)
              = set_usedTemplates (ts st) u.
Proof.
  induction l as [|a l IH]; intros own own' base st Ho Hs.
  - cbn in *. injection Ho as <-. split; [exact Hs | apply ts_used_refl].
  - cbn [fold_left]. destruct a; cbn [outstanding access_step fst] in *.
    + destruct (IH own own' base (resetUsed st) Ho Hs) as [Hc Hu].
      split; [exact Hc|]. eapply ts_used_step; [|exact Hu]. eexists; reflexivity.
    + destruct (IH own own' base (markUsed name st) Ho Hs) as [Hc Hu].
      split; [exact Hc|]. eapply ts_used_step; [|exact Hu]. eexists; reflexivity.
    + destruct (IH (own ++ [call]) own' base (push call st) Ho) as [Hc Hu].
      { cbn. rewrite Hs. symmetry. apply app_assoc. }
      split; [exact Hc | exact Hu].
    + destruct own as [|c0 own0]; [discriminate Ho|].
      destruct (IH _ own' base (pop st) Ho) as [Hc Hu].
      { unfold pop. cbn [compStack]. rewrite Hs.
        destruct (Nat.ltb_spec 0 (length (base ++ c0 :: own0))) as [_|Hl].
        - apply firstn_own. discriminate.
        - rewrite length_app in Hl. simpl in Hl. lia. }
      split; [exact Hc | exact Hu].
    + exact (IH own own' base st Ho Hs).
    + exact (IH own own' base st Ho Hs).
    + exact (IH own own' base st Ho Hs).
Qed.

Lemma balanced_run (r : nat) (l : list access) (st : state) :
  balanced l -> onlyUsedChanged st (snd (runSchedule (by_render r l) st)).
Proof.
  intros Hb. rewrite run_by_render.
  destruct (outstanding_run l [] [] (compStack st) st Hb) as [Hc Hu].
  - symmetry. apply app_nil_r.
  - split; [|exact Hu]. rewrite Hc. apply app_nil_r.
Qed.

(** A render that begins by resetting the used set observes the same in
    two states that differ in the used set only. *)
Lemma reset_forgets (r : nat) (l : list access) (st st' : state) :
  onlyUsedChanged st st' ->
  observations r (by_render r (Reset :: l)) st' = observations r (by_render r (Reset :: l)) st.
Proof.
  intros [Hs [u Hu]]. unfold observations.
  cbn [by_render map runSchedule access_step].
  assert (E : resetUsed st' = resetUsed st).
  { unfold resetUsed. rewrite Hs, Hu. reflexivity. }
  rewrite E. reflexivity.
Qed.

End ScheduleFacts.

(** C9, as the program has it: the call stack and the used set belong to
    the template set and are shared by its renders.  A frame pushed by
    one render is the frame that [param] of another render reads; a name
    marked by one render is in the used set that another collects.  Only
    renders that do not overlap are isolated: when one render has
    returned before the next one starts (by resetting the used set),
    every render observes what it would observe alone. *)
Theorem C9_renders_share_stack_and_used_set :
  forall (st : state) (r1 r2 : nat),
    r1 <> r2 ->
    (forall call index,
        observations r2 [(r1, Push call); (r2, ReadParam index)] st
        = [Saw (param (compStack st ++ [call]) index)]) /\
    (forall name,
        observations r2 [(r1, Mark name); (r2, Collect)] st
        = [SawUsed (<[name := true]> (usedTemplates (ts st)))]) /\
    (forall first second,
        balanced first ->
        isolated (by_render r1 first ++ by_render r2 (Reset :: second))%list st).
Proof.
  intros st r1 r2 Hne. split; [|split].
  - intros call index. unfold observations, ofRender. cbn.
    destruct (Nat.eqb_spec r1 r2) as [E|_]; [contradiction|].
    rewrite Nat.eqb_refl. reflexivity.
  - intros name. unfold observations, ofRender. cbn.
    destruct (Nat.eqb_spec r1 r2) as [E|_]; [contradiction|].
    rewrite Nat.eqb_refl. reflexivity.
  - intros first second Hb r. rewrite alone_app, observations_app.
    destruct (Nat.eq_dec r r1) as [->|Hr1].
    + rewrite alone_same, (alone_other r1 r2) by exact Hne.
      rewrite (observations_other r1 r2) by exact Hne.
      rewrite !app_nil_r. reflexivity.
    + rewrite (alone_other r r1) by exact Hr1.
      rewrite (observations_other r r1) by exact Hr1. cbn [app].
      destruct (Nat.eq_dec r r2) as [->|Hr2].
      * rewrite alone_same. apply reset_forgets. apply balanced_run. exact Hb.
      * rewrite (alone_other r r2) by exact Hr2.
        apply (observations_other r r2). exact Hr2.
Qed.

Lemma C9_renders_share_stack_and_used_set_witness :
  (1 <> 2)%nat /\
  balanced [Mark "a"; Push (mkCompCall [VStr "x"] "a"); ReadParam 0; Pop; Collect] /\
  observations 2 [(1%nat, Push (mkCompCall [VStr "x"] "a")); (2%nat, ReadParam 0)] demo_state
  = [Saw (VStr "x")] /\
  isolated (by_render 1 [Mark "a"; Push (mkCompCall [VStr "x"] "a"); ReadParam 0; Pop;
                         Collect]
            ++ by_render 2 [Reset; ReadParam 0; Collect])%list demo_state.
Proof.
  assert (Hne : (1 <> 2)%nat) by lia.
  assert (Hb : balanced [Mark "a"; Push (mkCompCall [VStr "x"] "a"); ReadParam 0; Pop;
                         Collect]) by reflexivity.
  split; [exact Hne|]. split; [exact Hb|]. split.
  - exact (proj1 (C9_renders_share_stack_and_used_set demo_state 1 2 Hne)
             (mkCompCall [VStr "x"] "a") 0).
  - exact (proj2 (proj2 (C9_renders_share_stack_and_used_set demo_state 1 2 Hne))
             _ [ReadParam 0; Collect] Hb).
Defined.

(** C9 as stated fails: under a schedule in which the second render reads
    a parameter between the push and the pop of the first, it reads the
    argument of the first render's frame; and a render that collects the
    used set after another render's reset has lost its own entries. *)
Lemma C9_renders_are_not_isolated :
  let st0 := {| ts := NewTemplateSet "layout"; compStack := [] |} in
  ~ isolated [(1%nat, Push (mkCompCall [VStr "private"] "a")); (2%nat, ReadParam 0);
              (1%nat, Pop)] st0 /\
  ~ isolated [(1%nat, Reset); (1%nat, Mark "a"); (2%nat, Reset); (1%nat, Collect)] st0.
Proof.
  intros st0. split.
  - intros H. specialize (H 2%nat). vm_compute in H. discriminate H.
  - intros H. specialize (H 1%nat). unfold observations, alone, ofRender in H.
    apply (f_equal (fun l => match l with
                             | [_; _; SawUsed u] => u !! "a"
                             | _ => None
                             end)) in H.
    vm_compute in H. discriminate H.
Qed.

(** ** Searching and splicing strings *)

Section StringFacts.

Lemma append_cons (a : ascii) (s t : string) : String a s +:+ t = String a (s +:+ t).
Proof. reflexivity. Qed.

Lemma append_nil_l (t : string) : EmptyString +:+ t = t.
Proof. reflexivity. Qed.

Lemma len_app (s t : string) : len (s +:+ t) = (len s + len t)%nat.
Proof.
  unfold len. induction s as [|a s IH]; [reflexivity|].
  rewrite ?append_cons; simpl. rewrite IH. reflexivity.
Qed.

Lemma append_assoc (s t u : string) : (s +:+ t) +:+ u = s +:+ (t +:+ u).
Proof.
  induction s as [|a s IH]; [reflexivity|].
  rewrite ?append_cons, IH. reflexivity.
Qed.

Lemma append_nil_r (s : string) : s +:+ EmptyString = s.
Proof.
  induction s as [|a s IH]; [reflexivity|].
  rewrite ?append_cons, IH. reflexivity.
Qed.

Lemma take_drop (n : nat) (s : string) : take n s +:+ drop n s = s.
Proof.
  revert s. induction n as [|n IH]; intros [|a s]; simpl; try reflexivity.
  rewrite ?append_cons, IH. reflexivity.
Qed.

Lemma len_take (n : nat) (s : string) : (n <= len s)%nat -> len (take n s) = n.
Proof.
  unfold len. revert s. induction n as [|n IH]; intros [|a s] H; simpl in *;
    try reflexivity; try lia.
  rewrite IH; [reflexivity | lia].
Qed.

Lemma drop_app_le (n : nat) (s t : string) :
  (n <= len s)%nat -> drop n (s +:+ t) = drop n s +:+ t.
Proof.
  unfold len. revert s. induction n as [|n IH]; intros [|a s] H; simpl in *;
    try reflexivity; try lia.
  rewrite ?append_cons; simpl. apply IH. lia.
Qed.

Lemma drop_app_ge (n : nat) (s t : string) :
  (len s <= n)%nat -> drop n (s +:+ t) = drop (n - len s) t.
Proof.
  unfold len. revert n. induction s as [|a s IH]; intros n H; simpl in *.
  - rewrite ?append_nil_l, Nat.sub_0_r. reflexivity.
  - destruct n as [|n]; [lia|]. rewrite ?append_cons; simpl. apply IH. lia.
Qed.

Lemma take_app_le (n : nat) (s t : string) :
  (n <= len s)%nat -> take n (s +:+ t) = take n s.
Proof.
  unfold len. revert s. induction n as [|n IH]; intros [|a s] H; simpl in *;
    try reflexivity; try lia.
  rewrite ?append_cons; simpl. rewrite IH; [reflexivity | lia].
Qed.

Lemma take_app_ge (n : nat) (s t : string) :
  (len s <= n)%nat -> take n (s +:+ t) = s +:+ take (n - len s) t.
Proof.
  unfold len. revert n. induction s as [|a s IH]; intros n H; simpl in *.
  - rewrite ?append_nil_l, Nat.sub_0_r. reflexivity.
  - destruct n as [|n]; [lia|]. rewrite ?append_cons; simpl.
    rewrite IH; [reflexivity | lia].
Qed.

Lemma drop_all (n : nat) (s : string) : (len s <= n)%nat -> drop n s = EmptyString.
Proof.
  unfold len. revert s. induction n as [|n IH]; intros [|a s] H; simpl in *;
    try reflexivity; try lia.
  apply IH. lia.
Qed.

Lemma HasPrefix_app (sub rest : string) : HasPrefix (sub +:+ rest) sub = true.
Proof.
  induction sub as [|a sub IH]; [reflexivity|].
  rewrite ?append_cons; simpl. rewrite Ascii.eqb_refl. exact IH.
Qed.

Lemma HasPrefix_split (s sub : string) :
  HasPrefix s sub = true -> s = sub +:+ drop (len sub) s.
Proof.
  revert s. induction sub as [|p sub IH]; intros s H; simpl in *; [reflexivity|].
  destruct s as [|a s]; [discriminate H|].
  destruct (Ascii.eqb_spec a p) as [->|_]; [|discriminate H].
  rewrite ?append_cons; simpl. f_equal. apply IH. exact H.
Qed.

Lemma HasPrefix_len (s sub : string) : HasPrefix s sub = true -> (len sub <= len s)%nat.
Proof.
  intros H. rewrite (HasPrefix_split s sub H), len_app. lia.
Qed.

Lemma HasPrefix_app_long (y x sub : string) :
  (len sub <= len y)%nat -> HasPrefix (y +:+ x) sub = HasPrefix y sub.
Proof.
  unfold len. revert y. induction sub as [|p sub IH]; intros y H; simpl in *; [reflexivity|].
  destruct y as [|a y]; simpl in *; [lia|].
  rewrite ?append_cons; simpl. destruct (Ascii.eqb a p); [apply IH; lia | reflexivity].
Qed.

(** If [sub] starts inside [y] and runs past its end, the byte after [y]
    is the byte of [sub] at offset [len y]. *)
Lemma HasPrefix_crossing (sub y : string) (c : ascii) (rest : string) :
  (len y < len sub)%nat ->
  HasPrefix (y +:+ String c rest) sub = true ->
  String.get (len y) sub = Some c.
Proof.
  unfold len. revert y. induction sub as [|p sub IH]; intros y Hl H; simpl in *; [lia|].
  destruct y as [|a y]; simpl in *.
  - rewrite ?append_nil_l in H.
    destruct (Ascii.eqb_spec c p) as [->|_]; [reflexivity | discriminate H].
  - rewrite ?append_cons in H; simpl in H.
    destruct (Ascii.eqb a p); [|discriminate H]. apply IH; [lia | exact H].
Qed.

Lemma find_Some_at (s sub : string) (n : nat) :
  find s sub = Some n -> HasPrefix (drop n s) sub = true /\ (n <= len s)%nat.
Proof.
  unfold len. revert n. induction s as [|a s IH]; intros n H; cbn [find] in H.
  - destruct (HasPrefix EmptyString sub) eqn:E; [|discriminate H].
    injection H as <-. split; [exact E | simpl; lia].
  - destruct (HasPrefix (String a s) sub) eqn:E.
    + injection H as <-. split; [exact E | simpl; lia].
    + destruct (find s sub) as [k|]; [|discriminate H].
      injection H as <-. destruct (IH k eq_refl) as [Hp Hk].
      split; [exact Hp | simpl; lia].
Qed.

Lemma find_first (s sub : string) (n : nat) :
  find s sub = Some n -> forall m, (m < n)%nat -> HasPrefix (drop m s) sub = false.
Proof.
  revert n. induction s as [|a s IH]; intros n H m Hm; cbn [find] in H.
  - destruct (HasPrefix EmptyString sub); [|discriminate H].
    injection H as <-. lia.
  - destruct (HasPrefix (String a s) sub) eqn:E.
    + injection H as <-. lia.
    + destruct (find s sub) as [k|]; [|discriminate H].
      injection H as <-. destruct m as [|m]; [exact E|].
      simpl. apply (IH k eq_refl). lia.
Qed.

Lemma find_None_at (s sub : string) :
  find s sub = None -> forall m, HasPrefix (drop m s) sub = false.
Proof.
  induction s as [|a s IH]; intros H m; cbn [find] in H.
  - destruct (HasPrefix EmptyString sub) eqn:E; [discriminate H|].
    destruct m; exact E.
  - destruct (HasPrefix (String a s) sub) eqn:E; [discriminate H|].
    destruct (find s sub) as [k|]; [discriminate H|].
    destruct m as [|m]; [exact E | simpl; apply IH; reflexivity].
Qed.

Lemma find_at (s sub : string) (m : nat) :
  HasPrefix (drop m s) sub = true -> exists n, find s sub = Some n.
Proof.
  intros H. destruct (find s sub) as [n|] eqn:E; [eauto|].
  rewrite (find_None_at s sub E m) in H. discriminate H.
Qed.

(** The least position is the one [find] returns. *)
Lemma find_least (s sub : string) (n : nat) :
  HasPrefix (drop n s) sub = true ->
  (forall m, (m < n)%nat -> HasPrefix (drop m s) sub = false) ->
  find s sub = Some n.
Proof.
  intros Hn Hleast. destruct (find_at s sub n Hn) as [k Hk].
  destruct (find_Some_at s sub k Hk) as [Hpk _].
  destruct (Nat.lt_trichotomy k n) as [Hlt|[->|Hgt]].
  - rewrite (Hleast k Hlt) in Hpk. discriminate Hpk.
  - exact Hk.
  - rewrite (find_first s sub k Hk n Hgt) in Hn. discriminate Hn.
Qed.

Lemma occurs_at (sub s : string) :
  occurs sub s <-> exists m, HasPrefix (drop m s) sub = true.
Proof.
  split.
  - intros (pre & post & ->). exists (len pre).
    rewrite drop_app_ge, Nat.sub_diag by lia. simpl. apply HasPrefix_app.
  - intros [m H]. exists (take m s), (drop (len sub) (drop m s)).
    rewrite <- (HasPrefix_split _ _ H). symmetry. apply take_drop.
Qed.

Lemma find_None_iff (s sub : string) : find s sub = None <-> ~ occurs sub s.
Proof.
  rewrite occurs_at. split.
  - intros H [m Hm]. rewrite (find_None_at s sub H m) in Hm. discriminate Hm.
  - intros H. destruct (find s sub) as [n|] eqn:E; [|reflexivity].
    exfalso. apply H. exists n. apply (find_Some_at s sub n E).
Qed.

Lemma Index_minus_one (s sub : string) : (Index s sub =? -1) = true <-> ~ occurs sub s.
Proof.
  rewrite <- find_None_iff. unfold Index.
  destruct (find s sub) as [n|]; split; intros H; try reflexivity; try discriminate H.
  apply Z.eqb_eq in H. lia.
Qed.

End StringFacts.

(** ** The layout and its two anchors *)

Section LayoutFacts.

Lemma len_drop (n : nat) (s : string) : len (drop n s) = (len s - n)%nat.
Proof.
  unfold len. revert s. induction n as [|n IH]; intros [|a s]; simpl; try reflexivity.
  apply IH.
Qed.

(** Where [</body>] can start in [A ++ Mid ++ R], when it can neither run
    from [A] into [Mid] nor start inside [Mid]: inside [A], or in [R]. *)
Lemma body_positions (A : string) (c : ascii) (Mid' R : string) :
  (forall k, (0 < k < 7)%nat -> String.get k "</body>" <> Some c) ->
  (forall k, (k < len (String c Mid'))%nat ->
             HasPrefix (drop k (String c Mid' +:+ R)) "</body>" = false) ->
  forall m,
    HasPrefix (drop m (A +:+ String c Mid' +:+ R)) "</body>" = true <->
    ((m + 7 <= len A)%nat /\ HasPrefix (drop m A) "</body>" = true) \/
    ((len A + len (String c Mid') <= m)%nat /\
     HasPrefix (drop (m - len A - len (String c Mid')) R) "</body>" = true).
Proof.
  intros Hcross Hmid m.
  destruct (Nat.le_gt_cases (m + 7) (len A)) as [H1|H1].
  { rewrite drop_app_le by lia.
    rewrite HasPrefix_app_long by (rewrite len_drop; change (len "</body>") with 7%nat; lia).
    split; [intros H; left; split; assumption|].
    intros [[_ H]|[H _]]; [exact H | lia]. }
  destruct (Nat.le_gt_cases (len A) m) as [H2|H2].
  - rewrite drop_app_ge by lia.
    destruct (Nat.le_gt_cases (len (String c Mid')) (m - len A)) as [H3|H3].
    + rewrite drop_app_ge by lia.
      split; [intros H; right; split; [lia | exact H]|].
      intros [[H _]|[_ H]]; [lia | exact H].
    + rewrite (Hmid (m - len A)%nat H3).
      split; [discriminate|]. intros [[H _]|[H _]]; lia.
  - rewrite drop_app_le by lia. rewrite append_cons.
    split; [|intros [[H _]|[H _]]; lia].
    intros H. exfalso.
    apply HasPrefix_crossing in H;
      [|rewrite len_drop; change (len "</body>") with 7%nat; lia].
    apply (Hcross (len (drop m A))); [rewrite len_drop; lia | exact H].
Qed.

Lemma head_not_crossed (k : nat) :
  (0 < k < 7)%nat -> String.get k "</body>" <> Some "<"%char.
Proof.
  intros [H0 H7]. do 7 (destruct k as [|k]; [try lia; discriminate|]). lia.
Qed.

Lemma slot_not_crossed (k : nat) :
  (0 < k < 7)%nat -> String.get k "</body>" <> Some (ascii_of_nat 10).
Proof.
  intros [H0 H7]. do 7 (destruct k as [|k]; [try lia; discriminate|]). lia.
Qed.

Lemma no_body_in_head (R : string) (k : nat) :
  (k < 7)%nat -> HasPrefix (drop k ("</head>" +:+ R)) "</body>" = false.
Proof.
  intros H. do 7 (destruct k as [|k]; [reflexivity|]). lia.
Qed.

Lemma no_body_in_slot (R : string) (k : nat) :
  (k < len (styleSlot +:+ "</head>"))%nat ->
  HasPrefix (drop k ((styleSlot +:+ "</head>") +:+ R)) "</body>" = false.
Proof.
  intros H. change (len (styleSlot +:+ "</head>")) with 35%nat in H.
  do 35 (destruct k as [|k]; [reflexivity|]). lia.
Qed.

Lemma body_in_content (A R : string) (m : nat) :
  HasPrefix (drop m (A +:+ "</head>" +:+ R)) "</body>" = true <->
  ((m + 7 <= len A)%nat /\ HasPrefix (drop m A) "</body>" = true) \/
  ((len A + 7 <= m)%nat /\ HasPrefix (drop (m - len A - 7) R) "</body>" = true).
Proof.
  exact (body_positions A "<"%char "/head>" R head_not_crossed (no_body_in_head R) m).
Qed.

Lemma body_in_layout (A R : string) (m : nat) :
  HasPrefix (drop m (A +:+ (styleSlot +:+ "</head>") +:+ R)) "</body>" = true <->
  ((m + 7 <= len A)%nat /\ HasPrefix (drop m A) "</body>" = true) \/
  ((len A + 35 <= m)%nat /\ HasPrefix (drop (m - len A - 35) R) "</body>" = true).
Proof.
  exact (body_positions A (ascii_of_nat 10) (drop 1 (styleSlot +:+ "</head>")) R
           slot_not_crossed (no_body_in_slot R) m).
Qed.

(** The document around its first [</head>], before and after the style
    placeholder is put in. *)
Lemma head_split (content : string) (h : nat) :
  find content "</head>" = Some h ->
  exists A R,
    content = A +:+ "</head>" +:+ R /\ len A = h /\
    insertAt content h styleSlot = A +:+ (styleSlot +:+ "</head>") +:+ R.
Proof.
  intros Eh. destruct (find_Some_at _ _ _ Eh) as [Hp Hh].
  apply HasPrefix_split in Hp. change (len "</head>") with 7%nat in Hp.
  exists (take h content), (drop 7 (drop h content)).
  split; [|split].
  - rewrite <- Hp. symmetry. apply take_drop.
  - apply len_take. exact Hh.
  - unfold insertAt. rewrite Hp at 1. rewrite append_assoc. reflexivity.
Qed.

Lemma layout_body_iff (content : string) (h : nat) :
  find content "</head>" = Some h ->
  (find (insertAt content h styleSlot) "</body>" = None <-> ~ occurs "</body>" content).
Proof.
  intros Eh. destruct (head_split content h Eh) as (A & R & Hc & HlA & Hc1).
  rewrite Hc1, find_None_iff, !occurs_at, Hc.
  assert (E : (exists m, HasPrefix (drop m (A +:+ (styleSlot +:+ "</head>") +:+ R))
                                   "</body>" = true) <->
              (exists m, HasPrefix (drop m (A +:+ "</head>" +:+ R)) "</body>" = true)).
  { split; intros [m Hm].
    - apply body_in_layout in Hm. destruct Hm as [[H1 H2]|[H1 H2]].
      + exists m. apply body_in_content. left. split; assumption.
      + exists (m - 28)%nat. apply body_in_content. right. split; [lia|].
        replace (m - 28 - len A - 7)%nat with (m - len A - 35)%nat by lia. exact H2.
    - apply body_in_content in Hm. destruct Hm as [[H1 H2]|[H1 H2]].
      + exists m. apply body_in_layout. left. split; assumption.
      + exists (m + 28)%nat. apply body_in_layout. right. split; [lia|].
        replace (m + 28 - len A - 35)%nat with (m - len A - 7)%nat by lia. exact H2. }
  rewrite E. reflexivity.
Qed.

(** The compiled layout, when both anchors are there. *)
Lemma layout_success (content : string) (h b : nat) :
  find content "</head>" = Some h ->
  find (insertAt content h styleSlot) "</body>" = Some b ->
  exists x y z,
    (content = x +:+ "</head>" +:+ y +:+ "</body>" +:+ z /\
     insertAt (insertAt content h styleSlot) b scriptSlot
     = x +:+ styleSlot +:+ "</head>" +:+ y +:+ scriptSlot +:+ "</body>" +:+ z /\
     find content "</head>" = Some (len x) /\
     find content "</body>" = Some (len (x +:+ "</head>" +:+ y))) \/
    (content = x +:+ "</body>" +:+ y +:+ "</head>" +:+ z /\
     insertAt (insertAt content h styleSlot) b scriptSlot
     = x +:+ scriptSlot +:+ "</body>" +:+ y +:+ styleSlot +:+ "</head>" +:+ z /\
     find content "</body>" = Some (len x) /\
     find content "</head>" = Some (len (x +:+ "</body>" +:+ y))).
Proof.
  intros Eh Eb. destruct (head_split content h Eh) as (A & R & Hc & HlA & Hc1).
  rewrite Hc1 in *.
  destruct (find_Some_at _ _ _ Eb) as [Hb _].
  pose proof (find_first _ _ _ Eb) as Hfirst.
  apply body_in_layout in Hb. destruct Hb as [[Hb1 Hb2]|[Hb1 Hb2]].
  - (* the body anchor stands before the head anchor *)
    pose proof (HasPrefix_split _ _ Hb2) as HA2. change (len "</body>") with 7%nat in HA2.
    assert (HA : A = take b A +:+ "</body>" +:+ drop 7 (drop b A)).
    { rewrite <- HA2. symmetry. apply take_drop. }
    exists (take b A), (drop 7 (drop b A)), R. right.
    split; [|split; [|split]].
    + rewrite Hc. rewrite HA at 1. rewrite !append_assoc. reflexivity.
    + unfold insertAt. rewrite take_app_le, drop_app_le by lia.
      rewrite HA2 at 1. rewrite !append_assoc. reflexivity.
    + rewrite len_take by lia. apply find_least.
      * rewrite Hc. apply body_in_content. left. split; assumption.
      * intros m Hm. destruct (HasPrefix (drop m content) "</body>") eqn:E; [|reflexivity].
        rewrite Hc in E. apply body_in_content in E. destruct E as [[E1 E2]|[E1 _]]; [|lia].
        rewrite <- (Hfirst m Hm). symmetry. apply body_in_layout. left. split; assumption.
    + rewrite <- HA, HlA. exact Eh.
  - (* the body anchor stands after the head anchor *)
    set (j := (b - len A - 35)%nat) in *.
    pose proof (HasPrefix_split _ _ Hb2) as HR2. change (len "</body>") with 7%nat in HR2.
    pose proof (HasPrefix_len _ _ Hb2) as Hj. rewrite len_drop in Hj.
    change (len "</body>") with 7%nat in Hj.
    assert (HR : R = take j R +:+ "</body>" +:+ drop 7 (drop j R)).
    { rewrite <- HR2. symmetry. apply take_drop. }
    exists A, (take j R), (drop 7 (drop j R)). left.
    split; [|split; [|split]].
    + rewrite Hc. rewrite HR at 1. reflexivity.
    + unfold insertAt. rewrite take_app_ge, drop_app_ge by lia.
      rewrite take_app_ge, drop_app_ge
        by (change (len (styleSlot +:+ "</head>")) with 35%nat; lia).
      change (len (styleSlot +:+ "</head>")) with 35%nat. fold j.
      rewrite HR2 at 1. rewrite !append_assoc. reflexivity.
    + rewrite HlA. exact Eh.
    + rewrite !len_app, len_take by lia. change (len "</head>") with 7%nat.
      apply find_least.
      * rewrite Hc. apply body_in_content. right. split; [lia|].
        replace (len A + (7 + j) - len A - 7)%nat with j by lia. exact Hb2.
      * intros m Hm. destruct (HasPrefix (drop m content) "</body>") eqn:E; [|reflexivity].
        rewrite Hc in E. apply body_in_content in E. destruct E as [[E1 E2]|[E1 E2]].
        -- rewrite <- (Hfirst m ltac:(lia)). symmetry.
           apply body_in_layout. left. split; assumption.
        -- rewrite <- (Hfirst (m + 28)%nat ltac:(lia)). symmetry.
           apply body_in_layout. right. split; [lia|].
           replace (m + 28 - len A - 35)%nat with (m - len A - 7)%nat by lia. exact E2.
Qed.

Lemma Index_Some (s sub : string) (n : nat) : find s sub = Some n -> Index s sub = Z.of_nat n.
Proof. intros H. unfold Index. rewrite H. reflexivity. Qed.

Lemma Index_None (s sub : string) : find s sub = None -> Index s sub = -1.
Proof. intros H. unfold Index. rewrite H. reflexivity. Qed.

Lemma parseLayoutFile_find (t : TemplateSet) (content : string) :
  parseLayoutFile t content =
  match find content "</head>" with
  | None => (Some "layout template must contain </head> tag", t)
  | Some h =>
      match find (insertAt content h styleSlot) "</body>" with
      | None => (Some "layout template must contain </body> tag", t)
      | Some b =>
          (None,
           set_layout t (Some {| layoutHTML :=
                                   insertAt (insertAt content h styleSlot) b scriptSlot;
                                 layoutTmpl := None |}))
      end
  end.
Proof.
  unfold parseLayoutFile. cbv zeta.
  destruct (find content "</head>") as [h|] eqn:Eh.
  - rewrite (Index_Some _ _ _ Eh).
    destruct (Z.eqb_spec (Z.of_nat h) (-1)) as [E|_]; [lia|]. rewrite Nat2Z.id.
    destruct (find (insertAt content h styleSlot) "</body>") as [b|] eqn:Eb.
    + rewrite (Index_Some _ _ _ Eb), Nat2Z.id.
      destruct (Z.eqb_spec (Z.of_nat b) (-1)) as [E|_]; [lia|]. reflexivity.
    + rewrite (Index_None _ _ Eb). reflexivity.
  - rewrite (Index_None _ _ Eh). reflexivity.
Qed.

End LayoutFacts.

(** C7: [parseLayoutFile] returns an error exactly when the document has
    no [</head>] or no [</body>], and then leaves the template set as it
    was; otherwise the compiled layout is the document with the style
    placeholder put directly before its first [</head>] and the script
    placeholder directly before its first [</body>], in whichever order
    the two anchors stand. *)
Theorem C7_layout_needs_both_anchors :
  forall (t : TemplateSet) (content : string),
    (fst (parseLayoutFile t content) <> None <->
     ~ occurs "</head>" content \/ ~ occurs "</body>" content) /\
    (fst (parseLayoutFile t content) <> None -> snd (parseLayoutFile t content) = t) /\
    (fst (parseLayoutFile t content) = None ->
     exists html x y z,
       snd (parseLayoutFile t content)
       = set_layout t (Some {| layoutHTML := html; layoutTmpl := None |}) /\
       ((content = x +:+ "</head>" +:+ y +:+ "</body>" +:+ z /\
         html = x +:+ styleSlot +:+ "</head>" +:+ y +:+ scriptSlot +:+ "</body>" +:+ z /\
         Index content "</head>" = Z.of_nat (len x) /\
         Index content "</body>" = Z.of_nat (len (x +:+ "</head>" +:+ y))) \/
        (content = x +:+ "</body>" +:+ y +:+ "</head>" +:+ z /\
         html = x +:+ scriptSlot +:+ "</body>" +:+ y +:+ styleSlot +:+ "</head>" +:+ z /\
         Index content "</body>" = Z.of_nat (len x) /\
         Index content "</head>" = Z.of_nat (len (x +:+ "</body>" +:+ y))))).
Proof.
  intros t content. rewrite parseLayoutFile_find.
  destruct (find content "</head>") as [h|] eqn:Eh.
  - destruct (find (insertAt content h styleSlot) "</body>") as [b|] eqn:Eb.
    + cbn [fst snd]. split; [|split].
      * split; [intros H; contradiction|].
        intros [H|H]; exfalso.
        -- apply find_None_iff in H. congruence.
        -- apply (layout_body_iff content h Eh) in H. congruence.
      * intros H. contradiction.
      * intros _.
        destruct (layout_success content h b Eh Eb)
          as (x & y & z & [(H1 & H2 & H3 & H4)|(H1 & H2 & H3 & H4)]).
        -- exists (insertAt (insertAt content h styleSlot) b scriptSlot), x, y, z.
           split; [reflexivity|]. left.
           rewrite (Index_Some _ _ _ H3), (Index_Some _ _ _ H4). auto.
        -- exists (insertAt (insertAt content h styleSlot) b scriptSlot), x, y, z.
           split; [reflexivity|]. right.
           rewrite (Index_Some _ _ _ H3), (Index_Some _ _ _ H4). auto.
    + cbn [fst snd]. split; [|split].
      * split; [|intros _; discriminate].
        intros _. right. apply (layout_body_iff content h Eh). exact Eb.
      * reflexivity.
      * intros H. discriminate H.
  - cbn [fst snd]. split; [|split].
    + split; [|intros _; discriminate].
      intros _. left. apply find_None_iff. exact Eh.
    + reflexivity.
    + intros H. discriminate H.
Qed.

Lemma C7_layout_needs_both_anchors_witness :
  exists html x y z,
    snd (parseLayoutFile (NewTemplateSet "layout")
           "<html><head></head><body>{{ .Yield }}</body></html>")
    = set_layout (NewTemplateSet "layout")
                 (Some {| layoutHTML := html; layoutTmpl := None |}) /\
    (("<html><head></head><body>{{ .Yield }}</body></html>"
      = x +:+ "</head>" +:+ y +:+ "</body>" +:+ z /\
      html = x +:+ styleSlot +:+ "</head>" +:+ y +:+ scriptSlot +:+ "</body>" +:+ z /\
      Index "<html><head></head><body>{{ .Yield }}</body></html>" "</head>"
      = Z.of_nat (len x) /\
      Index "<html><head></head><body>{{ .Yield }}</body></html>" "</body>"
      = Z.of_nat (len (x +:+ "</head>" +:+ y))) \/
     ("<html><head></head><body>{{ .Yield }}</body></html>"
      = x +:+ "</body>" +:+ y +:+ "</head>" +:+ z /\
      html = x +:+ scriptSlot +:+ "</body>" +:+ y +:+ styleSlot +:+ "</head>" +:+ z /\
      Index "<html><head></head><body>{{ .Yield }}</body></html>" "</body>"
      = Z.of_nat (len x) /\
      Index "<html><head></head><body>{{ .Yield }}</body></html>" "</head>"
      = Z.of_nat (len (x +:+ "</body>" +:+ y)))).
Proof.
  apply (proj2 (proj2 (C7_layout_needs_both_anchors (NewTemplateSet "layout")
                         "<html><head></head><body>{{ .Yield }}</body></html>"))).
  vm_compute. reflexivity.
Defined.

(** ** The matcher against the reading of the patterns *)

Section MatcherFacts.

Lemma starLoop_sound (greedy : bool)
  (body : string -> nat -> caps -> cont -> option (nat * caps))
  (R : position -> position -> Prop) (k : cont) :
  (forall s i c k' res,
      body s i c k' = Some res ->
      exists s' i' c', R (s, i, c) (s', i', c') /\ k' s' i' c' = Some res) ->
  forall fuel s i c res,
    starLoop greedy body k fuel s i c = Some res ->
    exists s' i' c', rtc R (s, i, c) (s', i', c') /\ k s' i' c' = Some res.
Proof.
  intros Hbody. induction fuel as [|f IHf]; intros s i c res H; cbn [starLoop] in H.
  - exists s, i, c. split; [apply rtc_refl | exact H].
  - assert (Hmore : forall res',
               body s i c (fun s' i' c' =>
                             if (i <? i')%nat then starLoop greedy body k f s' i' c'
                             else None) = Some res' ->
               exists s' i' c', rtc R (s, i, c) (s', i', c') /\ k s' i' c' = Some res').
    { intros res' E. apply Hbody in E. destruct E as (s1 & i1 & c1 & Hs1 & E).
      destruct (i <? i1)%nat; [|discriminate E].
      apply IHf in E. destruct E as (s2 & i2 & c2 & Hs2 & E).
      exists s2, i2, c2. split; [|exact E]. eapply rtc_l; [exact Hs1 | exact Hs2]. }
    destruct greedy.
    + match type of H with
      | match ?e with _ => _ end = _ => destruct e as [m|] eqn:E
      end.
      * injection H as <-. exact (Hmore m eq_refl).
      * exists s, i, c. split; [apply rtc_refl | exact H].
    + destruct (k s i c) as [m|] eqn:Ek.
      * injection H as <-. exists s, i, c. split; [apply rtc_refl | exact Ek].
      * apply Hmore. exact H.
Qed.

(** Whatever the matcher finds is a match in the sense of [sem]. *)
Lemma run_sound (r : regex) :
  forall s i c k res,
    run r s i c k = Some res ->
    exists s' i' c', sem r (s, i, c) (s', i', c') /\ k s' i' c' = Some res.
Proof.
  induction r as [|a|p|r1 IH1 r2 IH2|r1 IH1|r1 IH1|r1 IH1|n r1 IH1| |];
    intros s i c k res H; cbn [run] in H.
  - exists s, i, c. split; [reflexivity | exact H].
  - destruct s as [|b s']; [discriminate H|].
    destruct (Ascii.eqb_spec b a) as [->|_]; [|discriminate H].
    exists s', (S i), c. split; [|exact H]. exists s'. split; reflexivity.
  - destruct s as [|b s']; [discriminate H|].
    destruct (p b) eqn:Ep; [|discriminate H].
    exists s', (S i), c. split; [|exact H]. exists b, s'. repeat split. exact Ep.
  - apply IH1 in H. destruct H as (s1 & i1 & c1 & Hs1 & H).
    apply IH2 in H. destruct H as (s2 & i2 & c2 & Hs2 & H).
    exists s2, i2, c2. split; [|exact H]. exists (s1, i1, c1). split; assumption.
  - eapply starLoop_sound; [exact IH1 | exact H].
  - eapply starLoop_sound; [exact IH1 | exact H].
  - destruct (run r1 s i c k) as [m|] eqn:E.
    + injection H as <-. apply IH1 in E. destruct E as (s1 & i1 & c1 & Hs1 & E).
      exists s1, i1, c1. split; [left; exact Hs1 | exact E].
    + exists s, i, c. split; [right; reflexivity | exact H].
  - apply IH1 in H. destruct H as (s1 & i1 & c1 & Hs1 & H).
    exists s1, i1, ((n, (i, i1)) :: c1). split; [|exact H].
    exists (s1, i1, c1). split; [exact Hs1 | reflexivity].
  - destruct i as [|i]; [|discriminate H].
    exists s, O, c. split; [split; reflexivity | exact H].
  - destruct s as [|b s']; [|discriminate H].
    exists EmptyString, i, c. split; [split; reflexivity | exact H].
Qed.

Lemma matchAt_sound (r : regex) (s : string) (i j : nat) (c : caps) :
  matchAt r s i = Some (j, c) -> exists s', sem r (s, i, []) (s', j, c).
Proof.
  intros H. apply run_sound in H. destruct H as (s' & i' & c' & Hs & H).
  injection H as <- <-. exists s'. exact Hs.
Qed.

(** The match that [search] returns starts at an offset of the subject. *)
Lemma search_sound (r : regex) (subject : string) :
  forall s i st en c,
    s = drop i subject ->
    search r s i = Some (st, en, c) ->
    exists s', sem r (drop st subject, st, []) (s', en, c).
Proof.
  induction s as [|a s IH]; intros i st en c Hs H; cbn [search] in H.
  - destruct (matchAt r EmptyString i) as [[j c0]|] eqn:E; [|discriminate H].
    injection H as <- <- <-. rewrite <- Hs. eapply matchAt_sound. exact E.
  - destruct (matchAt r (String a s) i) as [[j c0]|] eqn:E.
    + injection H as <- <- <-. rewrite <- Hs. eapply matchAt_sound. exact E.
    + apply (IH (S i)); [|exact H].
      clear -Hs. revert subject Hs. induction i as [|i IHi]; intros subject Hs.
      * simpl in Hs. subst subject. reflexivity.
      * destruct subject as [|b subject]; [discriminate Hs|].
        simpl in Hs. apply IHi in Hs. exact Hs.
Qed.

Lemma drop_next (i : nat) (subject : string) (a : ascii) (s' : string) :
  drop i subject = String a s' -> drop (S i) subject = s'.
Proof.
  revert subject. induction i as [|i IH]; intros subject H.
  - simpl in H. subst subject. reflexivity.
  - destruct subject as [|b subject]; [discriminate H|]. simpl in H.
    apply IH in H. exact H.
Qed.

(** A repetition of a character class moves along the subject and leaves
    the captures alone. *)
Lemma class_star (p : ascii -> bool) (subject : string) (x y : position) :
  rtc (sem (Class p)) x y ->
  x.1.1 = drop x.1.2 subject ->
  y.1.1 = drop y.1.2 subject /\ y.2 = x.2.
Proof.
  intros H. induction H as [x|x m y Hstep _ IH]; intros Hx; [split; [exact Hx | reflexivity]|].
  destruct Hstep as (a & s' & _ & Hs & ->). cbn [fst snd] in IH.
  rewrite Hx in Hs. apply drop_next in Hs.
  destruct (IH (eq_sym Hs)) as [H1 H2]. split; assumption.
Qed.

Lemma alpha_not_dot (a : ascii) : alpha a = true -> Ascii.eqb a "." = false.
Proof.
  intros H. destruct (Ascii.eqb_spec a ".") as [->|_]; [|reflexivity].
  vm_compute in H. discriminate H.
Qed.

(** The tag name that the first-tag pattern captures is empty or begins
    with a letter: it never begins with a dot. *)
Lemma firstTag_no_dot (safeContent m0 tagName : string) (rest : list string) :
  FindStringSubmatch firstTagRegex safeContent = m0 :: tagName :: rest ->
  HasPrefix tagName "." = false.
Proof.
  unfold FindStringSubmatch.
  destruct (search firstTagRegex safeContent 0) as [[[st en] c]|] eqn:E; [|discriminate].
  intros H. cbn [submatches] in H.
  change (ngroups firstTagRegex) with 2%nat in H. cbn [seq map] in H.
  injection H as _ <- _.
  destruct (search_sound firstTagRegex safeContent safeContent 0 st en c eq_refl E)
    as [s' Hsem].
  cbn [firstTagRegex Cat sem] in Hsem.
  destruct Hsem as (x1 & [Hst ->] & x2 & Hws & x3 & (s3 & Hlt & ->) & x4 & Hg1 & x5 & Hg2
                    & (s6 & Hgt & Heq)).
  cbn [fst snd] in *.
  destruct (class_star space safeContent _ _ Hws) as [Hx2 Hc2]; [cbn; congruence|].
  cbn [fst snd] in *.
  destruct Hg1 as (m1 & (m1' & (a & s4 & Ha & Hs4 & ->) & Hal) & ->).
  cbn [fst snd] in *.
  destruct Hg2 as (m2 & Hng & ->). cbn [fst snd] in *.
  assert (Hd3 : s3 = drop (S x2.1.2) safeContent).
  { symmetry. eapply drop_next. rewrite <- Hx2. exact Hlt. }
  destruct (class_star alnum safeContent _ _ Hal) as [Hm1 Hc1].
  { cbn [fst snd]. symmetry. eapply drop_next. rewrite <- Hd3. exact Hs4. }
  destruct (class_star notGt safeContent _ _ Hng) as [_ Hcm2]. { cbn [fst snd]. exact Hm1. }
  cbn [fst snd] in *.
  injection Heq as _ _ ->. rewrite Hcm2.
  unfold capture. cbn [List.find fst Nat.eqb]. unfold slice.
  rewrite <- Hd3, Hs4.
  destruct (m1.1.2 - S x2.1.2)%nat; [reflexivity|].
  cbn [take HasPrefix]. rewrite (alpha_not_dot a Ha). reflexivity.
Qed.

(** Hence the root tag name of the structure analysis never begins with
    a dot. *)
Lemma rootTagName_no_dot (safeContent : string) :
  HasPrefix (rootTagName (analyzeRoot safeContent)) "." = false.
Proof.
  unfold analyzeRoot.
  destruct (FindStringSubmatch firstTagRegex safeContent)
    as [|m0 [|tagName [|attrs rest]]] eqn:E; try reflexivity.
  pose proof (firstTag_no_dot _ _ _ _ E) as Hno.
  destruct (MatchString (closeTagRegexFor tagName) safeContent); [|exact Hno].
  destruct (negb _); exact Hno.
Qed.

(** For every component with a root element and a style block, the
    stored style is the style text rewritten by [scopedCSS] for the root
    tag and classes that the analysis found, and that root tag name does
    not begin with a dot. *)
Lemma compiled_style_of_rooted_component
  (content scopeClass templateAttrs templateContent : string) :
  let root := analyzeRoot (maskDelimiters (TrimSpace templateContent)) in
  hasRootElement root = true ->
  styleOf content <> EmptyString ->
  snd (compileMarkup content scopeClass templateAttrs templateContent)
  = scopedCSS (styleOf content) scopeClass (rootTagName root) (rootClasses root)
      (elementTypeOf (isSingleElement root) (MatchString unwrapRegex templateAttrs)
                     (isRootContainer root)) /\
  HasPrefix (rootTagName root) "." = false.
Proof.
  intros root Hroot Hcss. split; [|apply rootTagName_no_dot].
  unfold compileMarkup. fold root. rewrite Hroot, orb_true_r.
  destruct (String.eqb_spec (styleOf content) EmptyString) as [E|_]; [contradiction|].
  reflexivity.
Qed.

End MatcherFacts.

(** ** The style of a component with a Container root *)

(** C2, as the program has it.  The selector-scoping engine, run for
    element type Container, rewrites a class selector [.name] to
    [.s.name] when [name] is one of the root's classes and to [.s .name]
    otherwise; for root classes [card] and token [s-xyz987] the style
    text of the example yields the selectors [.s-xyz987.card] and
    [.s-xyz987 .title].  The engine is run for element type Container,
    on the root tag and root classes that the analysis found, for every
    component whose markup has root kind Container, whose template block
    has no unwrap attribute and whose style block is not empty; the
    component of the example is one. *)
Theorem C2_container_class_selectors :
  (forall (s rootTag : string) (R : list string) (name : string),
      HasPrefix rootTag "." = false ->
      (In name R ->
       scopeSelector s rootTag R ElementTypeContainer ("." +:+ name)
         = "." +:+ s +:+ "." +:+ name) /\
      (~ In name R ->
       scopeSelector s rootTag R ElementTypeContainer ("." +:+ name)
         = "." +:+ s +:+ " ." +:+ name) /\
      scopeSelectors (scopeSelector "s-xyz987" rootTag ["card"] ElementTypeContainer)
                     [".card"; ".title"]
        = [".s-xyz987.card"; ".s-xyz987 .title"] /\
      scopedCSS ".card{border:1px}.title{font-weight:bold}" "s-xyz987" rootTag ["card"]
                ElementTypeContainer
        = ".s-xyz987.card {border:1px}" +:+ nl +:+
          ".s-xyz987 .title {font-weight:bold}" +:+ nl) /\
  (forall content scopeClass templateAttrs templateContent,
      rootKind templateContent = ElementTypeContainer ->
      MatchString unwrapRegex templateAttrs = false ->
      styleOf content <> EmptyString ->
      let root := analyzeRoot (maskDelimiters (TrimSpace templateContent)) in
      HasPrefix (rootTagName root) "." = false /\
      snd (compileMarkup content scopeClass templateAttrs templateContent)
      = scopeBlocks (scopeSelector scopeClass (rootTagName root) (rootClasses root)
                                   ElementTypeContainer)
                    (Split (styleOf content) "}")) /\
  (let t := compileComponent "card"
              ("<template><div class='card'><h3 class='title'>t</h3></div></template>" +:+
               "<style>.card{border:1px}.title{font-weight:bold}</style>") in
   CSS t = "." +:+ scopeClass t +:+ ".card {border:1px}" +:+ nl +:+
           "." +:+ scopeClass t +:+ " .title {font-weight:bold}" +:+ nl).
Proof.
  split; [|split].
  - intros s rootTag R name Htag.
    assert (Hsel : forall n,
               scopeSelector s rootTag R ElementTypeContainer ("." +:+ n)
               = if existsb (fun rootClass => String.eqb rootClass n) R
                 then "." +:+ s +:+ "." +:+ n else "." +:+ s +:+ " ." +:+ n).
    { intros n. unfold scopeSelector. rewrite (eqb_dot_name n rootTag Htag).
      simpl. destruct (existsb _ R); reflexivity. }
    assert (Hcard : scopeSelector "s-xyz987" rootTag ["card"] ElementTypeContainer ".card"
                    = ".s-xyz987.card").
    { unfold scopeSelector.
      rewrite (eqb_dot_name "card" rootTag Htag : String.eqb ".card" rootTag = false).
      reflexivity. }
    assert (Htitle : scopeSelector "s-xyz987" rootTag ["card"] ElementTypeContainer ".title"
                     = ".s-xyz987 .title").
    { unfold scopeSelector.
      rewrite (eqb_dot_name "title" rootTag Htag : String.eqb ".title" rootTag = false).
      reflexivity. }
    repeat split.
    + intros Hin. rewrite Hsel.
      destruct (existsb _ R) eqn:E; [reflexivity|].
      apply existsb_eqb_In in Hin. congruence.
    + intros Hnin. rewrite Hsel.
      destruct (existsb _ R) eqn:E; [|reflexivity].
      apply existsb_eqb_In in E. contradiction.
    + transitivity [scopeSelector "s-xyz987" rootTag ["card"] ElementTypeContainer ".card";
                    scopeSelector "s-xyz987" rootTag ["card"] ElementTypeContainer ".title"].
      * reflexivity.
      * rewrite Hcard, Htitle. reflexivity.
    + rewrite scopedCSS_unfold.
      transitivity
        ((scopeSelector "s-xyz987" rootTag ["card"] ElementTypeContainer ".card"
            +:+ " {border:1px}" +:+ nl) +:+
         ((scopeSelector "s-xyz987" rootTag ["card"] ElementTypeContainer ".title"
             +:+ " {font-weight:bold}" +:+ nl) +:+ "")).
      * generalize (scopeSelector "s-xyz987" rootTag ["card"] ElementTypeContainer).
        intros f. vm_compute. reflexivity.
      * rewrite Hcard, Htitle. reflexivity.
  - intros content scopeClass templateAttrs templateContent Hkind Hunwrap Hcss root.
    unfold rootKind in Hkind. fold root in Hkind.
    destruct (analyzeRoot_cases (maskDelimiters (TrimSpace templateContent)))
      as [(H1 & H2 & H3) | [(H1 & H2 & H3) | (H1 & H2 & H3)]];
      fold root in H1, H2, H3; rewrite H2, H3 in Hkind; try discriminate Hkind.
    destruct (compiled_style_of_rooted_component content scopeClass templateAttrs
                templateContent H1 Hcss) as [Hstyle Hdot].
    fold root in Hstyle, Hdot. split; [exact Hdot|].
    rewrite Hstyle, Hunwrap, H2, H3. reflexivity.
  - vm_compute. reflexivity.
Qed.

Lemma C2_container_class_selectors_witness :
  (HasPrefix "div" "." = false /\ In "card" ["card"] /\
   scopeSelector "s-xyz987" "div" ["card"] ElementTypeContainer ".card" = ".s-xyz987.card") /\
  snd (compileMarkup
         ("<template><div class='card'><h3 class='title'>t</h3></div></template>" +:+
          "<style>.card{border:1px}.title{font-weight:bold}</style>")
         "s-xyz987" "" "<div class='card'><h3 class='title'>t</h3></div>")
  = ".s-xyz987.card {border:1px}" +:+ nl +:+ ".s-xyz987 .title {font-weight:bold}" +:+ nl.
Proof.
  split.
  - split; [reflexivity|]. split; [left; reflexivity|].
    apply (proj1 (proj1 C2_container_class_selectors "s-xyz987" "div" ["card"] "card"
                    eq_refl)).
    left; reflexivity.
  - refine (eq_trans
              (proj2 (proj1 (proj2 C2_container_class_selectors)
                        ("<template><div class='card'><h3 class='title'>t</h3></div></template>" +:+
                         "<style>.card{border:1px}.title{font-weight:bold}</style>")
                        "s-xyz987" "" "<div class='card'><h3 class='title'>t</h3></div>"
                        _ _ _)) _).
    + vm_compute; reflexivity.
    + vm_compute; reflexivity.
    + vm_compute; discriminate.
    + vm_compute; reflexivity.
Defined.

(** C2 as stated fails for a template block with the unwrap attribute:
    the markup has root kind Container and [title] is not one of the
    classes of the root, but the engine is run for element type Single
    and the selector [.title] is scoped without a space. *)
Lemma C2_unwrap_container_no_space :
  let body := "<div class='card'><h3 class='title'>t</h3></div>" in
  let content := "<template unwrap>" +:+ body +:+ "</template>" +:+
                 "<style>.card{border:1px}.title{font-weight:bold}</style>" in
  let root := analyzeRoot (maskDelimiters (TrimSpace body)) in
  let t := compileComponent "card" content in
  rootKind body = ElementTypeContainer /\
  rootClasses root = ["card"] /\
  CSS t = "." +:+ scopeClass t +:+ ".card {border:1px}" +:+ nl +:+
          "." +:+ scopeClass t +:+ ".title {font-weight:bold}" +:+ nl /\
  ~ (~ In "title" (rootClasses root) ->
     Contains (CSS t) ("." +:+ scopeClass t +:+ " .title") = true).
Proof.
  intros body content root t.
  split; [vm_compute; reflexivity|].
  split; [vm_compute; reflexivity|].
  split; [vm_compute; reflexivity|].
  intros H.
  assert (Hn : ~ In "title" (rootClasses root)).
  { intros Hin. vm_compute in Hin. destruct Hin as [E|[]]. discriminate E. }
  specialize (H Hn). vm_compute in H. discriminate H.
Qed.

(** A file without a style block, or with an empty one, keeps its markup
    as it is, whatever the root and the attributes of the block. *)
Lemma compileMarkup_without_style
  (content scopeClass templateAttrs templateContent : string) :
  styleOf content = EmptyString ->
  compileMarkup content scopeClass templateAttrs templateContent
  = (TrimSpace templateContent, EmptyString).
Proof. intros H. unfold compileMarkup. rewrite H. reflexivity. Qed.

(** * Further properties of the program *)

(** ** The scope class *)

Section ScopeClassFacts.

Lemma hexDigit_lowerHex (y : Z) : 0 <= y < 16 -> lowerHex (MD5.hexDigit y) = true.
Proof.
  intros H. unfold MD5.hexDigit.
  assert (Hn : (Z.to_nat y < 16)%nat) by lia.
  destruct (Z.to_nat y) as [|n]; [reflexivity|].
  do 15 (destruct n as [|n]; [reflexivity|]). lia.
Qed.

Lemma hex_cons (x : Z) (l : list Z) :
  MD5.hex (x :: l)
  = String (MD5.hexDigit (x / 16)) (String (MD5.hexDigit (x mod 16)) (MD5.hex l)).
Proof. reflexivity. Qed.

Lemma byte_digits (x : Z) :
  lowerHex (MD5.hexDigit ((x mod 256) / 16)) = true /\
  lowerHex (MD5.hexDigit ((x mod 256) mod 16)) = true.
Proof.
  assert (0 <= x mod 256 < 256) by (apply Z.mod_pos_bound; lia).
  split; apply hexDigit_lowerHex.
  - split; [apply Z.div_pos; lia | apply Z.div_lt_upper_bound; lia].
  - apply Z.mod_pos_bound. lia.
Qed.

End ScopeClassFacts.

(** The scope class of any component name is eight bytes long: the
    marker [s-] and six lower-case hexadecimal digits. *)
Theorem generateScopeClass_format :
  forall name : string,
    exists d1 d2 d3 d4 d5 d6 : ascii,
      generateScopeClass name
      = String "s" (String "-" (String d1 (String d2 (String d3 (String d4
          (String d5 (String d6 EmptyString))))))) /\
      forallb lowerHex [d1; d2; d3; d4; d5; d6] = true.
Proof.
  intros name. unfold generateScopeClass, MD5.Sum. cbv zeta.
  destruct (fold_left MD5.block _ MD5.init) as [[[a b] c] d].
  unfold MD5.le_bytes at 1. cbn [map app].
  rewrite !hex_cons.
  destruct (byte_digits (Z.shiftr a (8 * 0))) as [H1 H2].
  destruct (byte_digits (Z.shiftr a (8 * 1))) as [H3 H4].
  destruct (byte_digits (Z.shiftr a (8 * 2))) as [H5 H6].
  eexists _, _, _, _, _, _. split; [reflexivity|].
  cbn [forallb]. rewrite H1, H2, H3, H4, H5, H6. reflexivity.
Qed.

(** ** The end of the root tag and the place of the scope class *)

Section TagEndFacts.

Lemma tagEndAt_next (char : ascii) (s : string) (d : Z) (n : nat) :
  tagEndAt (String char s) d (S n) <-> tagEndAt s (d + braceStep char) n.
Proof.
  unfold tagEndAt. simpl. fold (braceStep char).
  split; intros [H1 H2]; (split; [exact H1 | lia]).
Qed.

Lemma tagEndAt_nil (d : Z) (n : nat) : ~ tagEndAt EmptyString d n.
Proof. intros [H _]. destruct n; discriminate H. Qed.

Lemma findTagEnd_next (char : ascii) (s : string) (i d : Z) :
  (Ascii.eqb char ">" && (d =? 0)) = false ->
  findTagEnd (String char s) i d = findTagEnd s (i + 1) (d + braceStep char).
Proof.
  intros H. cbn [findTagEnd]. unfold braceStep.
  destruct (Ascii.eqb char "{") eqn:E1; [reflexivity|].
  destruct (Ascii.eqb char "}") eqn:E2; [reflexivity|].
  rewrite H, Z.add_0_r. reflexivity.
Qed.

Lemma not_tagEnd_here (char : ascii) (s : string) (d : Z) :
  (Ascii.eqb char ">" && (d =? 0)) = false -> ~ tagEndAt (String char s) d 0.
Proof.
  intros H [H1 H2]. simpl in H1, H2. injection H1 as ->.
  rewrite Z.add_0_r in H2. subst d. discriminate H.
Qed.

Lemma findTagEnd_here (char : ascii) (s : string) (i d : Z) :
  (Ascii.eqb char ">" && (d =? 0)) = true ->
  findTagEnd (String char s) i d = i /\ tagEndAt (String char s) d 0.
Proof.
  intros H. apply andb_true_iff in H. destruct H as [H1 H2].
  apply Ascii.eqb_eq in H1. apply Z.eqb_eq in H2. subst char d.
  split; [reflexivity|]. split; reflexivity.
Qed.

(** The loop returns the offset of the first [>] outside braces, counted
    from [i], or [-1] if there is none. *)
Lemma findTagEnd_spec (s : string) :
  forall i d,
    (findTagEnd s i d = -1 /\ forall n, ~ tagEndAt s d n) \/
    (exists n, findTagEnd s i d = i + Z.of_nat n /\ tagEndAt s d n /\
               forall m, (m < n)%nat -> ~ tagEndAt s d m).
Proof.
  induction s as [|char s IH]; intros i d.
  - left. split; [reflexivity | apply tagEndAt_nil].
  - destruct (Ascii.eqb char ">" && (d =? 0)) eqn:E.
    + right. exists O. destruct (findTagEnd_here char s i d E) as [H1 H2].
      split; [rewrite H1; lia|]. split; [exact H2 | intros m Hm; lia].
    + rewrite (findTagEnd_next char s i d E).
      destruct (IH (i + 1) (d + braceStep char)) as [[H1 H2]|(n & H1 & H2 & H3)].
      * left. split; [exact H1|].
        intros [|n]; [apply not_tagEnd_here; exact E|].
        rewrite tagEndAt_next. apply H2.
      * right. exists (S n). split; [rewrite H1; lia|].
        split; [apply tagEndAt_next; exact H2|].
        intros [|m] Hm; [apply not_tagEnd_here; exact E|].
        rewrite tagEndAt_next. apply H3. lia.
Qed.

Lemma tagEndAt_in_range (s : string) (d : Z) (n : nat) :
  tagEndAt s d n -> (n < len s)%nat.
Proof.
  intros [H _]. unfold len. revert n H.
  induction s as [|a s IH]; intros n H; [destruct n; discriminate H|].
  destruct n as [|n]; simpl in *; [lia|]. apply IH in H. lia.
Qed.

End TagEndFacts.

(** The loop over the markup finds the first [>] that stands outside
    braces: it returns [-1] exactly when no [>] stands at brace depth
    zero, and otherwise the least offset that holds such a [>]; the
    result is always below the length of the markup. *)
Theorem findTagEnd_first_outside_braces :
  forall html : string,
    (findTagEnd html 0 0 = -1 <-> forall n, ~ tagEndAt html 0 n) /\
    (forall n : nat,
        findTagEnd html 0 0 = Z.of_nat n <->
        tagEndAt html 0 n /\ forall m, (m < n)%nat -> ~ tagEndAt html 0 m) /\
    -1 <= findTagEnd html 0 0 < Z.of_nat (len html).
Proof.
  intros html.
  destruct (findTagEnd_spec html 0 0) as [[H1 H2]|(n & H1 & H2 & H3)].
  - split; [|split].
    + split; [intros _; exact H2 | intros _; exact H1].
    + intros n. split; [intros H; lia|]. intros [H _]. exfalso. exact (H2 n H).
    + rewrite H1. lia.
  - pose proof (tagEndAt_in_range _ _ _ H2) as Hr.
    split; [|split].
    + split; [intros H; lia|]. intros H. exfalso. exact (H n H2).
    + intros k. split.
      * intros H. assert (k = n) by lia. subst k. split; assumption.
      * intros [Hk Hleast].
        destruct (Nat.lt_trichotomy k n) as [Hlt|[->|Hgt]].
        -- exfalso. exact (H3 k Hlt Hk).
        -- rewrite H1. lia.
        -- exfalso. exact (Hleast n Hgt H2).
    + rewrite H1. lia.
Qed.

(** ** The accessors together *)

(** [paramOr] is [param] with the default put in place of nil; with a
    nil default the two are the same. *)
Theorem paramOr_is_param_with_default :
  forall (stack : list compCall) (i : Z) (d : value),
    paramOr stack i d = (if isNil (param stack i) then d else param stack i) /\
    paramOr stack i VNil = param stack i.
Proof.
  intros stack i d.
  assert (H : forall d', paramOr stack i d'
                         = if isNil (param stack i) then d' else param stack i).
  { intros d'. destruct stack as [|top below _] using rev_ind; [reflexivity|].
    rewrite paramOr_top, param_top.
    destruct ((i <? 0) || (Z.of_nat (length (Args top)) <=? i)); [reflexivity|].
    destruct (isNil (argAt (Args top) i)); reflexivity. }
  split; [apply H|].
  rewrite H. destruct (param stack i); reflexivity.
Qed.

Section InjectionFacts.

Lemma Contains_find (s sub : string) :
  Contains s sub = true <-> exists n, find s sub = Some n.
Proof.
  unfold Contains, Index. destruct (find s sub) as [n|].
  - split; [eauto|]. intros _. apply Z.leb_le. lia.
  - split; [intros H; discriminate H | intros [n H]; discriminate H].
Qed.

Lemma Contains_false (s sub : string) : Contains s sub = false <-> find s sub = None.
Proof.
  unfold Contains, Index. destruct (find s sub) as [n|].
  - split; [|intros H; discriminate H]. intros H. apply Z.leb_gt in H. lia.
  - split; reflexivity.
Qed.

Lemma drop_drop (n m : nat) (s : string) : drop m (drop n s) = drop (n + m) s.
Proof.
  revert s. induction n as [|n IH]; intros s; [reflexivity|].
  destruct s as [|a s]; simpl; [destruct m; reflexivity | apply IH].
Qed.

(** The first occurrence of [old], cut out of [s]. *)
Lemma find_cut (s old : string) (n : nat) :
  find s old = Some n ->
  s = take n s +:+ old +:+ drop (n + len old) s /\
  forall new, Replace1 s old new = take n s +:+ new +:+ drop (n + len old) s.
Proof.
  intros H. split.
  - destruct (find_Some_at _ _ _ H) as [Hp _]. apply HasPrefix_split in Hp.
    rewrite drop_drop in Hp. rewrite <- Hp. symmetry. apply take_drop.
  - intros new. unfold Replace1. rewrite H. reflexivity.
Qed.

End InjectionFacts.

(** Adding the scope class never removes or reorders markup: the result
    is the markup with one piece of text put in.  The piece goes right
    after the first [class=] followed by a double quote in the whole
    markup, else right after the first one followed by a single quote,
    else between [class=] and the braces of the first [class={{], else
    right before the first [>] outside braces; with none of these the
    markup stays as it is. *)
Theorem injectScopeClass_inserts :
  forall html scopeClass : string,
    exists pre ins post,
      html = pre +:+ post /\
      injectScopeClass html scopeClass = pre +:+ ins +:+ post /\
      ((ins = scopeClass +:+ " " /\
        (exists p, pre = p +:+ "class=" +:+ dq /\ find html ("class=" +:+ dq) = Some (len p))) \/
       (ins = scopeClass +:+ " " /\ Contains html ("class=" +:+ dq) = false /\
        (exists p, pre = p +:+ "class='" /\ find html "class='" = Some (len p))) \/
       (ins = dq +:+ scopeClass +:+ " " /\ Contains html ("class=" +:+ dq) = false /\
        Contains html "class='" = false /\
        (exists p q, pre = p +:+ "class=" /\ post = "{{" +:+ q /\
                     find html "class={{" = Some (len p))) \/
       (ins = " class=" +:+ dq +:+ scopeClass +:+ dq /\
        Contains html ("class=" +:+ dq) = false /\ Contains html "class='" = false /\
        Contains html "class={{" = false /\
        findTagEnd html 0 0 = Z.of_nat (len pre) /\ HasPrefix post ">" = true) \/
       (ins = EmptyString /\
        Contains html ("class=" +:+ dq) = false /\ Contains html "class='" = false /\
        Contains html "class={{" = false /\ findTagEnd html 0 0 = -1)).
Proof.
  intros html scopeClass. unfold injectScopeClass.
  destruct (Contains html ("class=" +:+ dq)) eqn:E1.
  { apply Contains_find in E1. destruct E1 as [n Hn].
    destruct (find_cut _ _ _ Hn) as [Hs Hr]. destruct (find_Some_at _ _ _ Hn) as [_ Hle].
    exists (take n html +:+ "class=" +:+ dq), (scopeClass +:+ " "),
           (drop (n + len ("class=" +:+ dq)) html).
    split; [rewrite Hs at 1; rewrite !append_assoc; reflexivity|].
    split; [rewrite Hr, !append_assoc; reflexivity|].
    left. split; [reflexivity|]. exists (take n html).
    split; [reflexivity|]. rewrite len_take by exact Hle. exact Hn. }
  destruct (Contains html "class='") eqn:E2.
  { apply Contains_find in E2. destruct E2 as [n Hn].
    destruct (find_cut _ _ _ Hn) as [Hs Hr]. destruct (find_Some_at _ _ _ Hn) as [_ Hle].
    exists (take n html +:+ "class='"), (scopeClass +:+ " "),
           (drop (n + len "class='") html).
    split; [rewrite Hs at 1; rewrite !append_assoc; reflexivity|].
    split; [rewrite Hr, !append_assoc; reflexivity|].
    right. left. split; [reflexivity|]. split; [reflexivity|]. exists (take n html).
    split; [reflexivity|]. rewrite len_take by exact Hle. exact Hn. }
  destruct (Contains html "class={{") eqn:E3.
  { apply Contains_find in E3. destruct E3 as [n Hn].
    destruct (find_cut _ _ _ Hn) as [Hs Hr]. destruct (find_Some_at _ _ _ Hn) as [_ Hle].
    exists (take n html +:+ "class="), (dq +:+ scopeClass +:+ " "),
           ("{{" +:+ drop (n + len "class={{") html).
    split; [rewrite Hs at 1; rewrite !append_assoc; reflexivity|].
    split; [rewrite Hr, !append_assoc; reflexivity|].
    right. right. left. split; [reflexivity|]. split; [reflexivity|].
    split; [reflexivity|]. exists (take n html), (drop (n + len "class={{") html).
    split; [reflexivity|]. split; [reflexivity|].
    rewrite len_take by exact Hle. exact Hn. }
  destruct (findTagEnd_spec html 0 0) as [[H1 H2]|(n & H1 & H2 & H3)].
  - rewrite H1. cbn [Z.eqb negb].
    exists html, EmptyString, EmptyString.
    split; [symmetry; apply append_nil_r|].
    split; [rewrite append_nil_l; symmetry; apply append_nil_r|].
    do 4 right. repeat split; reflexivity.
  - rewrite H1, Z.add_0_l.
    destruct (Z.eqb_spec (Z.of_nat n) (-1)) as [Hneg|_]; [lia|]. cbn [negb].
    rewrite Nat2Z.id.
    pose proof (tagEndAt_in_range _ _ _ H2) as Hr.
    exists (take n html), (" class=" +:+ dq +:+ scopeClass +:+ dq), (drop n html).
    split; [symmetry; apply take_drop|].
    split; [reflexivity|].
    do 3 right. left. split; [reflexivity|].
    split; [reflexivity|]. split; [reflexivity|]. split; [reflexivity|].
    split; [rewrite len_take by lia; reflexivity|].
    destruct H2 as [Hget _]. clear -Hget. revert n Hget.
    induction html as [|a s IH]; intros n Hget; [destruct n; discriminate Hget|].
    destruct n as [|n]; simpl in *.
    + injection Hget as ->. reflexivity.
    + apply IH. exact Hget.
Qed.

(** ** Named and positional arguments *)

Section MapFacts.

Lemma mapGet_app (l1 l2 : list (string * value)) (k : string) :
  mapGet (l1 ++ l2)%list k
  = match mapGet l1 k with Some v => Some v | None => mapGet l2 k end.
Proof.
  induction l1 as [|[k1 v1] l1 IH]; [reflexivity|].
  simpl. destruct (String.eqb k1 k); [reflexivity | exact IH].
Qed.

Lemma mapGet_absent (l : list (string * value)) (k : string) :
  ~ In k (map fst l) -> mapGet l k = None.
Proof.
  induction l as [|[k1 v1] l IH]; intros H; [reflexivity|].
  simpl in *. destruct (String.eqb_spec k1 k) as [E|_]; [exfalso; auto|].
  apply IH. intros Hin. apply H. right. exact Hin.
Qed.

Lemma dict_go_pairs (pairs acc : list (string * value)) :
  dict_go (dictArgs pairs) acc = Ok (rev pairs ++ acc)%list.
Proof.
  revert acc. induction pairs as [|[k v] pairs IH]; intros acc; [reflexivity|].
  cbn [dictArgs flat_map app fst snd dict_go]. fold (dictArgs pairs).
  rewrite IH. unfold mapSet. cbn [rev]. rewrite <- app_assoc. reflexivity.
Qed.

Lemma dictArgs_even (pairs : list (string * value)) :
  (length (dictArgs pairs) mod 2 = 0)%nat.
Proof.
  induction pairs as [|[k v] pairs IH]; [reflexivity|].
  cbn [dictArgs flat_map app length]. fold (dictArgs pairs).
  change (S (S (length (dictArgs pairs)))) with (2 + length (dictArgs pairs))%nat.
  rewrite <- Nat.Div0.add_mod_idemp_l. exact IH.
Qed.

Lemma dict_pairs (pairs : list (string * value)) :
  dict (dictArgs pairs) = Ok (VMap (rev pairs)).
Proof.
  unfold dict. rewrite dictArgs_even. cbn [Nat.eqb negb].
  rewrite dict_go_pairs, app_nil_r. reflexivity.
Qed.

(** Whatever the loop accepts is a list of pairs with string keys. *)
Lemma dict_go_accepts (n : nat) :
  forall values acc m,
    (length values <= n)%nat ->
    dict_go values acc = Ok m -> exists pairs, values = dictArgs pairs.
Proof.
  induction n as [|n IH]; intros values acc m Hl H.
  - destruct values; [exists []; reflexivity | simpl in Hl; lia].
  - destruct values as [|[| |key|] [|v rest]]; try discriminate H.
    + exists []. reflexivity.
    + cbn [dict_go] in H. apply IH in H; [|simpl in Hl; lia].
      destruct H as [pairs ->]. exists ((key, v) :: pairs). reflexivity.
Qed.

End MapFacts.

(** [dict] accepts exactly the argument lists that are key-value pairs
    with string keys; in the map it builds, a key has the value of the
    last pair with that key, and a key of no pair is absent. *)
Theorem dict_last_pair_wins :
  (forall pairs k v later,
      ~ In k (map fst later) ->
      exists m, dict (dictArgs (pairs ++ (k, v) :: later)) = Ok (VMap m) /\
                mapGet m k = Some v) /\
  (forall pairs k,
      ~ In k (map fst pairs) ->
      exists m, dict (dictArgs pairs) = Ok (VMap m) /\ mapGet m k = None) /\
  (forall values,
      (forall pairs, values <> dictArgs pairs) -> exists msg, dict values = Err msg).
Proof.
  split; [|split].
  - intros pairs k v later Hk. eexists. split; [apply dict_pairs|].
    rewrite rev_app_distr. cbn [rev]. rewrite <- app_assoc, mapGet_app.
    rewrite mapGet_absent.
    + cbn. rewrite String.eqb_refl. reflexivity.
    + rewrite map_rev. intros Hin. apply in_rev in Hin. exact (Hk Hin).
  - intros pairs k Hk. eexists. split; [apply dict_pairs|].
    apply mapGet_absent. rewrite map_rev. intros Hin. apply in_rev in Hin. exact (Hk Hin).
  - intros values Hno. unfold dict.
    destruct (negb (Nat.eqb (length values mod 2) 0)); [eauto|].
    destruct (dict_go values []) as [m|e] eqn:E; [|eauto].
    exfalso. destruct (dict_go_accepts (length values) values [] m (le_n _) E)
      as [pairs Hp].
    exact (Hno pairs Hp).
Qed.

Lemma dict_last_pair_wins_witness :
  exists m, dict (dictArgs ([("title", VStr "old")] ++ ("title", VStr "new") :: [("n", VInt 1)]))
            = Ok (VMap m) /\
            mapGet m "title" = Some (VStr "new").
Proof.
  apply (proj1 dict_last_pair_wins).
  intros [H|H]; [discriminate H | exact H].
Defined.

Section PositionalFacts.

Lemma decimal_inj (i j : nat) : decimal i = decimal j -> i = j.
Proof. unfold decimal. apply pretty_nat_inj. Qed.

(** A key that is no index of [args] is looked up in the map the loop
    started from. *)
Lemma positional_other (args : list value) :
  forall start acc k,
    (forall j, (j < length args)%nat -> k <> decimal (start + j)) ->
    mapGet (fold_left positional (combine (seq start (length args)) args) acc) k
    = mapGet acc k.
Proof.
  induction args as [|a rest IH]; intros start acc k Hk; [reflexivity|].
  cbn [length seq combine fold_left]. rewrite IH.
  - unfold positional, mapSet. cbn [fst snd mapGet].
    destruct (String.eqb_spec (decimal start) k) as [E|_]; [|reflexivity].
    exfalso. apply (Hk O); [simpl; lia|]. rewrite Nat.add_0_r. symmetry. exact E.
  - intros j Hj. replace (S start + j)%nat with (start + S j)%nat by lia.
    apply Hk. simpl. lia.
Qed.

Lemma positional_lookup (args : list value) :
  forall start acc i v,
    args !! i = Some v ->
    mapGet (fold_left positional (combine (seq start (length args)) args) acc)
           (decimal (start + i)) = Some v.
Proof.
  induction args as [|a rest IH]; intros start acc i v Hi; [discriminate Hi|].
  cbn [length seq combine fold_left]. destruct i as [|i].
  - injection Hi as ->. rewrite positional_other.
    + unfold positional, mapSet. cbn [fst snd mapGet].
      rewrite Nat.add_0_r, String.eqb_refl. reflexivity.
    + intros j Hj E. apply decimal_inj in E. lia.
  - replace (start + S i)%nat with (S start + i)%nat by lia.
    apply IH. exact Hi.
Qed.

End PositionalFacts.

(** The data that [comp] passes to the callee holds every positional
    argument under its decimal index, unless the only argument is a map,
    which is passed as it is. *)
Theorem compData_positional :
  (forall m, compData [VMap m] = VMap m) /\
  (forall args i v,
      (forall m, args <> [VMap m]) ->
      args !! i = Some v ->
      exists m, compData args = VMap m /\ mapGet m (decimal i) = Some v).
Proof.
  split; [reflexivity|].
  intros args i v Hmap Hi.
  assert (Hgen : exists m,
             VMap (fold_left positional (combine (seq 0 (length args)) args) []) = VMap m /\
             mapGet m (decimal i) = Some v).
  { eexists. split; [reflexivity|]. apply (positional_lookup args 0 [] i v Hi). }
  destruct args as [|a [|b rest]].
  - discriminate Hi.
  - destruct i as [|i]; [|discriminate Hi]. injection Hi as ->.
    destruct v as [| | |m]; try (eexists; split; [reflexivity|]; reflexivity).
    exfalso. exact (Hmap m eq_refl).
  - destruct a; exact Hgen.
Qed.

Lemma compData_positional_witness :
  exists m, compData [VStr "a"; VNil; VInt 7] = VMap m /\
            mapGet m (decimal 2) = Some (VInt 7).
Proof.
  apply (proj2 compData_positional [VStr "a"; VNil; VInt 7] 2%nat (VInt 7)).
  - intros m H. discriminate H.
  - reflexivity.
Defined.

(** ** What an evaluation keeps *)

Section EvaluationInvariant.

Variable render : value -> string.

(** A relation between the state before and after that every step of an
    evaluation respects. *)
Variable R : state -> state -> Prop.
Hypothesis R_refl : forall st, R st st.
Hypothesis R_trans : forall a b c, R a b -> R b c -> R a c.
Hypothesis R_mark : forall name st, R st (markUsed name st).
Hypothesis R_frame : forall call st st', R (push call st) st' -> R st (pop st').

Lemma comp_keeps (E : string -> value -> state -> outcome) :
  (forall name data st out err st', E name data st = Some (out, err, st') -> R st st') ->
  forall templateName args st out err st',
    comp E templateName args st = Some (out, err, st') -> R st st'.
Proof.
  intros HE templateName args st out err st' H. unfold comp in H.
  match type of H with
  | match ?e with _ => _ end = _ => destruct e as [[[buf [e1|]] s1]|] eqn:Ev
  end; try discriminate H.
  - injection H as <- <- <-. apply HE in Ev. apply R_frame in Ev.
    eapply R_trans; [apply R_mark | exact Ev].
  - injection H as <- <- <-. apply HE in Ev. apply R_frame in Ev.
    eapply R_trans; [apply R_mark | exact Ev].
Qed.

Lemma execActions_keeps (callComp : string -> list value -> state -> outcome) :
  (forall n a st out err st', callComp n a st = Some (out, err, st') -> R st st') ->
  forall acts data st out err st',
    execActions render callComp acts data st = Some (out, err, st') -> R st st'.
Proof.
  intros Hc acts data. induction acts as [|a rest IH]; intros st out err st' H.
  - cbn in H. injection H as <- <- <-. apply R_refl.
  - cbn [execActions] in H. destruct a as [s|e|n args|n|msg].
    + destruct (execActions render callComp rest data st) as [[[o e] s2]|] eqn:Er;
        [|discriminate H].
      injection H as <- <- <-. eapply IH; exact Er.
    + destruct (evalExpr data (compStack st) e) as [v|m].
      * destruct (execActions render callComp rest data st) as [[[o e2] s2]|] eqn:Er;
          [|discriminate H].
        injection H as <- <- <-. eapply IH; exact Er.
      * injection H as <- <- <-. apply R_refl.
    + destruct (evalArgs data (compStack st) args) as [argv|m].
      * destruct (callComp n argv st) as [[[html [e1|]] s1]|] eqn:Ec; try discriminate H.
        -- injection H as <- <- <-. eapply Hc; exact Ec.
        -- destruct (execActions render callComp rest data s1) as [[[o e2] s2]|] eqn:Er;
             [|discriminate H].
           injection H as <- <- <-.
           eapply R_trans; [eapply Hc; exact Ec | eapply IH; exact Er].
      * injection H as <- <- <-. apply R_refl.
    + cbn [register_template] in H.
      destruct (execActions render callComp rest data (markUsed n st))
        as [[[o e2] s2]|] eqn:Er; [|discriminate H].
      injection H as <- <- <-.
      eapply R_trans; [apply R_mark | eapply IH; exact Er].
    + injection H as <- <- <-. apply R_refl.
Qed.

Lemma ExecuteTemplate_keeps (fuel : nat) :
  forall name data st out err st',
    ExecuteTemplate render fuel name data st = Some (out, err, st') -> R st st'.
Proof.
  induction fuel as [|f IH]; intros name data st out err st' H.
  - discriminate H.
  - cbn [ExecuteTemplate] in H.
    destruct (masterTmpl (ts st) !! name) as [b|].
    + eapply execActions_keeps; [|exact H].
      intros n a s o e s' Hc. eapply comp_keeps; [exact IH | exact Hc].
    + injection H as <- <- <-. apply R_refl.
Qed.

End EvaluationInvariant.

Section UsedSetFacts.

Lemma marksKept_refl (st : state) : marksKept st st.
Proof. intros name H. exact H. Qed.

Lemma marksKept_trans (a b c : state) : marksKept a b -> marksKept b c -> marksKept a c.
Proof. intros H1 H2 name H. apply H2, H1, H. Qed.

Lemma marksKept_mark (name : string) (st : state) : marksKept st (markUsed name st).
Proof.
  intros n H. unfold markUsed. cbn [ts usedTemplates set_usedTemplates].
  destruct (decide (name = n)) as [->|Hne].
  - apply lookup_insert_eq.
  - rewrite lookup_insert_ne by exact Hne. exact H.
Qed.

Lemma marksKept_frame (call : compCall) (st st' : state) :
  marksKept (push call st) st' -> marksKept st (pop st').
Proof. intros H name Hn. apply (H name Hn). Qed.

Lemma marked_after_mark (name : string) (st : state) :
  usedTemplates (ts (markUsed name st)) !! name = Some true.
Proof. unfold markUsed. cbn. apply lookup_insert_eq. Qed.

End UsedSetFacts.

(** Dependency tracking: when [comp] returns, with the text of the callee
    or with an error, the callee is marked as used under its name without
    the [.html] suffix, and every name that was marked before still is. *)
Theorem comp_marks_callee :
  forall (render : value -> string) (fuel : nat) (templateName : string)
         (args : list value) (st : state) (out : string) (err : error) (st' : state),
    comp (ExecuteTemplate render fuel) templateName args st = Some (out, err, st') ->
    usedTemplates (ts st') !! TrimSuffix templateName ".html" = Some true /\
    marksKept st st'.
Proof.
  intros render fuel templateName args st out err st' H.
  assert (HE : forall name data s o e s',
             ExecuteTemplate render fuel name data s = Some (o, e, s') -> marksKept s s').
  { apply (ExecuteTemplate_keeps render marksKept marksKept_refl marksKept_trans
             marksKept_mark marksKept_frame). }
  split.
  - unfold comp in H.
    match type of H with
    | match ?e with _ => _ end = _ => destruct e as [[[buf [e1|]] s1]|] eqn:Ev
    end; try discriminate H; injection H as <- <- <-; apply HE in Ev;
      apply (Ev (TrimSuffix templateName ".html")); apply marked_after_mark.
  - exact (comp_keeps marksKept marksKept_trans marksKept_mark marksKept_frame
             _ HE _ _ _ _ _ _ H).
Qed.

Lemma comp_marks_callee_witness :
  match comp (ExecuteTemplate show_value 3) "broken.html" [] demo_state with
  | Some (_, err, st') =>
      err = Some "boom" /\
      usedTemplates (ts st') !! "broken" = Some true /\
      usedTemplates (ts st') !! "bad" = Some true
  | None => False
  end.
Proof.
  destruct (comp (ExecuteTemplate show_value 3) "broken.html" [] demo_state)
    as [[[o e] s1]|] eqn:H.
  - split; [|split].
    + vm_compute in H. injection H as _ <- _. reflexivity.
    + exact (proj1 (comp_marks_callee _ _ _ _ _ _ _ _ H)).
    + vm_compute in H. injection H as _ _ <-. vm_compute. reflexivity.
  - vm_compute in H. discriminate H.
Defined.

(** ** The name of the callee *)

Section SuffixFacts.

Lemma take_all (s : string) : take (len s) s = s.
Proof.
  unfold len. induction s as [|a s IH]; [reflexivity|]. simpl. rewrite IH. reflexivity.
Qed.

Lemma HasSuffix_app (s suffix : string) : HasSuffix (s +:+ suffix) suffix = true.
Proof.
  unfold HasSuffix. rewrite len_app.
  replace (len s + len suffix - len suffix)%nat with (len s) by lia.
  rewrite drop_app_ge, Nat.sub_diag by lia. simpl.
  rewrite String.eqb_refl, andb_true_r. apply Nat.leb_le. lia.
Qed.

Lemma TrimSuffix_app (s suffix : string) : TrimSuffix (s +:+ suffix) suffix = s.
Proof.
  unfold TrimSuffix. rewrite HasSuffix_app, len_app.
  replace (len s + len suffix - len suffix)%nat with (len s) by lia.
  rewrite take_app_le by lia. apply take_all.
Qed.

Lemma TrimSuffix_none (s suffix : string) :
  HasSuffix s suffix = false -> TrimSuffix s suffix = s.
Proof. intros H. unfold TrimSuffix. rewrite H. reflexivity. Qed.

End SuffixFacts.

(** A component may be invoked with or without the [.html] suffix: for a
    name that does not end in [.html] both calls push the same frame,
    mark the same name and evaluate the same template. *)
Theorem comp_suffix_optional :
  forall (E : string -> value -> state -> outcome) (name : string) (args : list value)
         (st : state),
    HasSuffix name ".html" = false ->
    comp E (name +:+ ".html") args st = comp E name args st.
Proof.
  intros E name args st H. unfold comp.
  rewrite TrimSuffix_app, (TrimSuffix_none name ".html" H). reflexivity.
Qed.

Lemma comp_suffix_optional_witness :
  comp (ExecuteTemplate show_value 3) ("item" +:+ ".html") [VStr "x"] demo_state
  = comp (ExecuteTemplate show_value 3) "item" [VStr "x"] demo_state.
Proof.
  apply comp_suffix_optional. reflexivity.
Defined.

(** ** A whole render *)

Section ExecuteFacts.

Variable render : value -> string.

Lemma markLayoutComps_onlyUsed (layoutContent : string) (st : state) :
  onlyUsedChanged st (markLayoutComps layoutContent st).
Proof.
  unfold markLayoutComps.
  generalize (FindAllStringSubmatch compRegex layoutContent). intros l.
  revert st. induction l as [|m l IH]; intros st; [apply onlyUsedChanged_refl|].
  cbn [fold_left].
  eapply onlyUsedChanged_trans; [|apply IH].
  destruct m as [|m0 [|compName rest]]; try apply onlyUsedChanged_refl.
  apply onlyUsedChanged_markUsed.
Qed.

Lemma resetUsed_onlyUsed (st : state) : onlyUsedChanged st (resetUsed st).
Proof. split; [reflexivity|]. eexists. reflexivity. Qed.

Lemma resetUsed_forgets (st : state) (u : gmap string bool) :
  resetUsed {| ts := set_usedTemplates (ts st) u; compStack := compStack st |}
  = resetUsed st.
Proof. reflexivity. Qed.

End ExecuteFacts.

(** Whatever [Execute] returns, the call stack is as before the call,
    the writer holds what it held followed by the new output, and of the
    template set only the used set may have changed. *)
Theorem Execute_keeps_stack_and_registry :
  forall (render : value -> string) (fuel : nat) (w name : string) (data : value)
         (st : state) (err : error) (w' : string) (st' : state),
    Execute render fuel w name data st = Some (err, w', st') ->
    compStack st' = compStack st /\
    (exists out, w' = w +:+ out) /\
    (exists used, ts st' = set_usedTemplates (ts st) used).
Proof.
  intros render fuel w name data st err w' st' H. unfold Execute in H.
  assert (Hsame : compStack st = compStack st /\
                  (exists out, w = w +:+ out) /\
                  (exists used, ts st = set_usedTemplates (ts st) used)).
  { split; [reflexivity|]. split; [exists EmptyString; symmetry; apply append_nil_r|].
    apply ts_used_refl. }
  destruct (templates (ts st) !! name) as [c|];
    [|injection H as <- <- <-; exact Hsame].
  destruct (layout (ts st)) as [lay|];
    [|injection H as <- <- <-; exact Hsame].
  pose proof (onlyUsedChanged_trans _ _ _ (resetUsed_onlyUsed st)
                (markLayoutComps_onlyUsed (layoutHTML lay) (resetUsed st))) as H0.
  destruct (ExecuteTemplate render fuel (name +:+ ".html") data
              (markLayoutComps (layoutHTML lay) (resetUsed st)))
    as [[[contentBuf [e1|]] s1]|] eqn:E1; try discriminate H.
  - injection H as <- <- <-. apply ExecuteTemplate_preserves in E1.
    destruct (onlyUsedChanged_trans _ _ _ H0 E1) as [Hs Hu].
    split; [exact Hs|]. split; [exists EmptyString; symmetry; apply append_nil_r|exact Hu].
  - apply ExecuteTemplate_preserves in E1.
    destruct (aggregate (ts s1)) as [allCSS allJS].
    destruct (layoutTmpl lay) as [b|]; [|discriminate H].
    match type of H with
    | match ?e with _ => _ end = _ => destruct e as [[[out e2] s2]|] eqn:E2
    end; [|discriminate H].
    injection H as <- <- <-.
    apply execActions_preserves in E2.
    + destruct (onlyUsedChanged_trans _ _ _ (onlyUsedChanged_trans _ _ _ H0 E1) E2)
        as [Hs Hu].
      split; [exact Hs|]. split; [exists out; reflexivity | exact Hu].
    + intros n a s o e s' Hc.
      eapply comp_preserves; [apply ExecuteTemplate_preserves | exact Hc].
Qed.

Lemma Execute_keeps_stack_and_registry_witness :
  match Execute show_value 3 "" "page" VNil
          {| ts := set_layout (set_templates (ts demo_state)
                                 {["page" := mkTemplate "page" "" "" "" None "s-0"]})
                              (Some (mkLayout "" (Some [APrint (EField "Yield")])));
             compStack := [mkCompCall [VStr "outer"] "caller"] |} with
  | Some (err, w', st') =>
      err = None /\ w' = "[<x><y>]" /\ compStack st' = [mkCompCall [VStr "outer"] "caller"]
  | None => False
  end.
Proof.
  destruct (Execute show_value 3 "" "page" VNil _) as [[[e w'] s1]|] eqn:H.
  - split; [|split].
    + vm_compute in H. injection H as <- _ _. reflexivity.
    + vm_compute in H. injection H as _ <- _. reflexivity.
    + exact (proj1 (Execute_keeps_stack_and_registry _ _ _ _ _ _ _ _ _ H)).
  - vm_compute in H. discriminate H.
Defined.

(** A render starts from an empty used set: when its two preconditions
    hold, what [Execute] returns does not depend on the names that
    earlier renders left marked. *)
Theorem Execute_forgets_earlier_marks :
  forall (render : value -> string) (fuel : nat) (w name : string) (data : value)
         (st : state) (used : gmap string bool),
    templates (ts st) !! name <> None ->
    layout (ts st) <> None ->
    Execute render fuel w name data
            {| ts := set_usedTemplates (ts st) used; compStack := compStack st |}
    = Execute render fuel w name data st.
Proof.
  intros render fuel w name data st used Ht Hl. unfold Execute.
  cbn [ts set_usedTemplates templates layout].
  destruct (templates (ts st) !! name) as [c|]; [|contradiction].
  destruct (layout (ts st)) as [lay|]; [|contradiction].
  rewrite resetUsed_forgets. reflexivity.
Qed.

Lemma Execute_forgets_earlier_marks_witness :
  let st := {| ts := set_layout (set_templates (ts demo_state)
                                   {["page" := mkTemplate "page" "" "" "" None "s-0"]})
                                (Some (mkLayout "" (Some [APrint (EField "Yield")])));
               compStack := [] |} in
  Execute show_value 3 "" "page" VNil
          {| ts := set_usedTemplates (ts st) {["stale" := true]}; compStack := compStack st |}
  = Execute show_value 3 "" "page" VNil st.
Proof.
  intros st. apply Execute_forgets_earlier_marks.
  - vm_compute. discriminate.
  - vm_compute. discriminate.
Defined.

(** ** Isolated renders *)

Section IsolatedRenderFacts.

Variable render : value -> string.
Variable Parse : string -> result body.

Lemma ParsePlain_plain (text : string) (b : body) :
  ParsePlain Parse text = Ok b -> forallb actionPlain b = true.
Proof.
  unfold ParsePlain. destruct (Parse text) as [b0|m]; [|discriminate].
  destruct (forallb actionPlain b0) eqn:E; [|discriminate].
  intros H. injection H as <-. exact E.
Qed.

(** A template that calls no internal function leaves the state as it
    is, whatever it writes. *)
Lemma plain_run_keeps_state (cc : string -> list value -> state -> outcome) (b : body) :
  forallb actionPlain b = true ->
  forall data st out err st',
    execActions render cc b data st = Some (out, err, st') -> st' = st.
Proof.
  induction b as [|a rest IH]; intros Hp data st out err st' H.
  - cbn in H. injection H as _ _ <-. reflexivity.
  - cbn [forallb] in Hp. apply andb_true_iff in Hp. destruct Hp as [Ha Hrest].
    cbn [execActions] in H. destruct a as [s|e|n args|n|msg]; try discriminate Ha.
    + destruct (execActions render cc rest data st) as [[[o e] s2]|] eqn:Er;
        [|discriminate H].
      injection H as _ _ <-. eapply IH; [exact Hrest | exact Er].
    + destruct (evalExpr data (compStack st) e) as [v|m].
      * destruct (execActions render cc rest data st) as [[[o e2] s2]|] eqn:Er;
          [|discriminate H].
        injection H as _ _ <-. eapply IH; [exact Hrest | exact Er].
      * injection H as _ _ <-. reflexivity.
    + injection H as _ _ <-. reflexivity.
Qed.

End IsolatedRenderFacts.

(** An isolated render of a file that is not in the cache either fails
    to read or parse the file and changes nothing, or caches the parsed
    template under the file name and changes nothing else: the used set,
    the call stack and the registry stay as they are, and the writer is
    only appended to. *)
Theorem ExecuteIsolated_changes_cache_only :
  forall (render : value -> string) (Parse : string -> result body) (fs : files)
         (w filename : string) (data : value) (st : state)
         (err : error) (w' : string) (st' : state),
    isolatedCache (ts st) !! filename = None ->
    ExecuteIsolated render Parse fs w filename data st = Some (err, w', st') ->
    (err <> None /\ w' = w /\ st' = st /\
     (fs !! filename = None \/
      exists content msg, fs !! filename = Some content /\
                          ParsePlain Parse (isolatedSource content) = Err msg)) \/
    (exists content parsed out,
        fs !! filename = Some content /\
        ParsePlain Parse (isolatedSource content) = Ok parsed /\
        st' = withCached st filename parsed /\ w' = w +:+ out).
Proof.
  intros render Parse fs w filename data st err w' st' Hc H.
  unfold ExecuteIsolated in H. rewrite Hc in H.
  destruct (fs !! filename) as [content|] eqn:Ef.
  - destruct (ParsePlain Parse (isolatedSource content)) as [parsed|msg] eqn:Ep.
    + right. fold (withCached st filename parsed) in H.
      match type of H with
      | match ?e with _ => _ end = _ => destruct e as [[[out e1] s1]|] eqn:Er
      end; [|discriminate H].
      injection H as <- <- <-.
      apply plain_run_keeps_state in Er; [|eapply ParsePlain_plain; exact Ep].
      subst s1. exists content, parsed, out.
      split; [reflexivity|]. split; [exact Ep|]. split; reflexivity.
    + left. injection H as <- <- <-.
      split; [discriminate|]. split; [reflexivity|]. split; [reflexivity|].
      right. exists content, msg. split; [reflexivity | exact Ep].
  - left. injection H as <- <- <-.
    split; [discriminate|]. split; [reflexivity|]. split; [reflexivity|]. left. reflexivity.
Qed.

Lemma ExecuteIsolated_changes_cache_only_witness :
  exists content parsed out,
    ({["f.html" := "hello"]} : files) !! "f.html" = Some content /\
    ParsePlain literalParse (isolatedSource content) = Ok parsed /\
    withCached demo_state "f.html" [AText "hello"] = withCached demo_state "f.html" parsed /\
    "hello" = "" +:+ out.
Proof.
  destruct (ExecuteIsolated_changes_cache_only show_value literalParse
              {["f.html" := "hello"]} "" "f.html" VNil demo_state
              None "hello" (withCached demo_state "f.html" [AText "hello"]))
    as [(H & _)|H].
  - vm_compute. reflexivity.
  - vm_compute. reflexivity.
  - exfalso. apply H. reflexivity.
  - exact H.
Defined.

(** The cache is never refreshed: once a file has been parsed, later
    isolated renders of the same name use the cached template whatever
    the file system holds then, also when the file has changed or is
    gone. *)
Theorem ExecuteIsolated_serves_cached_template :
  forall (render : value -> string) (Parse : string -> result body) (fs fs' : files)
         (w filename content : string) (data : value) (st : state) (parsed : body)
         (err : error) (w' : string) (st' : state),
    isolatedCache (ts st) !! filename = None ->
    fs !! filename = Some content ->
    ParsePlain Parse (isolatedSource content) = Ok parsed ->
    ExecuteIsolated render Parse fs w filename data st = Some (err, w', st') ->
    forall w2 data2,
      ExecuteIsolated render Parse fs' w2 filename data2 st'
      = match execActions render
                (fun _ _ s => Some (EmptyString, Some undefinedFunction, s))
                parsed data2 st' with
        | Some (out, err2, st2) => Some (err2, w2 +:+ out, st2)
        | None => None
        end.
Proof.
  intros render Parse fs fs' w filename content data st parsed err w' st'
         Hc Hf Hp H w2 data2.
  pose proof (ExecuteIsolated_fills_cache render Parse fs w filename content data st
                parsed err w' st' Hc Hf Hp H) as Hcached.
  unfold ExecuteIsolated. rewrite Hcached. reflexivity.
Qed.

Lemma ExecuteIsolated_serves_cached_template_witness :
  ExecuteIsolated show_value literalParse ∅ "" "f.html" VNil
                  (withCached demo_state "f.html" [AText "hello"])
  = Some (None, "hello", withCached demo_state "f.html" [AText "hello"]).
Proof.
  rewrite (ExecuteIsolated_serves_cached_template show_value literalParse
             {["f.html" := "hello"]} ∅ "" "f.html" "hello" VNil demo_state
             [AText "hello"] None "hello" (withCached demo_state "f.html" [AText "hello"])).
  - vm_compute. reflexivity.
  - vm_compute. reflexivity.
  - vm_compute. reflexivity.
  - vm_compute. reflexivity.
  - vm_compute. reflexivity.
Defined.

(** ** The styles and scripts of a render *)

Section AggregateFacts.

Lemma fold_left_agree {A B : Type} (f g : A -> B -> A) (l : list B) (a : A) :
  (forall x, In x l -> forall acc, f acc x = g acc x) ->
  fold_left f l a = fold_left g l a.
Proof.
  revert a. induction l as [|x l IH]; intros a H; [reflexivity|].
  cbn [fold_left]. rewrite (H x (or_introl eq_refl)).
  apply IH. intros y Hy. apply H. right. exact Hy.
Qed.

End AggregateFacts.

(** Only used components contribute: two registries with the same used
    set and the same components under the used names give the same
    aggregated style and script, whatever else they hold. *)
Theorem aggregate_ignores_unused :
  forall t1 t2 : TemplateSet,
    usedTemplates t1 = usedTemplates t2 ->
    (forall name, usedTemplates t1 !! name <> None ->
                  templates t1 !! name = templates t2 !! name) ->
    aggregate t1 = aggregate t2.
Proof.
  intros t1 t2 Hu Ht. unfold aggregate. rewrite <- Hu.
  apply fold_left_agree. intros [name flag] Hin [allCSS allJS]. cbn [fst].
  rewrite Ht; [reflexivity|].
  apply list_elem_of_In, elem_of_map_to_list in Hin. rewrite Hin. discriminate.
Qed.

Lemma aggregate_ignores_unused_witness :
  aggregate (set_usedTemplates
               (set_templates (NewTemplateSet "layout")
                  {["a" := mkTemplate "a" "" ".s a{}" "f()" None "s-0"]})
               {["a" := true]})
  = aggregate (set_usedTemplates
                 (set_templates (NewTemplateSet "layout")
                    (<["h" := mkTemplate "h" "" ".s h{}" "g()" None "s-1"]>
                       {["a" := mkTemplate "a" "" ".s a{}" "f()" None "s-0"]}))
                 {["a" := true]}).
Proof.
  apply aggregate_ignores_unused; [reflexivity|].
  intros name H. cbn [set_usedTemplates set_templates usedTemplates templates] in *.
  destruct (decide (name = "a")) as [->|Hne].
  - vm_compute. reflexivity.
  - exfalso. apply H. apply lookup_singleton_ne. congruence.
Defined.

(** ** The registry *)

Section RegistryFacts.

Lemma NewTemplateSet_consistent (layoutName : string) :
  consistent (NewTemplateSet layoutName).
Proof.
  intros name. cbn. split; [split; intros _; apply lookup_empty|].
  intros c H. rewrite lookup_empty in H. discriminate H.
Qed.

Lemma store_consistent (t : TemplateSet) (c : Template) :
  consistent t -> consistent (store t c).
Proof.
  intros Ht name. unfold store. cbn [templates templateHTML].
  destruct (decide (Name c = name)) as [<-|Hne].
  - rewrite !lookup_insert_eq. split; [split; intros H; discriminate H|].
    intros c' H. injection H as <-. split; reflexivity.
  - rewrite !lookup_insert_ne by exact Hne. apply Ht.
Qed.

Lemma set_layout_consistent (t : TemplateSet) (l : option Layout) :
  consistent t -> consistent (set_layout t l).
Proof. intros Ht name. apply Ht. Qed.

Lemma parseLayoutFile_cases (t : TemplateSet) (content : string) :
  snd (parseLayoutFile t content) = t \/
  exists l, snd (parseLayoutFile t content) = set_layout t (Some l).
Proof.
  rewrite parseLayoutFile_find.
  destruct (find content "</head>") as [h|]; [|left; reflexivity].
  destruct (find (insertAt content h styleSlot) "</body>") as [b|]; [|left; reflexivity].
  right. eexists. reflexivity.
Qed.

Lemma parseFile_consistent (fs : files) (t : TemplateSet) (filename : string) :
  consistent t -> consistent (snd (parseFile fs t filename)).
Proof.
  intros Ht. unfold parseFile. destruct (fs !! filename) as [content|]; [|exact Ht].
  destruct (String.eqb (baseName filename) (layoutName t)).
  - destruct (parseLayoutFile_cases t content) as [->|[l ->]];
      [exact Ht | apply set_layout_consistent; exact Ht].
  - apply store_consistent. exact Ht.
Qed.

Lemma parseFile_layoutName (fs : files) (t : TemplateSet) (filename : string) :
  layoutName (snd (parseFile fs t filename)) = layoutName t.
Proof.
  unfold parseFile. destruct (fs !! filename) as [content|]; [|reflexivity].
  destruct (String.eqb (baseName filename) (layoutName t)); [|reflexivity].
  destruct (parseLayoutFile_cases t content) as [->|[l ->]]; reflexivity.
Qed.

Lemma parseFiles_keeps (fs : files) (dir : string) (fileNames : list string) :
  forall t found,
    consistent t ->
    consistent (parseFiles fs dir fileNames t found).1.2 /\
    layoutName (parseFiles fs dir fileNames t found).1.2 = layoutName t.
Proof.
  induction fileNames as [|fileName rest IH]; intros t found Ht; [split; [exact Ht|reflexivity]|].
  cbn [parseFiles]. destruct (isTemplateFile fileName); [|apply IH; exact Ht].
  pose proof (parseFile_consistent fs t (dir +:+ "/" +:+ fileName) Ht) as Hc.
  pose proof (parseFile_layoutName fs t (dir +:+ "/" +:+ fileName)) as Hn.
  destruct (parseFile fs t (dir +:+ "/" +:+ fileName)) as [[err|] t'];
    cbn [fst snd] in *.
  - split; [exact Hc | exact Hn].
  - destruct (IH t' (if String.eqb (TrimSuffix fileName (Filepath.Ext fileName))
                                  (layoutName t) then true else found) Hc) as [H1 H2].
    split; [exact H1 | congruence].
Qed.

Lemma parseDirsPass1_keeps (ls : gmap string (list string)) (fs : files) (dirs : list string) :
  forall t found,
    consistent t ->
    consistent (parseDirsPass1 ls fs dirs t found).1.2 /\
    layoutName (parseDirsPass1 ls fs dirs t found).1.2 = layoutName t.
Proof.
  induction dirs as [|dir rest IH]; intros t found Ht; [split; [exact Ht|reflexivity]|].
  cbn [parseDirsPass1]. destruct (ls !! dir) as [fileNames|]; [|split; [exact Ht|reflexivity]].
  destruct (parseFiles_keeps fs dir fileNames t found Ht) as [Hc Hn].
  destruct (parseFiles fs dir fileNames t found) as [[[err|] t'] found'];
    cbn [fst snd] in *.
  - split; [exact Hc | exact Hn].
  - destruct (IH t' found' Hc) as [H1 H2]. split; [exact H1 | congruence].
Qed.

Lemma compileComponent_Name (name content : string) :
  Name (compileComponent name content) = name.
Proof.
  unfold compileComponent.
  destruct (match FindStringSubmatch htmlRegex content with
            | _ :: templateAttrs :: templateContent :: _ =>
                compileMarkup content (generateScopeClass name) templateAttrs templateContent
            | _ => (EmptyString, EmptyString)
            end) as [html css].
  reflexivity.
Qed.

End RegistryFacts.

(** Reading a component file registers the component under the base
    name of the file, replacing an earlier one of that name, and never
    fails, whatever the file holds; a file that cannot be read gives an
    error and no change; in every case the two maps of the registry
    stay in agreement. *)
Theorem parseFile_registers_under_base_name :
  forall (fs : files) (t : TemplateSet) (filename : string),
    consistent t ->
    consistent (snd (parseFile fs t filename)) /\
    (fs !! filename = None -> exists msg, parseFile fs t filename = (Some msg, t)) /\
    (forall content,
        fs !! filename = Some content ->
        baseName filename <> layoutName t ->
        let c := compileComponent (baseName filename) content in
        let t' := snd (parseFile fs t filename) in
        fst (parseFile fs t filename) = None /\
        templates t' !! baseName filename = Some c /\
        templateHTML t' !! baseName filename = Some (HTML c) /\
        layout t' = layout t /\
        forall other, other <> baseName filename ->
                      templates t' !! other = templates t !! other /\
                      templateHTML t' !! other = templateHTML t !! other).
Proof.
  intros fs t filename Ht. split; [apply parseFile_consistent; exact Ht|]. split.
  - intros Hf. unfold parseFile. rewrite Hf. eauto.
  - intros content Hf Hne c t'. subst t'. unfold parseFile. rewrite Hf.
    destruct (String.eqb_spec (baseName filename) (layoutName t)) as [E|_];
      [contradiction|].
    subst c. cbn [fst snd store templates templateHTML layout].
    rewrite !compileComponent_Name.
    rewrite !lookup_insert_eq. repeat split; try reflexivity.
    + rewrite lookup_insert_ne by congruence. reflexivity.
    + rewrite lookup_insert_ne by congruence. reflexivity.
Qed.

Lemma parseFile_registers_under_base_name_witness :
  let fs : files := {["components/card.html" := "<template><b>x</b></template>"]} in
  let t' := snd (parseFile fs (NewTemplateSet "layout") "components/card.html") in
  fst (parseFile fs (NewTemplateSet "layout") "components/card.html") = None /\
  templates t' !! "card"
  = Some (compileComponent "card" "<template><b>x</b></template>").
Proof.
  intros fs t'.
  destruct (proj2 (proj2 (parseFile_registers_under_base_name fs (NewTemplateSet "layout")
                            "components/card.html"
                            (NewTemplateSet_consistent "layout")))
              "<template><b>x</b></template>") as (H1 & H2 & _).
  - vm_compute. reflexivity.
  - vm_compute. discriminate.
  - split; [exact H1 | exact H2].
Defined.

(** ** [ParseDirs] as a whole *)

Section ParseDirsFacts.

Variable Parse : string -> result body.

Lemma set_tmpl_fields (c : Template) (b : option body) :
  Name (set_tmpl c b) = Name c /\ HTML (set_tmpl c b) = HTML c.
Proof. split; reflexivity. Qed.

(** The second pass keeps the names and markups of the registry, keeps
    what is compiled, and compiles every entry it is given. *)
Lemma parseDirsPass2_spec (entries : list (string * string)) :
  forall t t',
    parseDirsPass2 Parse entries t = (None, t') ->
    layout t' = layout t /\
    templateHTML t' = templateHTML t /\
    (forall k, masterTmpl t !! k <> None -> masterTmpl t' !! k <> None) /\
    (forall n h, In (n, h) entries -> masterTmpl t' !! templateNameOf n <> None) /\
    (forall n, templates t' !! n = None <-> templates t !! n = None) /\
    (forall n c', templates t' !! n = Some c' ->
                  exists c, templates t !! n = Some c /\ Name c' = Name c /\
                            HTML c' = HTML c).
Proof.
  induction entries as [|[name html] rest IH]; intros t t' H.
  - cbn in H. injection H as <-.
    split; [reflexivity|]. split; [reflexivity|]. split; [auto|].
    split; [intros n h []|]. split; [reflexivity|].
    intros n c' Hc. exists c'. split; [exact Hc|]. split; reflexivity.
  - cbn [parseDirsPass2] in H. fold (templateNameOf name) in H.
    destruct (Parse ("{{_register_template " +:+ dq +:+ name +:+ dq +:+ "}}" +:+ html))
      as [b|e]; [|discriminate H].
    apply IH in H. cbn [layout templateHTML masterTmpl templates set_masterTmpl
                           set_templates] in H.
    destruct H as (H1 & H2 & H3 & H4 & H5 & H6).
    split; [exact H1|]. split; [exact H2|]. split; [|split; [|split]].
    + intros k Hk. apply H3.
      destruct (decide (templateNameOf name = k)) as [<-|Hne].
      * rewrite lookup_insert_eq. discriminate.
      * rewrite lookup_insert_ne by exact Hne. exact Hk.
    + intros n h [E|Hin].
      * injection E as <- <-. apply H3. rewrite lookup_insert_eq. discriminate.
      * eapply H4. exact Hin.
    + intros n. rewrite H5. rewrite lookup_alter.
      destruct (decide (name = n)) as [->|_]; [|reflexivity].
      destruct (templates t !! n); split; intros Hx; try discriminate Hx; reflexivity.
    + intros n c' Hc. destruct (H6 n c' Hc) as (c & Hc1 & Hn & Hh).
      rewrite lookup_alter in Hc1.
      destruct (decide (name = n)) as [->|_].
      * destruct (templates t !! n) as [c0|]; [|discriminate Hc1].
        cbn in Hc1. injection Hc1 as <-. exists c0.
        split; [reflexivity|]. split; [exact Hn | exact Hh].
      * exists c. split; [exact Hc1|]. split; [exact Hn | exact Hh].
Qed.

Lemma pass2_consistent (t t' : TemplateSet) (entries : list (string * string)) :
  consistent t -> parseDirsPass2 Parse entries t = (None, t') -> consistent t'.
Proof.
  intros Ht H. destruct (parseDirsPass2_spec entries t t' H) as (_ & H2 & _ & _ & H5 & H6).
  intros n. rewrite H2. split.
  - rewrite H5. apply Ht.
  - intros c' Hc. destruct (H6 n c' Hc) as (c & Hc1 & Hn & Hh).
    destruct (proj2 (Ht n) c Hc1) as [Hname Hhtml]. split; congruence.
Qed.

(** The flag of the first pass is raised by a template file named after
    the layout only. *)
Lemma parseFiles_found (fs : files) (dir : string) (fileNames : list string) :
  forall t found,
    (parseFiles fs dir fileNames t found).2 = true ->
    found = true \/
    exists fileName, In fileName fileNames /\ isTemplateFile fileName = true /\
                     TrimSuffix fileName (Filepath.Ext fileName) = layoutName t.
Proof.
  induction fileNames as [|fileName rest IH]; intros t found H; [left; exact H|].
  cbn [parseFiles] in H. destruct (isTemplateFile fileName) eqn:Et.
  - pose proof (parseFile_layoutName fs t (dir +:+ "/" +:+ fileName)) as Hn.
    destruct (String.eqb_spec (TrimSuffix fileName (Filepath.Ext fileName)) (layoutName t))
      as [E|Hne].
    + right. exists fileName. split; [left; reflexivity|]. split; [exact Et | exact E].
    + destruct (parseFile fs t (dir +:+ "/" +:+ fileName)) as [[err|] t1];
        cbn [fst snd] in *.
      * left. exact H.
      * apply IH in H. destruct H as [H|(f & Hin & Hf & Hname)]; [left; exact H|].
        right. exists f. split; [right; exact Hin|]. split; [exact Hf | congruence].
  - apply IH in H. destruct H as [H|(f & Hin & Hf & Hname)]; [left; exact H|].
    right. exists f. split; [right; exact Hin|]. split; [exact Hf | exact Hname].
Qed.

Lemma parseDirsPass1_found (ls : gmap string (list string)) (fs : files)
  (dirs : list string) :
  forall t found,
    consistent t ->
    (parseDirsPass1 ls fs dirs t found).2 = true ->
    found = true \/
    exists dir fileNames fileName,
      In dir dirs /\ ls !! dir = Some fileNames /\ In fileName fileNames /\
      isTemplateFile fileName = true /\
      TrimSuffix fileName (Filepath.Ext fileName) = layoutName t.
Proof.
  induction dirs as [|dir rest IH]; intros t found Ht H; [left; exact H|].
  cbn [parseDirsPass1] in H. destruct (ls !! dir) as [fileNames|] eqn:El; [|left; exact H].
  pose proof (parseFiles_found fs dir fileNames t found) as Hf.
  destruct (parseFiles_keeps fs dir fileNames t found Ht) as [Hc Hn].
  destruct (parseFiles fs dir fileNames t found) as [[[err|] t1] found1];
    cbn [fst snd] in *.
  - destruct (Hf H) as [Hx|(f & Hin & Hft & Hname)]; [left; exact Hx|].
    right. exists dir, fileNames, f.
    split; [left; reflexivity|]. repeat split; assumption.
  - apply (IH t1 found1 Hc) in H.
    destruct H as [H|(d & fl & f & Hd & Hl & Hin & Hft & Hname)].
    + destruct (Hf H) as [Hx|(f & Hin & Hft & Hname)]; [left; exact Hx|].
      right. exists dir, fileNames, f.
      split; [left; reflexivity|]. repeat split; assumption.
    + right. exists d, fl, f. split; [right; exact Hd|].
      repeat split; try assumption. congruence.
Qed.

End ParseDirsFacts.

(** After a successful [ParseDirs] on a registry whose maps agree (a new
    one does), the layout is compiled, the call stack of the new closures
    is empty, and the markup of every registered component is compiled
    under its template name. *)
Theorem ParseDirs_compiles_every_component :
  forall (Parse : string -> result body) (ls : gmap string (list string)) (fs : files)
         (dirs : list string) (st st' : state),
    consistent (ts st) ->
    ParseDirs Parse ls fs dirs st = Some (None, st') ->
    compStack st' = [] /\
    (exists lay b, layout (ts st') = Some lay /\ layoutTmpl lay = Some b) /\
    consistent (ts st') /\
    (forall name, templates (ts st') !! name <> None ->
                  masterTmpl (ts st') !! templateNameOf name <> None).
Proof.
  intros Parse ls fs dirs st st' Ht H. unfold ParseDirs in H.
  destruct (parseDirsPass1_keeps ls fs dirs (ts st) false Ht) as [Hc1 _].
  destruct (parseDirsPass1 ls fs dirs (ts st) false) as [[[err|] t1] [|]];
    cbn [fst snd] in *; try discriminate H.
  destruct (parseDirsPass2 Parse (map_to_list (templateHTML t1)) t1) as [[err|] t2] eqn:E2;
    [discriminate H|].
  pose proof (pass2_consistent Parse t1 t2 _ Hc1 E2) as Hc2.
  destruct (parseDirsPass2_spec Parse _ t1 t2 E2) as (_ & H2 & _ & H4 & H5 & _).
  destruct (layout t2) as [lay|]; [|discriminate H].
  destruct (ParseLayout Parse (layoutHTML lay)) as [b|e]; [|discriminate H].
  injection H as <-. cbn [compStack ts].
  split; [reflexivity|]. split; [eexists _, b; split; reflexivity|].
  split; [apply set_layout_consistent; exact Hc2|].
  intros name Hn. cbn [set_layout templates masterTmpl] in *.
  assert (Hh : templateHTML t1 !! name <> None).
  { intros Hnone. apply Hn. apply H5. apply (Hc1 name). exact Hnone. }
  destruct (templateHTML t1 !! name) as [h|] eqn:Eh; [|contradiction].
  apply (H4 name h). apply list_elem_of_In, elem_of_map_to_list. exact Eh.
Qed.

Lemma ParseDirs_compiles_every_component_witness :
  let ls : gmap string (list string) := {["t" := ["card.html"; "layout.html"]]} in
  let fs : files :=
    <["t/card.html" := "<template><b>x</b></template>"]>
      {["t/layout.html" := "<head></head><body></body>"]} in
  match ParseDirs literalParse ls fs ["t"]
          {| ts := NewTemplateSet "layout"; compStack := [mkCompCall [] "old"] |} with
  | Some (err, st') =>
      err = None /\ compStack st' = [] /\
      masterTmpl (ts st') !! templateNameOf "card" <> None
  | None => False
  end.
Proof.
  intros ls fs.
  destruct (ParseDirs literalParse ls fs ["t"] _) as [[err st']|] eqn:H.
  - assert (He : err = None) by (vm_compute in H; injection H as <- _; reflexivity).
    subst err.
    destruct (ParseDirs_compiles_every_component literalParse ls fs ["t"]
                {| ts := NewTemplateSet "layout"; compStack := [mkCompCall [] "old"] |}
                st' (NewTemplateSet_consistent "layout") H) as (H1 & _ & _ & H4).
    split; [reflexivity|]. split; [exact H1|]. apply H4.
    vm_compute in H. injection H as <-. vm_compute. discriminate.
  - vm_compute in H. discriminate H.
Defined.

(** Without a template file named after the layout in the listed
    directories, [ParseDirs] returns an error. *)
Theorem ParseDirs_needs_layout_file :
  forall (Parse : string -> result body) (ls : gmap string (list string)) (fs : files)
         (dirs : list string) (st : state),
    consistent (ts st) ->
    noLayoutFile ls dirs (layoutName (ts st)) ->
    exists msg st', ParseDirs Parse ls fs dirs st = Some (Some msg, st').
Proof.
  intros Parse ls fs dirs st Ht Hno. unfold ParseDirs.
  pose proof (parseDirsPass1_found ls fs dirs (ts st) false Ht) as Hf.
  destruct (parseDirsPass1 ls fs dirs (ts st) false) as [[[err|] t1] found];
    cbn [fst snd] in *; [eauto|].
  destruct found; [|eauto].
  exfalso. destruct (Hf eq_refl) as [Hx|(d & fl & f & Hd & Hl & Hin & Hft & Hname)];
    [discriminate Hx|].
  exact (Hno d fl f Hd Hl Hin Hft Hname).
Qed.

Lemma ParseDirs_needs_layout_file_witness :
  exists msg st',
    ParseDirs literalParse {["t" := ["card.html"; "notes.txt"]]}
              {["t/card.html" := "<template><b>x</b></template>"]} ["t"]
              {| ts := NewTemplateSet "layout"; compStack := [] |}
    = Some (Some msg, st').
Proof.
  apply ParseDirs_needs_layout_file.
  - apply NewTemplateSet_consistent.
  - intros dir fileNames fileName Hd Hl Hin Hft.
    destruct Hd as [<-|[]]. rewrite lookup_singleton_eq in Hl. injection Hl as <-.
    destruct Hin as [<-|[<-|[]]].
    + vm_compute. discriminate.
    + vm_compute in Hft. discriminate Hft.
Defined.

(** ** Style sheets, rule by rule *)

Section RuleFacts.

Lemma split_char_app (c : ascii) (x y : string) :
  forall cur,
    split_go (String c EmptyString) (x +:+ String c y) O cur
    = (split_go (String c EmptyString) x O cur
       ++ split_go (String c EmptyString) y O EmptyString)%list.
Proof.
  induction x as [|a x IH]; intros cur.
  - rewrite append_nil_l. cbn. rewrite Ascii.eqb_refl. reflexivity.
  - rewrite append_cons. cbn. destruct (Ascii.eqb a c).
    + rewrite IH. reflexivity.
    + apply IH.
Qed.

Lemma Split_char_app (c : ascii) (x y : string) :
  Split (x +:+ String c y) (String c EmptyString)
  = (Split x (String c EmptyString) ++ Split y (String c EmptyString))%list.
Proof. apply split_char_app. Qed.

Lemma scopeBlocks_app (f : string -> string) (l1 l2 : list string) :
  scopeBlocks f (l1 ++ l2)%list = scopeBlocks f l1 +:+ scopeBlocks f l2.
Proof.
  induction l1 as [|block rest IH]; [symmetry; apply append_nil_l|].
  cbn. destruct (scopeBlock f block) as [out|]; [|exact IH].
  rewrite IH. symmetry. apply append_assoc.
Qed.

Lemma find_char_cons (a c : ascii) (s : string) :
  find (String a s) (String c EmptyString) = None <->
  a <> c /\ find s (String c EmptyString) = None.
Proof.
  cbn. destruct (Ascii.eqb_spec a c) as [->|Hne].
  - destruct s; split; try discriminate; intros [H _]; contradiction.
  - destruct (find s (String c EmptyString)) as [n|].
    + split; [discriminate | intros [_ H]; discriminate H].
    + split; [intros _; split; [exact Hne | reflexivity] | reflexivity].
Qed.

Lemma find_char_snoc (c a : ascii) (cur : string) :
  find cur (String c EmptyString) = None -> a <> c ->
  find (cur +:+ String a EmptyString) (String c EmptyString) = None.
Proof.
  intros H Hne. induction cur as [|b cur IH].
  - rewrite append_nil_l. apply find_char_cons. split; [exact Hne | reflexivity].
  - rewrite append_cons. apply find_char_cons. apply find_char_cons in H.
    destruct H as [Hb H]. split; [exact Hb | exact (IH H)].
Qed.

(** No piece of a text without [c] holds [c], whatever it is split at. *)
Lemma split_pieces_without (c d : ascii) (s : string) :
  forall cur,
    find cur (String c EmptyString) = None ->
    find s (String c EmptyString) = None ->
    Forall (fun piece => find piece (String c EmptyString) = None)
           (split_go (String d EmptyString) s O cur).
Proof.
  induction s as [|a s IH]; intros cur Hcur Hs.
  - cbn. constructor; [exact Hcur | constructor].
  - apply find_char_cons in Hs. destruct Hs as [Hne Hs].
    cbn. destruct (Ascii.eqb a d).
    + constructor; [exact Hcur|]. apply IH; [reflexivity | exact Hs].
    + apply IH; [|exact Hs]. apply find_char_snoc; assumption.
Qed.

Lemma scopeBlocks_without_brace (f : string -> string) (l : list string) :
  Forall (fun piece => find piece "{" = None) l -> scopeBlocks f l = EmptyString.
Proof.
  induction 1 as [|block rest Hb _ IH]; [reflexivity|].
  cbn. unfold scopeBlock.
  destruct (String.eqb (TrimSpace block) EmptyString); [exact IH|].
  unfold SplitN2. rewrite Hb. exact IH.
Qed.

End RuleFacts.

(** Rules are scoped one by one: the scoped form of a style sheet that is
    cut after any closing brace is the scoped form of the part before the
    brace followed by that of the part behind it.  This holds for both
    ways of scoping. *)
Theorem scopedCSS_rule_by_rule :
  forall (x y scopeClass rootElementTag : string) (rootClasses : list string)
         (elementType : Z),
    scopedCSS (x +:+ "}" +:+ y) scopeClass rootElementTag rootClasses elementType
    = scopedCSS x scopeClass rootElementTag rootClasses elementType
      +:+ scopedCSS y scopeClass rootElementTag rootClasses elementType
    /\
    containedScopedCSS (x +:+ "}" +:+ y) scopeClass
    = containedScopedCSS x scopeClass +:+ containedScopedCSS y scopeClass.
Proof.
  intros x y scopeClass rootElementTag rootClasses elementType.
  unfold scopedCSS, containedScopedCSS.
  change ("}" +:+ y) with (String "}" y).
  rewrite Split_char_app, !scopeBlocks_app. split; reflexivity.
Qed.

(** A style text without an opening brace has no rule: both ways of
    scoping give the empty text for it. *)
Theorem scopedCSS_without_rules :
  forall (css scopeClass rootElementTag : string) (rootClasses : list string)
         (elementType : Z),
    Contains css "{" = false ->
    scopedCSS css scopeClass rootElementTag rootClasses elementType = EmptyString /\
    containedScopedCSS css scopeClass = EmptyString.
Proof.
  intros css scopeClass rootElementTag rootClasses elementType H.
  apply Contains_false in H.
  unfold scopedCSS, containedScopedCSS.
  split; apply scopeBlocks_without_brace; apply split_pieces_without;
    solve [reflexivity | exact H].
Qed.

Lemma scopedCSS_without_rules_witness :
  Contains "color: red; } p" "{" = false /\
  scopedCSS "color: red; } p" "s-1a2b3c" "div" ["box"] ElementTypeNormal = EmptyString /\
  containedScopedCSS "color: red; } p" "s-1a2b3c" = EmptyString.
Proof.
  split; [reflexivity|].
  apply (scopedCSS_without_rules "color: red; } p" "s-1a2b3c" "div" ["box"]
           ElementTypeNormal).
  reflexivity.
Defined.

(** ** The components of the layout *)

Section PrescanFacts.

Lemma markMatches_marks (ms : list (list string)) :
  forall st st',
    st' = fold_left (fun st m =>
                       match m with
                       | _ :: compName :: _ => markUsed (TrimSuffix compName ".html") st
                       | _ => st
                       end) ms st ->
    marksKept st st' /\
    forall whole compName rest,
      In (whole :: compName :: rest) ms ->
      usedTemplates (ts st') !! TrimSuffix compName ".html" = Some true.
Proof.
  induction ms as [|m ms IH]; intros st st' E.
  - cbn in E. subst st'. split; [apply marksKept_refl | intros ? ? ? []].
  - cbn [fold_left] in E. apply IH in E. destruct E as [Hk Hm]. split.
    + eapply marksKept_trans; [|exact Hk].
      destruct m as [|whole [|compName rest]];
        solve [apply marksKept_refl | apply marksKept_mark].
    + intros whole compName rest [->|Hin].
      * apply Hk. apply marked_after_mark.
      * eapply Hm. exact Hin.
Qed.

End PrescanFacts.

(** Whatever a render returns, every name that the scan of the layout
    text captures (the literal name after a [comp]; in an expression
    with several calls, the last one) is marked as used afterwards,
    without its [.html] suffix. *)
Theorem Execute_marks_layout_components :
  forall (render : value -> string) (fuel : nat) (w name : string) (data : value)
         (st : state) (c : Template) (lay : Layout) (err : error) (w' : string)
         (st' : state) (whole compName : string) (rest : list string),
    templates (ts st) !! name = Some c ->
    layout (ts st) = Some lay ->
    Execute render fuel w name data st = Some (err, w', st') ->
    In (whole :: compName :: rest) (FindAllStringSubmatch compRegex (layoutHTML lay)) ->
    usedTemplates (ts st') !! TrimSuffix compName ".html" = Some true.
Proof.
  intros render fuel w name data st c lay err w' st' whole compName rest Hc Hl H Hin.
  unfold Execute in H. rewrite Hc, Hl in H.
  destruct (markMatches_marks (FindAllStringSubmatch compRegex (layoutHTML lay))
              (resetUsed st) (markLayoutComps (layoutHTML lay) (resetUsed st)) eq_refl)
    as [_ Hm].
  specialize (Hm whole compName rest Hin).
  assert (HE : forall n d s o e s',
             ExecuteTemplate render fuel n d s = Some (o, e, s') -> marksKept s s').
  { apply (ExecuteTemplate_keeps render marksKept marksKept_refl marksKept_trans
             marksKept_mark marksKept_frame). }
  destruct (ExecuteTemplate render fuel (name +:+ ".html") data
              (markLayoutComps (layoutHTML lay) (resetUsed st)))
    as [[[contentBuf [e1|]] s1]|] eqn:E1; try discriminate H.
  - injection H as <- <- <-. apply HE in E1. apply E1. exact Hm.
  - apply HE in E1. destruct (aggregate (ts s1)) as [allCSS allJS].
    destruct (layoutTmpl lay) as [b|]; [|discriminate H].
    match type of H with
    | match ?e with _ => _ end = _ => destruct e as [[[out e2] s2]|] eqn:E2
    end; [|discriminate H].
    injection H as <- <- <-.
    apply (execActions_keeps render marksKept marksKept_refl marksKept_trans
             marksKept_mark) in E2.
    + apply E2, E1. exact Hm.
    + intros n a s o e s' Hcall.
      exact (comp_keeps marksKept marksKept_trans marksKept_mark marksKept_frame
               _ HE _ _ _ _ _ _ Hcall).
Qed.

Lemma Execute_marks_layout_components_witness :
  let lay := mkLayout ("<body>{{ comp " +:+ dq +:+ "menu.html" +:+ dq +:+
                       " }}{{ .Yield }}</body>")
                      (Some [APrint (EField "Yield")]) in
  let st := {| ts := set_layout (set_templates (ts demo_state)
                                   {["page" := mkTemplate "page" "" "" "" None "s-0"]})
                                (Some lay);
               compStack := [] |} in
  match Execute show_value 3 "" "page" VNil st with
  | Some (_, _, st') => usedTemplates (ts st') !! "menu" = Some true
  | None => False
  end.
Proof.
  intros lay st.
  destruct (Execute show_value 3 "" "page" VNil st) as [[[e w'] s1]|] eqn:H.
  - apply (Execute_marks_layout_components show_value 3 "" "page" VNil st
             (mkTemplate "page" "" "" "" None "s-0") lay e w' s1
             ("{{ comp " +:+ dq +:+ "menu.html" +:+ dq) "menu.html" []).
    + reflexivity.
    + reflexivity.
    + exact H.
    + vm_compute. left. reflexivity.
  - vm_compute in H. discriminate H.
Defined.

(** ** The arithmetic of the default functions *)

Section ArithmeticFacts.

Variable intSize : Z.
Hypothesis intSize_pos : 0 < intSize.

Lemma int_modulus : 2 ^ intSize = 2 * 2 ^ (intSize - 1) /\ 0 < 2 ^ (intSize - 1).
Proof.
  split.
  - replace intSize with (Z.succ (intSize - 1)) at 1 by lia.
    rewrite Z.pow_succ_r by lia. reflexivity.
  - apply Z.pow_pos_nonneg; lia.
Qed.

Lemma wrapInt_isInt (x : Z) : isInt intSize (wrapInt intSize x).
Proof.
  unfold isInt, wrapInt. destruct int_modulus as [Hm Hh].
  pose proof (Z.mod_pos_bound (x + 2 ^ (intSize - 1)) (2 ^ intSize)). lia.
Qed.

Lemma wrapInt_id (x : Z) : isInt intSize x -> wrapInt intSize x = x.
Proof.
  unfold isInt, wrapInt. destruct int_modulus as [Hm Hh]. intros Hx.
  rewrite Z.mod_small by lia. lia.
Qed.

Lemma wrapInt_mod (x : Z) : wrapInt intSize x mod 2 ^ intSize = x mod 2 ^ intSize.
Proof.
  unfold wrapInt. destruct int_modulus as [Hm Hh].
  rewrite Zminus_mod_idemp_l. f_equal. lia.
Qed.

(** Two values of the type that agree modulo [2 ^ intSize] are equal. *)
Lemma wrapInt_eq (x y : Z) :
  x mod 2 ^ intSize = y mod 2 ^ intSize -> wrapInt intSize x = wrapInt intSize y.
Proof.
  intros H. unfold wrapInt.
  rewrite <- (Zplus_mod_idemp_l x), <- (Zplus_mod_idemp_l y), H. reflexivity.
Qed.

End ArithmeticFacts.

(** [sub] undoes [add] and [add] undoes [sub], also when the sum or the
    difference overflows and wraps around. *)
Theorem defaultFuncs_add_sub_round_trip :
  forall intSize a b : Z,
    0 < intSize -> isInt intSize a ->
    fn_sub intSize (fn_add intSize a b) b = a /\
    fn_add intSize (fn_sub intSize a b) b = a.
Proof.
  intros intSize a b Hpos Ha. unfold fn_sub, fn_add.
  split; (etransitivity; [|exact (wrapInt_id intSize Hpos a Ha)]);
    apply (wrapInt_eq intSize).
  - rewrite <- Zminus_mod_idemp_l, (wrapInt_mod intSize Hpos), Zminus_mod_idemp_l.
    f_equal. lia.
  - rewrite <- Zplus_mod_idemp_l, (wrapInt_mod intSize Hpos), Zplus_mod_idemp_l.
    f_equal. lia.
Qed.

Lemma defaultFuncs_add_sub_round_trip_witness :
  fn_add 64 9223372036854775807 1 = -9223372036854775808 /\
  fn_sub 64 (fn_add 64 9223372036854775807 1) 1 = 9223372036854775807.
Proof.
  split; [reflexivity|].
  apply (defaultFuncs_add_sub_round_trip 64 9223372036854775807 1).
  - lia.
  - unfold isInt. cbn. lia.
Defined.

(** [mod] fails on a zero divisor only.  Otherwise its result is smaller
    in magnitude than the divisor, is never of the opposite sign to the
    dividend, and differs from the dividend by a multiple of the
    divisor. *)
Theorem defaultFuncs_mod_truncates :
  forall intSize a b : Z,
    0 < intSize -> isInt intSize a -> isInt intSize b ->
    (fn_mod intSize a b = None <-> b = 0) /\
    (b <> 0 ->
     exists r q, fn_mod intSize a b = Some r /\ a = q * b + r /\
                 Z.abs r < Z.abs b /\ 0 <= r * a).
Proof.
  intros intSize a b Hpos Ha Hb. unfold fn_mod. split.
  - destruct (Z.eqb_spec b 0) as [->|Hne].
    + split; reflexivity.
    + split; [discriminate | contradiction].
  - intros Hne. destruct (Z.eqb_spec b 0) as [->|_]; [contradiction|].
    pose proof (Z.rem_bound_abs a b Hne) as Hbound.
    pose proof (Z.rem_sign_mul a b Hne) as Hsign.
    pose proof (Z.quot_rem' a b) as Hqr.
    exists (Z.rem a b), (Z.quot a b). rewrite (wrapInt_id intSize Hpos).
    + split; [reflexivity|]. split; [lia|]. split; [exact Hbound | lia].
    + unfold isInt in *. lia.
Qed.

Lemma defaultFuncs_mod_truncates_witness :
  fn_mod 64 (-7) 2 = Some (-1) /\
  exists r q, fn_mod 64 (-7) 2 = Some r /\ -7 = q * 2 + r /\
              Z.abs r < Z.abs 2 /\ 0 <= r * -7.
Proof.
  split; [reflexivity|].
  apply (defaultFuncs_mod_truncates 64 (-7) 2).
  - lia.
  - unfold isInt. cbn. lia.
  - unfold isInt. cbn. lia.
  - lia.
Defined.

End Skingo.
